(** * snack-sdk: the session, its publication pipeline and its dependency engine

    A shallow embedding of [src/SnackSession.js].  The JavaScript class is a
    record of mutable fields; every method becomes a function in a small
    state-and-exception monad over that record.

    The asynchronous methods are embedded twice.  First at their sequential
    schedule: an [await] is a plain call, [Promise.all (xs.map f)] runs [f]
    over [xs] from left to right, and a call runs to its end before anything
    else happens to the session.  Then, in the module [Async], await by
    await: a call runs up to its first [await], what is left of it is kept
    as a call in progress, and a machine advances the calls in progress one
    continuation at a time, between which other calls may start.  The
    constructor, which starts the engine and does not wait for it, is built
    on the second embedding.

    Everything the class reaches outside of the file (the transport, the
    object store, the bundler, the CDN, the save endpoint, the parser helpers
    and the configuration tables) is gathered in one record, [World], and
    every definition is parametric in it.

    The session record comes first, without the verbose console log
    ([_log], [_error]), the fields [host], [snackId], [isVerbose] and
    [isStarted], the listener arrays and the decoding of the messages that
    come from the devices: these follow in the second part, on a [Client]
    that wraps the session.  What the session sends and what its listeners
    are told is kept, as the list [events]; the requests it makes are kept,
    as the list [net].  Left out: [getUrlAsync], whose helper is not in the
    sources.

    A [string] stands for a JavaScript string by its UTF-16 code units, one
    character for each, so that [String.length] is the [length] of the
    JavaScript string; code units above 255 are outside of the model. *)

From stdpp Require Import gmap strings list sorting pretty.
From Stdlib Require Import ZArith Lia Ascii.

Open Scope string_scope.
Open Scope Z_scope.
Open Scope list_scope.

(** ** Data model *)

(** [typeof contents === 'object'] separates blob handles from strings; two
    blob handles are the same exactly when they are the same object. *)
Inductive Contents : Type :=
| Str (s : string)
| Blob (b : positive).

Inductive FileType : Type := CODE | ASSET.

Record File : Type := mkFile { type : FileType; contents : Contents }.

(** File objects live on the JavaScript heap; a file map holds references. *)
Abbreviation loc := positive (only parsing).

Abbreviation SDKVersion := string (only parsing).

Inductive Feature : Type := MULTIPLE_FILES | ARBITRARY_IMPORTS.

#[global] Instance Contents_eq_dec : EqDecision Contents.
Proof. solve_decision. Defined.
#[global] Instance FileType_eq_dec : EqDecision FileType.
Proof. solve_decision. Defined.
#[global] Instance File_eq_dec : EqDecision File.
Proof. solve_decision. Defined.

(** [type InitialState]: what [cloneDeep] captures.  The clone shares no
    object with the session, so it is a value: the file map is stored with
    the file records themselves, not with references to them. *)
Record InitialState : Type := mkInitialState {
  i_files : gmap string File;
  i_name : option string;
  i_description : option string;
  i_dependencies : gmap string string;
  i_sdkVersion : SDKVersion;
}.

#[global] Instance InitialState_eq_dec : EqDecision InitialState.
Proof. solve_decision. Defined.

(** A bundler answer, and the records the session caches in its place
    ([{name, version, error}] and [{name, version}]). *)
Record Data : Type := mkData {
  pending : bool;
  d_name : string;
  d_version : string;
  d_dependencies : option (gmap string string);
  d_error : option string;
}.

(** Outcome of a call: a value, a thrown error, or a loop that was still
    running when its fuel ran out (never caught by [try]/[catch]). *)
Inductive Result (A : Type) : Type :=
| Ok (a : A)
| Throw (e : string)
| OutOfFuel.
Arguments Ok {A} a.
Arguments Throw {A} e.
Arguments OutOfFuel {A}.

(** Answer of an external service: a value, or a failure that the caller
    sees as a thrown error (a rejected promise). *)
Inductive Reply (A : Type) : Type :=
| Answer (a : A)
| Failure (e : string).
Arguments Answer {A} a.
Arguments Failure {A} e.

(** What [getState] hands to a state listener. *)
Record StateView : Type := mkStateView {
  v_files : gmap string File;
  v_sdkVersion : SDKVersion;
  v_name : option string;
  v_description : option string;
  v_dependencies : gmap string string;
  v_isSaved : bool;
  v_isResolving : bool;
}.

Record Metadata : Type := mkMetadata {
  expoSdkVersion : SDKVersion;
  fingerprint : list (string * string);
}.

(** Envelopes published on the channel. *)
Inductive Message : Type :=
| MsgCode (m_diff m_s3url : gmap string string) (metadata : Metadata)
| MsgLegacyCode (code : Contents) (metadata : Metadata)
| MsgLoading (message : string).

(** Observable actions of the session, newest first in [events]. *)
Inductive Event : Type :=
| EvState (v : StateView)
| EvPublish (ch : string) (m : Message)
| EvSchedulePublish
| EvDependencyError (msg : string)
| EvConsoleError (msg : string).

(** Body and headers of the save request, and the fields of its answer
    that [saveAsync] reads: [data.id] and [data.errors[0].message]. *)
Record SaveRequest : Type := mkSaveRequest {
  m_sdkVersion : SDKVersion;
  m_name : option string;
  m_description : option string;
  m_dependencies : option (gmap string string);
  m_code : gmap string File;
  m_authorization : option string;
}.

Record SaveData : Type := mkSaveData {
  sd_id : option string;
  sd_error : option string;
}.

(** The requests the session performed, each with the answer it got, newest
    first in [net]. *)
Inductive IO : Type :=
| IoBundle (url : string) (reply : Reply Data)
| IoSleep (ms : Z)
| IoCdn (url : string) (status : option Z)
| IoUploadAsset (c : Contents) (reply : Reply string)
| IoUploadCode (c : Contents) (reply : Reply string)
| IoSave (body : SaveRequest) (reply : Reply SaveData).

Record Session : Type := mkSession {
  files : gmap string loc;
  heap : gmap loc File;
  s3code : gmap string Contents;
  diff : gmap string string;
  s3url : gmap string string;
  sdkVersion : SDKVersion;
  pubnub : bool;
  channel : string;
  name : option string;
  description : option string;
  dependencies : gmap string string;
  initialState : InitialState;
  isResolving : bool;
  loadingMessage : option string;
  _promises : gmap string Data;
  dependencyErrorListener : bool;
  authorizationToken : option string;
  events : list Event;
  net : list IO;
}.

(** Field assignments [this.x = v]: every other field is carried over. *)
Definition set_files (v : gmap string loc) (s : Session) : Session :=
  mkSession v (heap s) (s3code s) (diff s) (s3url s) (sdkVersion s)
    (pubnub s) (channel s) (name s) (description s) (dependencies s)
    (initialState s) (isResolving s) (loadingMessage s) (_promises s)
    (dependencyErrorListener s) (authorizationToken s) (events s) (net s).
Definition set_heap (v : gmap loc File) (s : Session) : Session :=
  mkSession (files s) v (s3code s) (diff s) (s3url s) (sdkVersion s)
    (pubnub s) (channel s) (name s) (description s) (dependencies s)
    (initialState s) (isResolving s) (loadingMessage s) (_promises s)
    (dependencyErrorListener s) (authorizationToken s) (events s) (net s).
Definition set_s3code (v : gmap string Contents) (s : Session) : Session :=
  mkSession (files s) (heap s) v (diff s) (s3url s) (sdkVersion s) (pubnub s)
    (channel s) (name s) (description s) (dependencies s) (initialState s)
    (isResolving s) (loadingMessage s) (_promises s)
    (dependencyErrorListener s) (authorizationToken s) (events s) (net s).
Definition set_diff (v : gmap string string) (s : Session) : Session :=
  mkSession (files s) (heap s) (s3code s) v (s3url s) (sdkVersion s)
    (pubnub s) (channel s) (name s) (description s) (dependencies s)
    (initialState s) (isResolving s) (loadingMessage s) (_promises s)
    (dependencyErrorListener s) (authorizationToken s) (events s) (net s).
Definition set_s3url (v : gmap string string) (s : Session) : Session :=
  mkSession (files s) (heap s) (s3code s) (diff s) v (sdkVersion s)
    (pubnub s) (channel s) (name s) (description s) (dependencies s)
    (initialState s) (isResolving s) (loadingMessage s) (_promises s)
    (dependencyErrorListener s) (authorizationToken s) (events s) (net s).
Definition set_pubnub (v : bool) (s : Session) : Session :=
  mkSession (files s) (heap s) (s3code s) (diff s) (s3url s) (sdkVersion s) v
    (channel s) (name s) (description s) (dependencies s) (initialState s)
    (isResolving s) (loadingMessage s) (_promises s)
    (dependencyErrorListener s) (authorizationToken s) (events s) (net s).
Definition set_dependencies (v : gmap string string) (s : Session) : Session :=
  mkSession (files s) (heap s) (s3code s) (diff s) (s3url s) (sdkVersion s)
    (pubnub s) (channel s) (name s) (description s) v (initialState s)
    (isResolving s) (loadingMessage s) (_promises s)
    (dependencyErrorListener s) (authorizationToken s) (events s) (net s).
Definition set_initialState (v : InitialState) (s : Session) : Session :=
  mkSession (files s) (heap s) (s3code s) (diff s) (s3url s) (sdkVersion s)
    (pubnub s) (channel s) (name s) (description s) (dependencies s) v
    (isResolving s) (loadingMessage s) (_promises s)
    (dependencyErrorListener s) (authorizationToken s) (events s) (net s).
Definition set_isResolving (v : bool) (s : Session) : Session :=
  mkSession (files s) (heap s) (s3code s) (diff s) (s3url s) (sdkVersion s)
    (pubnub s) (channel s) (name s) (description s) (dependencies s)
    (initialState s) v (loadingMessage s) (_promises s)
    (dependencyErrorListener s) (authorizationToken s) (events s) (net s).
Definition set_loadingMessage (v : option string) (s : Session) : Session :=
  mkSession (files s) (heap s) (s3code s) (diff s) (s3url s) (sdkVersion s)
    (pubnub s) (channel s) (name s) (description s) (dependencies s)
    (initialState s) (isResolving s) v (_promises s)
    (dependencyErrorListener s) (authorizationToken s) (events s) (net s).
Definition set_promises (v : gmap string Data) (s : Session) : Session :=
  mkSession (files s) (heap s) (s3code s) (diff s) (s3url s) (sdkVersion s)
    (pubnub s) (channel s) (name s) (description s) (dependencies s)
    (initialState s) (isResolving s) (loadingMessage s) v
    (dependencyErrorListener s) (authorizationToken s) (events s) (net s).
Definition set_sdkVersion (v : SDKVersion) (s : Session) : Session :=
  mkSession (files s) (heap s) (s3code s) (diff s) (s3url s) v (pubnub s)
    (channel s) (name s) (description s) (dependencies s) (initialState s)
    (isResolving s) (loadingMessage s) (_promises s)
    (dependencyErrorListener s) (authorizationToken s) (events s) (net s).
Definition set_name (v : option string) (s : Session) : Session :=
  mkSession (files s) (heap s) (s3code s) (diff s) (s3url s) (sdkVersion s)
    (pubnub s) (channel s) v (description s) (dependencies s)
    (initialState s) (isResolving s) (loadingMessage s) (_promises s)
    (dependencyErrorListener s) (authorizationToken s) (events s) (net s).
Definition set_description (v : option string) (s : Session) : Session :=
  mkSession (files s) (heap s) (s3code s) (diff s) (s3url s) (sdkVersion s)
    (pubnub s) (channel s) (name s) v (dependencies s) (initialState s)
    (isResolving s) (loadingMessage s) (_promises s)
    (dependencyErrorListener s) (authorizationToken s) (events s) (net s).
Definition set_authorizationToken (v : option string) (s : Session) : Session :=
  mkSession (files s) (heap s) (s3code s) (diff s) (s3url s) (sdkVersion s)
    (pubnub s) (channel s) (name s) (description s) (dependencies s)
    (initialState s) (isResolving s) (loadingMessage s) (_promises s)
    (dependencyErrorListener s) v (events s) (net s).
Definition set_events (v : list Event) (s : Session) : Session :=
  mkSession (files s) (heap s) (s3code s) (diff s) (s3url s) (sdkVersion s)
    (pubnub s) (channel s) (name s) (description s) (dependencies s)
    (initialState s) (isResolving s) (loadingMessage s) (_promises s)
    (dependencyErrorListener s) (authorizationToken s) v (net s).
Definition set_net (v : list IO) (s : Session) : Session :=
  mkSession (files s) (heap s) (s3code s) (diff s) (s3url s) (sdkVersion s)
    (pubnub s) (channel s) (name s) (description s) (dependencies s)
    (initialState s) (isResolving s) (loadingMessage s) (_promises s)
    (dependencyErrorListener s) (authorizationToken s) (events s) v.

(** ** The state-and-exception monad of the methods

    A method reads and writes the session and ends in a [Result].  Writes
    made before a [throw] stay: JavaScript does not roll back. *)
Definition M (A : Type) : Type := Session -> Result A * Session.

Definition ret {A} (a : A) : M A := fun s => (Ok a, s).
Definition throw {A} (e : string) : M A := fun s => (Throw e, s).
Definition bind {A B} (m : M A) (k : A -> M B) : M B :=
  fun s =>
    match m s with
    | (Ok a, s') => k a s'
    | (Throw e, s') => (Throw e, s')
    | (OutOfFuel, s') => (OutOfFuel, s')
    end.
Definition get : M Session := fun s => (Ok s, s).
Definition modify (f : Session -> Session) : M unit := fun s => (Ok tt, f s).

#[global] Instance M_ret : MRet M := @ret.
#[global] Instance M_bind : MBind M := fun A B k m => bind m k.

(** [try { m } catch (e) { h e }] *)
Definition try_catch {A} (m : M A) (h : string -> M A) : M A :=
  fun s =>
    match m s with
    | (Throw e, s') => h e s'
    | r => r
    end.

(** [try { m } finally { f }]: [f] runs on every exit of [m]; the outcome is
    [m]'s unless [f] itself throws. *)
Definition try_finally {A} (m : M A) (f : M unit) : M A :=
  fun s =>
    match m s with
    | (OutOfFuel, s') => (OutOfFuel, s')
    | (r, s') =>
        match f s' with
        | (Ok _, s'') => (r, s'')
        | (Throw e, s'') => (Throw e, s'')
        | (OutOfFuel, s'') => (OutOfFuel, s'')
        end
    end.

(** [for (const x of xs) { f x }] *)
Fixpoint forM_ {A} (xs : list A) (f : A -> M unit) : M unit :=
  match xs with
  | [] => ret tt
  | x :: xs' => f x;; forM_ xs' f
  end.

(** [await Promise.all (xs.map f)] at the sequential schedule. *)
Fixpoint mapM {A B} (f : A -> M B) (xs : list A) : M (list B) :=
  match xs with
  | [] => ret []
  | x :: xs' => y ← f x; ys ← mapM f xs'; ret (y :: ys)
  end.

Definition emit (e : Event) : M unit := modify (fun s => set_events (e :: events s) s).
Definition record (io : IO) : M unit := modify (fun s => set_net (io :: net s) s).
Definition lift {A} (r : Reply A) : M A :=
  match r with
  | Answer a => ret a
  | Failure e => throw e
  end.

(** ** JavaScript helpers *)

(** A string is truthy when it is defined and not empty. *)
Definition truthy (o : option string) : bool :=
  match o with
  | Some s => negb (String.eqb s "")
  | None => false
  end.

(** [o || d] on strings. *)
Definition or_else (o : option string) (d : string) : string :=
  if truthy o then default d o else d.

Definition startsWith (s p : string) : bool := String.prefix p s.
Definition endsWith (s p : string) : bool :=
  String.prefix (String.rev p) (String.rev s).

(** [s.replace(/\//g, '~')] *)
Fixpoint replace_slashes (s : string) : string :=
  match s with
  | EmptyString => EmptyString
  | String c s' =>
      String (if Ascii.eqb c "/"%char then "~"%char else c) (replace_slashes s')
  end.

(** [id.match(/.*\/.*/)]: some line of [id] holds a slash. *)
Fixpoint has_slash (s : string) : bool :=
  match s with
  | EmptyString => false
  | String c s' => Ascii.eqb c "/"%char || has_slash s'
  end.

(** [Object.keys m].  The order of a [gmap] is fixed but is not JavaScript's
    insertion order; nothing below depends on it. *)
Definition keys {V} (m : gmap string V) : list string := (map_to_list m).*1.

Definition includes (l : list string) (x : string) : bool := bool_decide (x ∈ l).

(** ** Constants of the module *)

Definition MIN_CHANNEL_LENGTH : Z := 6.
Definition DEBOUNCE_INTERVAL : Z := 500.
Definition MAX_PUBNUB_SIZE : Z := 31500.
Definition S3_BUCKET_URL : string := "https://snack-code-uploads".

Definition expoApiUrl : string := "https://expo.io".
Definition snackagerUrl : string := "https://snackager.expo.io".
Definition snackagerCloudfrontUrl : string := "https://d37p21p3n8r8ug.cloudfront.net".

Definition reserved : list string := ["react"; "react-native"; "expo"].

Definition TypeError : string := "TypeError".

(** [e.toString ()], which is also what [`${e}`] interpolates, for an
    [Error] with the message [e]: the name and the message, or the name alone
    when the message is empty.  An error is carried by its message; the
    errors that [_maybeFetchDependencyAsync] catches are the two
    [new Error (...)] of [_tryFetchDependencyAsync], and a request rejected
    by the network is taken as an [Error] as well. *)
Definition Error_toString (e : string) : string :=
  if String.eqb e "" then "Error" else "Error: " +:+ e.

(** ** The world around the session

    [./configs/sdkVersions], [./configs/npmVersions], [./utils/sendFileUtils],
    [./utils/findAndWriteDependencyVersions], [./utils/insertImport] with
    recast, [shortid], [fetch] and the probes of [_getAnalyticsMetadata] are
    not part of the file; they are the fields of [World].  A network service
    sees the history of requests, so its answers may change over time. *)
Record World : Type := mkWorld {
  sdkSupportsFeature : SDKVersion -> Feature -> bool;
  defaultSDKVersion : SDKVersion;
  shortid_generate : string;
  npmVersionPins_default : string;
  npmVersionPins_error : string;
  hostFingerprint : list (string * string);
  uploadAssetToS3 : list IO -> Contents -> string -> Reply string;
  uploadCodeToS3 : list IO -> Contents -> string -> Reply string;
  calcPayloadSize : string -> gmap string string -> gmap string string -> Z;
  getFileDiff : option Contents -> string -> string;
  bundler : list IO -> string -> Reply Data;
  cdn : list IO -> string -> option Z;
  saveEndpoint : list IO -> SaveRequest -> Reply SaveData;
  encodeURIComponent : string -> string;
  findModuleDependencies : Contents -> Reply (gmap string (option string));
  writeModuleVersions : Contents -> gmap string string -> Reply string;
  insertImports : Contents -> list string -> Reply string;
}.

(** Entries of the [fileSize] array of [_handleUploadCodeAsync]. *)
Record FileSize : Type := mkFileSize { fs_name : string; fs_size : Z }.

(** The comparison handed to [sort]: ascending sizes. *)
Definition size_le (a b : FileSize) : Prop := fs_size a <= fs_size b.

#[global] Instance size_le_dec : RelDecision size_le.
Proof. intros a b. unfold size_le. apply _. Defined.

(** [this.files[key]], [undefined] when the key is missing. *)
Definition file_at (s : Session) (key : string) : option File :=
  l ← files s !! key; heap s !! l.

(** The file map as [cloneDeep] and [isEqual] see it. *)
Definition files_value (s : Session) : gmap string File :=
  omap (fun l => heap s !! l) (files s).

Definition current_tuple (s : Session) : InitialState :=
  {| i_files := files_value s;
     i_name := name s;
     i_description := description s;
     i_dependencies := dependencies s;
     i_sdkVersion := sdkVersion s |}.

(** [this.files[key].contents = c] *)
Definition write_contents (key : string) (c : Contents) (s : Session) : Session :=
  match files s !! key with
  | Some l => set_heap (alter (fun f => mkFile (type f) c) l (heap s)) s
  | None => s
  end.

(** ** The methods of [SnackSession] *)

Section Methods.
Context (W : World).

(** [supportsFeature] (line 466) *)
Definition supportsFeature (feature : Feature) : M bool :=
  s ← get; ret (sdkSupportsFeature W (sdkVersion s) feature).

(** [_isSaved] (line 489): [isEqual] is structural equality on the cloned
    values. *)
Definition _isSaved (s : Session) : bool :=
  bool_decide (initialState s = current_tuple s).

(** [getState] (line 450) *)
Definition getState (s : Session) : StateView :=
  {| v_files := files_value s;
     v_sdkVersion := sdkVersion s;
     v_name := name s;
     v_description := description s;
     v_dependencies := dependencies s;
     v_isSaved := _isSaved s;
     v_isResolving := isResolving s |}.

(** [_sendStateEvent] (line 501).  The state listeners are observers here;
    how a dispatch walks the listener array is the subject of [forEach]
    further down. *)
Definition _sendStateEvent : M unit :=
  s ← get; emit (EvState (getState s)).

(** [this.pubnub.publish ({channel, message}, callback)]; the callback
    only logs. *)
Definition publish (message : Message) : M unit :=
  s ← get;
  if pubnub s then emit (EvPublish (channel s) message) else throw TypeError.

(** [_sendLoadingEvent] (line 675) *)
Definition _sendLoadingEvent : M unit :=
  s ← get;
  if negb (truthy (loadingMessage s)) then ret tt
  else
    let payload := MsgLoading (default "" (loadingMessage s)) in
    if negb (pubnub s) then ret tt
    else publish payload.

(** [_getAnalyticsMetadata] (line 693): the SDK version, and whatever the
    probes of the host environment found. *)
Definition _getAnalyticsMetadata : M Metadata :=
  s ← get;
  ret {| expoSdkVersion := sdkVersion s; fingerprint := hostFingerprint W |}.

(** *** Snapshot and spill *)

(** [await sendFileUtils.uploadAssetToS3 (c, this.expoApiUrl)], and the
    same for code. *)
Definition call_uploadAssetToS3 (c : Contents) : M string :=
  s ← get;
  let r := uploadAssetToS3 W (net s) c expoApiUrl in
  record (IoUploadAsset c r);; lift r.

Definition call_uploadCodeToS3 (c : Contents) : M string :=
  s ← get;
  let r := uploadCodeToS3 W (net s) c expoApiUrl in
  record (IoUploadCode c r);; lift r.

(** [_uploadHelper] (line 551), first the body of its callback for one key;
    the pushes onto [fileSize] are returned.  With [Promise.all] the pushes
    of the blobs come after those of the other files; [fileSize] is sorted
    before it is read, so this only moves entries of equal size. *)
Definition _uploadHelper_key (key : string) : M (list FileSize) :=
  s ← get;
  match file_at s key with
  | None => ret []
  | Some file =>
      match contents file with
      | Blob _ =>
          modify (fun s => set_s3code (<[key := contents file]> (s3code s)) s);;
          modify (fun s => set_diff (<[key := ""]> (diff s)) s);;
          url ← call_uploadAssetToS3 (contents file);
          modify (fun s => set_s3url (<[key := url]> (s3url s)) s)
      | Str code =>
          if startsWith code S3_BUCKET_URL then
            modify (fun s => set_diff (<[key := ""]> (diff s)) s);;
            modify (fun s => set_s3code (<[key := contents file]> (s3code s)) s);;
            modify (fun s => set_s3url (<[key := code]> (s3url s)) s)
          else if truthy (s3url s !! key) then
            modify (fun s =>
              set_diff (<[key := getFileDiff W (s3code s !! key) code]> (diff s)) s)
          else
            modify (fun s =>
              set_diff (<[key := getFileDiff W (Some (Str "")) code]> (diff s)) s)
      end;;
      s' ← get;
      ret [ {| fs_name := key;
               fs_size := Z.of_nat (String.length (default "" (diff s' !! key))) |} ]
  end.

Definition _uploadHelper : M (list FileSize) :=
  s ← get;
  pushes ← mapM _uploadHelper_key (keys (files s));
  ret (concat pushes).

(** [sendFileUtils.calcPayloadSize (this.channel, {diff, s3url})] *)
Definition payload_size (s : Session) : Z :=
  calcPayloadSize W (channel s) (diff s) (s3url s).

(** [fileSize.sort ((a, b) => a.size - b.size)] *)
Definition sort_by_size (fileSize : list FileSize) : list FileSize :=
  merge_sort size_le fileSize.

(** The [while] loop of [_handleUploadCodeAsync].  [stack] is the sorted
    array read from its end: [fileSize.pop()] takes the head. *)
Fixpoint spill (stack : list FileSize) (size : Z) : M unit :=
  if bool_decide (size > MAX_PUBNUB_SIZE) then
    match stack with
    | [] => ret tt
    | top :: stack' =>
        let key := fs_name top in
        s ← get;
        match file_at s key with
        | None => throw TypeError
        | Some file =>
            modify (fun s => set_s3code (<[key := contents file]> (s3code s)) s);;
            modify (fun s => set_diff (<[key := ""]> (diff s)) s);;
            url ← call_uploadCodeToS3 (contents file);
            modify (fun s => set_s3url (<[key := url]> (s3url s)) s);;
            s' ← get;
            spill stack' (payload_size s')
        end
    end
  else ret tt.

(** [_handleUploadCodeAsync] (line 521) *)
Definition _handleUploadCodeAsync : M unit :=
  fileSize ← _uploadHelper;
  s ← get;
  let size := payload_size s in
  if bool_decide (size > MAX_PUBNUB_SIZE) then
    spill (reverse (sort_by_size fileSize)) size
  else ret tt.

(** *** The bundler *)

(** The address polled by [_tryFetchDependencyAsync]. *)
Definition bundle_url (name : string) (version : option string) : string :=
  snackagerUrl +:+ "/bundle/" +:+ name +:+
  (if truthy version then "@" +:+ default "" version else "") +:+
  "?platforms=ios,android".

(** The [while] loop of [_tryFetchDependencyAsync] (line 759); [data] is
    [None] while the variable is still undefined.  The loop is not
    structural, so it takes fuel; [_tryFetch_loop_outcome] shows that 32
    units are never used up. *)
Fixpoint _tryFetch_loop (fuel : nat) (url : string) (count : Z)
    (data : option Data) : M Data :=
  let body : M Data :=
    match fuel with
    | O => fun s => (OutOfFuel, s)
    | S fuel' =>
        if bool_decide (count > 30) then throw "Request timed out"
        else
          let count := count + 1 in
          s ← get;
          let res := bundler W (net s) url in
          record (IoBundle url res);;
          match res with
          | Answer d =>
              (if pending d then record (IoSleep 5000) else ret tt);;
              _tryFetch_loop fuel' url count (Some d)
          | Failure error => throw error
          end
    end in
  match data with
  | Some d => if pending d then body else ret d
  | None => body
  end.

Definition _tryFetchDependencyAsync (name : string) (version : option string)
    : M Data :=
  _tryFetch_loop 32 (bundle_url name version) 0 None.

(** [_checkS3ForDepencencyAsync] (line 833) *)
Definition _checkS3ForDepencencyAsync (name version : string) : M bool :=
  let hash := replace_slashes (name +:+ "@" +:+ version) in
  results ← mapM (fun platform =>
      let url := snackagerCloudfrontUrl +:+ "/" +:+ encodeURIComponent W hash +:+
                 "-" +:+ platform +:+ "/.done" in
      s ← get;
      let res := cdn W (net s) url in
      record (IoCdn url res);;
      ret (match res with
           | Some status => bool_decide (status < 400)
           | None => false
           end))
    ["ios"; "android"];
  ret (forallb id results).

(** [_maybeFetchDependencyAsync] (line 795).  The cache slot holds the
    resolved record; at the sequential schedule no promise is in flight when
    the slot is read. *)
Definition _maybeFetchDependencyAsync (name : string) (version : option string)
    : M Data :=
  let id := name +:+ "-" +:+ or_else version "latest" in
  s ← get;
  match _promises s !! id with
  | Some data => ret data
  | None =>
      try_catch
        (data ← _tryFetchDependencyAsync name version;
         modify (fun s => set_promises (<[id := data]> (_promises s)) s);;
         ret data)
        (fun e =>
           _checkS3ForDepencencyAsync name (or_else version "latest") ≫=
           fun found : bool =>
           if found then
             let data := {| pending := false; d_name := name;
                            d_version := or_else version (npmVersionPins_default W);
                            d_dependencies := None;
                            d_error := Some (Error_toString e) |} in
             modify (fun s => set_promises (<[id := data]> (_promises s)) s);;
             ret data
           else
             let data := {| pending := false; d_name := name;
                            d_version := npmVersionPins_error W;
                            d_dependencies := None; d_error := None |} in
             modify (fun s => set_promises (<[id := data]> (_promises s)) s);;
             s ← get;
             (if dependencyErrorListener s then
                emit (EvDependencyError
                        ("Error fetching " +:+ name +:+ "@" +:+
                         or_else version "latest" +:+ ": " +:+ Error_toString e))
              else ret tt);;
             ret data)
  end.

(** *** The dependency engine *)

(** The [pickBy] of [_findDependenciesOnceAsync]. *)
Definition pick_modules (scanned : gmap string (option string))
    : gmap string (option string) :=
  filter (fun kv => Is_true (negb (startsWith kv.1 ".") && negb (includes reserved kv.1)))
         scanned.

(** The filter that computes [changedModules]. *)
Definition is_changed (deps : gmap string string)
    (modules : gmap string (option string)) (moduleName : string) : bool :=
  match deps !! moduleName with
  | None => true
  | Some v => negb (bool_decide (modules !! moduleName = Some (Some v)))
  end.

(** The collection of [peerDependencies] out of the fetched results; a
    later result overwrites an earlier one. *)
Definition collect_peers (results : list Data) : gmap string string :=
  foldl (fun peerDependencies it =>
           match d_dependencies it with
           | Some deps =>
               filter (fun kv => Is_true (negb (includes reserved kv.1))) deps
                 ∪ peerDependencies
           | None => peerDependencies
           end) ∅ results.

(** [its.forEach (it => { dependencies[it.name] = it.version })] *)
Definition assign_versions (its : list Data) (dependencies : gmap string string)
    : gmap string string :=
  foldl (fun dependencies it => <[d_name it := d_version it]> dependencies)
        dependencies its.

(** [_findDependenciesOnceAsync] (line 888); [None] stands for both [null]
    and [undefined]. *)
Definition _findDependenciesOnceAsync (file : Contents) : M (option string) :=
  supportsFeature ARBITRARY_IMPORTS ≫= fun ai : bool =>
  if negb ai then ret None
  else
    match findModuleDependencies W file with
    | Failure e => ret None
    | Answer scanned =>
        let modules := pick_modules scanned in
        s ← get;
        let changedModules :=
          List.filter (is_changed (dependencies s) modules) (keys modules) in
        if bool_decide (keys modules = []) || bool_decide (changedModules = [])
        then ret None
        else
          _sendStateEvent;;
          modify (set_loadingMessage (Some "Installing dependencies"));;
          _sendLoadingEvent;;
          try_finally
            (try_catch
               (results ← mapM (fun name =>
                    _maybeFetchDependencyAsync name (default None (modules !! name)))
                  (keys modules);
                let peerDependencies := collect_peers results in
                modify (fun s => set_dependencies (peerDependencies ∪ dependencies s) s);;
                _sendStateEvent;;
                peers ← mapM (fun name =>
                    _maybeFetchDependencyAsync name (peerDependencies !! name))
                  (keys peerDependencies);
                let dependencies' := assign_versions results (assign_versions peers ∅) in
                code ← (match peers with
                        | [] => ret file
                        | _ => code ← lift (insertImports W file (d_name <$> peers));
                               ret (Str code)
                        end);
                code ← lift (writeModuleVersions W code dependencies');
                modify (fun s => set_dependencies (dependencies' ∪ dependencies s) s);;
                _sendStateEvent;;
                ret (Some code))
               (fun e => ret None))
            _sendStateEvent
    end.

(** [_handleFindDependenciesAsync] (line 850) *)
Definition _handleFindDependenciesAsync : M unit :=
  supportsFeature ARBITRARY_IMPORTS ≫= fun ai : bool =>
  if negb ai then ret tt
  else
    s ← get;
    if isResolving s then ret tt
    else
      modify (set_isResolving true);;
      try_finally
        (try_catch
           (forM_ (keys (files s)) (fun key =>
              if endsWith key ".js" then
                s1 ← get;
                match file_at s1 key with
                | None => throw TypeError
                | Some file =>
                    let codeAtStartOfFindDependencies := contents file in
                    codeWithVersions ← _findDependenciesOnceAsync (contents file);
                    s2 ← get;
                    match file_at s2 key with
                    | None => throw TypeError
                    | Some file' =>
                        if bool_decide (contents file' = codeAtStartOfFindDependencies)
                        then
                          if truthy codeWithVersions then
                            modify (write_contents key
                                      (Str (default "" codeWithVersions)));;
                            _sendStateEvent
                          else ret tt
                        else ret tt
                    end
                end
              else ret tt))
           (fun e => emit (EvConsoleError e)))
        (modify (set_loadingMessage None);;
         modify (set_isResolving false);;
         _sendStateEvent).

(** *** Publication *)

(** [_publishNotDebouncedAsync] (line 634) *)
Definition _publishNotDebouncedAsync : M unit :=
  s ← get;
  if truthy (loadingMessage s) then _sendLoadingEvent
  else
    supportsFeature ARBITRARY_IMPORTS ≫= fun ai : bool =>
    (if ai then _handleFindDependenciesAsync else ret tt);;
    s ← get;
    if isResolving s then ret tt
    else
      metadata ← _getAnalyticsMetadata;
      supportsFeature MULTIPLE_FILES ≫= fun mf : bool =>
      message ← (if mf then
                   _handleUploadCodeAsync;;
                   s ← get;
                   ret (MsgCode (diff s) (s3url s) metadata)
                 else
                   s ← get;
                   match file_at s "app.js" with
                   | Some file => ret (MsgLegacyCode (contents file) metadata)
                   | None => throw TypeError
                   end);
      publish message.

(** [_publish = debounce (_publishNotDebouncedAsync, DEBOUNCE_INTERVAL)]:
    a call arms the timer. *)
Definition _publish : M unit := emit EvSchedulePublish.

(** *** Public operations *)

(** [sendCodeAsync (files)] (line 264): the argument is a map of references
    into the same heap as the session's.  First the body of each of its two
    loops; [!==] on file objects compares references. *)
Definition sendCode_remove (files' : gmap string loc) (key : string) : M unit :=
  if negb (bool_decide (key ∈ dom files')) then
    modify (fun s => set_files (delete key (files s)) s)
  else ret tt.

Definition sendCode_update (entry : string * loc) : M unit :=
  let '(key, l) := entry in
  s ← get;
  if negb (bool_decide (is_Some (files s !! key)))
     || negb (bool_decide (files s !! key = Some l)) then
    modify (fun s => set_files (<[key := l]> (files s)) s);;
    s ← get;
    match file_at s key with
    | None => throw TypeError
    | Some file =>
        match type file, contents file with
        | ASSET, Blob _ =>
            url ← call_uploadAssetToS3 (contents file);
            modify (write_contents key (Str url))
        | _, _ => ret tt
        end
    end
  else ret tt.

Definition sendCodeAsync (files' : gmap string loc) : M unit :=
  s ← get;
  forM_ (keys (files s)) (sendCode_remove files');;
  forM_ (map_to_list files') sendCode_update;;
  _publish;;
  _sendStateEvent.

(** The [payload] and the headers of [saveAsync]. *)
Definition save_request (s : Session) : SaveRequest :=
  {| m_sdkVersion := sdkVersion s;
     m_name := name s;
     m_description := description s;
     m_dependencies :=
       if sdkSupportsFeature W (sdkVersion s) ARBITRARY_IMPORTS
       then Some (dependencies s) else None;
     m_code := files_value s;
     m_authorization :=
       if truthy (authorizationToken s)
       then Some ("Bearer " +:+ default "" (authorizationToken s)) else None |}.

(** [saveAsync] (line 384): the result is the pair [{id, url}]. *)
Definition saveAsync : M (string * string) :=
  try_catch
    (s ← get;
     let reply := saveEndpoint W (net s) (save_request s) in
     record (IoSave (save_request s) reply);;
     data ← lift reply;
     if truthy (sd_id data) then
       let id := default "" (sd_id data) in
       modify (fun s => set_initialState (current_tuple s) s);;
       _sendStateEvent;;
       let fullName := if has_slash id then id else "@snack/" +:+ id in
       ret (id, "https://expo.io/" +:+ fullName)
     else
       throw (or_else (sd_error data) "Failed to save code"))
    (fun e => emit (EvConsoleError e);; throw e).

End Methods.

(** [ExpoSnackSessionArguments], as far as the constructor reads them. *)
Record Options : Type := mkOptions {
  o_files : gmap string loc;
  o_sdkVersion : option string;
  o_sessionId : option string;
  o_authorizationToken : option string;
  o_name : option string;
  o_description : option string;
  o_dependencies : option (gmap string string);
}.

(** * The asynchronous methods, await by await

    A call of an [async] function runs its body up to the first [await] and
    hands a promise back to its caller; the rest of the body runs later, when
    what it awaits has settled.  Between the two, the caller and anything
    else may run.  This part embeds the asynchronous methods once more, with
    their [await]s kept: a call is a tree of what is still to run, and a
    machine that holds the session and the calls in progress advances one
    of them at a time.

    A step of the machine runs one continuation, from one [await] to the
    next.  When a call settles, the caller that awaits it goes on within the
    same step: the microtask that JavaScript puts between the two is a step
    of its own only where the awaited promise was settled already.  A request
    to the network is logged, with the answer of the oracle, when it is
    issued; the caller sees the answer when it is resumed. *)
Module Async.

(** The session, and the slots of [_promises] that hold a promise that has
    not settled yet. *)
Record State : Type := mkState {
  this : Session;
  in_flight : gset string;
}.

Definition set_this (v : Session) (s : State) : State := mkState v (in_flight s).
Definition set_in_flight (v : gset string) (s : State) : State := mkState (this s) v.

(** What an [await] waits for: a promise that is already settled or settles
    without the outside world (the continuation is a microtask), an answer
    of the network, or a timer. *)
Inductive Waiting : Type := Microtask | Network | Delay.

(** A call in progress: settled, or suspended at an [await] on something
    from outside, at an [await] on the promise stored in a slot of
    [_promises], or at an [await Promise.all (...)] over calls in progress. *)
#[warnings="-register-all"]
Inductive Async : Type -> Type :=
| Settled {A} (r : Result A) : Async A
| Await {A} (on : Waiting) (resume : State -> Async A * State) : Async A
| AwaitSlot {A} (id : string) (resume : Data -> State -> Async A * State) : Async A
| AwaitAll {A B} (children : list (Async B))
    (resume : Result (list B) -> State -> Async A * State) : Async A.

(** How a call settled, when it has. *)
Definition settled {A} (t : Async A) : option (Result A) :=
  match t in Async A0 return option (Result A0) with
  | Settled r => Some r
  | _ => None
  end.

(** The body of an asynchronous function from where it stands: it runs on
    the state up to its next [await]. *)
Definition AM (A : Type) : Type := State -> Async A * State.

Definition settle {A} (r : Result A) : AM A := fun s => (Settled r, s).

(** [t] followed by [k], which sees how [t] settled. *)
Fixpoint after {A B} (t : Async A) : (Result A -> AM B) -> AM B :=
  match t in Async A0 return (Result A0 -> AM B) -> AM B with
  | Settled r => fun k => k r
  | Await on resume => fun k s =>
      (Await on (fun s' => let '(t', s'') := resume s' in after t' k s''), s)
  | AwaitSlot id resume => fun k s =>
      (AwaitSlot id (fun d s' => let '(t', s'') := resume d s' in after t' k s''), s)
  | AwaitAll children resume => fun k s =>
      (AwaitAll children (fun r s' => let '(t', s'') := resume r s' in after t' k s''),
       s)
  end.

Definition bind {A B} (m : AM A) (k : A -> AM B) : AM B :=
  fun s =>
    let '(t, s') := m s in
    after t (fun r => match r with
                      | Ok a => k a
                      | Throw e => settle (Throw e)
                      | OutOfFuel => settle OutOfFuel
                      end) s'.

#[export] Instance AM_ret : MRet AM := fun A a => settle (Ok a).
#[export] Instance AM_bind : MBind AM := fun A B k m => bind m k.

Definition throw {A} (e : string) : AM A := settle (Throw e).

(** [try { m } catch (e) { h e }] *)
Definition try_catch {A} (m : AM A) (h : string -> AM A) : AM A :=
  fun s =>
    let '(t, s') := m s in
    after t (fun r => match r with
                      | Throw e => h e
                      | r => settle r
                      end) s'.

(** [try { m } finally { f }] *)
Definition try_finally {A} (m : AM A) (f : AM unit) : AM A :=
  fun s =>
    let '(t, s') := m s in
    after t (fun r => match r with
                      | OutOfFuel => settle OutOfFuel
                      | r => bind f (fun _ => settle r)
                      end) s'.

(** A synchronous stretch of code. *)
Definition sync {A} (m : M A) : AM A :=
  fun s => let '(r, this') := m (this s) in (Settled r, set_this this' s).

Definition get : AM State := fun s => (Settled (Ok s), s).

(** [await p] for a promise [p] of the outside world. *)
Definition await (on : Waiting) : AM unit :=
  fun s => (Await on (fun s' => (Settled (Ok tt), s')), s).

(** [await f (...)] for an asynchronous function [f] of the class: when the
    call settled without an [await] of its own, the caller still waits for
    a microtask. *)
Definition await_call {A} (m : AM A) : AM A :=
  fun s =>
    let '(t, s') := m s in
    match settled t with
    | Some r => (Await Microtask (fun s'' => (Settled r, s'')), s')
    | None => (t, s')
    end.

(** [xs.map (f)] for an asynchronous [f]: the calls start one after the
    other, each running up to its first [await]. *)
Fixpoint start_all {A B} (f : A -> AM B) (xs : list A) (s : State)
    : list (Async B) * State :=
  match xs with
  | [] => ([], s)
  | x :: xs' =>
      let '(t, s') := f x s in
      let '(ts, s'') := start_all f xs' s' in
      (t :: ts, s'')
  end.

(** [await Promise.all (xs.map (f))] *)
Definition all {A B} (f : A -> AM B) (xs : list A) : AM (list B) :=
  fun s =>
    let '(children, s') := start_all f xs s in
    (AwaitAll children (fun r s'' => (Settled r, s'')), s').

Section Methods.
Context (W : World).

(** *** The bundler *)

(** The [while] loop of [_tryFetchDependencyAsync] (line 759).  A request is
    answered by the world when it is sent and the answer is logged with it;
    the call learns it at the [await]. *)
Fixpoint _tryFetch_loop (fuel : nat) (url : string) (count : Z)
    (data : option Data) : AM Data :=
  let body : AM Data :=
    match fuel with
    | O => settle OutOfFuel
    | S fuel' =>
        if bool_decide (count > 30) then throw "Request timed out"
        else
          let count := count + 1 in
          s ← get;
          let res := bundler W (net (this s)) url in
          sync (record (IoBundle url res));;
          await Network;;                          (* await fetch (url) *)
          match res with
          | Answer d =>
              await Network;;                      (* await res.json () *)
              (if pending d then
                 sync (record (IoSleep 5000));;
                 await Delay                       (* await new Promise (setTimeout) *)
               else mret tt);;
              _tryFetch_loop fuel' url count (Some d)
          | Failure error =>
              await Network;;                      (* await res.text () *)
              throw error
          end
    end in
  match data with
  | Some d => if pending d then body else mret d
  | None => body
  end.

Definition _tryFetchDependencyAsync (name : string) (version : option string)
    : AM Data :=
  _tryFetch_loop 32 (bundle_url name version) 0 None.

(** [_checkS3ForDepencencyAsync] (line 833): both probes are sent before
    either is answered. *)
Definition _checkS3ForDepencencyAsync (name version : string) : AM bool :=
  let hash := replace_slashes (name +:+ "@" +:+ version) in
  results ← all (fun platform =>
      let url := snackagerCloudfrontUrl +:+ "/" +:+ encodeURIComponent W hash +:+
                 "-" +:+ platform +:+ "/.done" in
      s ← get;
      let res := cdn W (net (this s)) url in
      sync (record (IoCdn url res));;
      await Network;;                              (* await fetch (url) *)
      mret (match res with
            | Some status => bool_decide (status < 400)
            | None => false
            end))
    ["ios"; "android"];
  mret (forallb id results).

(** [this._promises[id] = m], for the promise of the call [m] that has
    just started. *)
Definition in_slot {A} (id : string) (m : AM A) : AM A :=
  fun s => let '(t, s') := m s in (t, set_in_flight ({[ id ]} ∪ in_flight s') s').

(** [await this._promises[id]] while the slot holds a promise. *)
Definition await_slot (id : string) : AM Data :=
  fun s => (AwaitSlot id (fun data s' => (Settled (Ok data), s')), s).

(** [this._promises[id] = v], which ends the flight of the promise that the
    slot held. *)
Definition settle_slot (id : string) (data : Data) : AM unit :=
  fun s =>
    (Settled (Ok tt),
     mkState (set_promises (<[id := data]> (_promises (this s))) (this s))
             (in_flight s ∖ {[ id ]})).

(** [_maybeFetchDependencyAsync] (line 795).  A slot of [_promises] holds
    nothing, a record, or the promise of a fetch in flight; a call that finds
    a promise there awaits that promise, and learns the record that the
    fetch leaves in the slot. *)
Definition _maybeFetchDependencyAsync (name : string) (version : option string)
    : AM Data :=
  let id := name +:+ "-" +:+ or_else version "latest" in
  s ← get;
  match _promises (this s) !! id with
  | Some data => mret data
  | None =>
      if bool_decide (id ∈ in_flight s) then
        await_slot id
      else
        try_catch
          (data ← in_slot id (_tryFetchDependencyAsync name version);
           settle_slot id data;;
           mret data)
          (fun e =>
             found ← await_call
                       (_checkS3ForDepencencyAsync name (or_else version "latest"));
             if found : bool then
               let data := {| pending := false; d_name := name;
                              d_version := or_else version (npmVersionPins_default W);
                              d_dependencies := None;
                              d_error := Some (Error_toString e) |} in
               settle_slot id data;;
               mret data
             else
               let data := {| pending := false; d_name := name;
                              d_version := npmVersionPins_error W;
                              d_dependencies := None; d_error := None |} in
               settle_slot id data;;
               s ← get;
               (if dependencyErrorListener (this s) then
                  sync (emit (EvDependencyError
                          ("Error fetching " +:+ name +:+ "@" +:+
                           or_else version "latest" +:+ ": " +:+ Error_toString e)))
                else mret tt);;
               mret data)
  end.

(** *** The dependency engine *)

(** [_findDependenciesOnceAsync] (line 888) *)
Definition _findDependenciesOnceAsync (file : Contents) : AM (option string) :=
  sync (supportsFeature W ARBITRARY_IMPORTS) ≫= fun ai : bool =>
  if negb ai then mret None
  else
    match findModuleDependencies W file with
    | Failure e => mret None
    | Answer scanned =>
        let modules := pick_modules scanned in
        s ← get;
        let changedModules :=
          List.filter (is_changed (dependencies (this s)) modules) (keys modules) in
        if bool_decide (keys modules = []) || bool_decide (changedModules = [])
        then mret None
        else
          sync _sendStateEvent;;
          sync (modify (set_loadingMessage (Some "Installing dependencies")));;
          sync _sendLoadingEvent;;
          try_finally
            (try_catch
               (results ← all (fun name =>
                    _maybeFetchDependencyAsync name (default None (modules !! name)))
                  (keys modules);
                let peerDependencies := collect_peers results in
                sync (modify (fun s =>
                        set_dependencies (peerDependencies ∪ dependencies s) s));;
                sync _sendStateEvent;;
                peers ← all (fun name =>
                    _maybeFetchDependencyAsync name (peerDependencies !! name))
                  (keys peerDependencies);
                let dependencies' := assign_versions results (assign_versions peers ∅) in
                code ← (match peers with
                        | [] => mret file
                        | _ => code ← sync (lift (insertImports W file (d_name <$> peers)));
                               mret (Str code)
                        end);
                code ← sync (lift (writeModuleVersions W code dependencies'));
                sync (modify (fun s =>
                        set_dependencies (dependencies' ∪ dependencies s) s));;
                sync _sendStateEvent;;
                mret (Some code))
               (fun e => mret None))
            (sync _sendStateEvent)
    end.

(** [_handleFindDependenciesAsync] (line 850) *)
Definition _handleFindDependenciesAsync : AM unit :=
  sync (supportsFeature W ARBITRARY_IMPORTS) ≫= fun ai : bool =>
  if negb ai then mret tt
  else
    s ← get;
    if isResolving (this s) then mret tt
    else
      sync (modify (set_isResolving true));;
      try_finally
        (try_catch
           (all (fun key =>
              if endsWith key ".js" then
                s1 ← get;
                match file_at (this s1) key with
                | None => throw TypeError
                | Some file =>
                    let codeAtStartOfFindDependencies := contents file in
                    codeWithVersions ←
                      await_call (_findDependenciesOnceAsync (contents file));
                    s2 ← get;
                    match file_at (this s2) key with
                    | None => throw TypeError
                    | Some file' =>
                        if bool_decide (contents file' = codeAtStartOfFindDependencies)
                        then
                          if truthy codeWithVersions then
                            sync (modify (write_contents key
                                            (Str (default "" codeWithVersions))));;
                            sync _sendStateEvent
                          else mret tt
                        else mret tt
                    end
                end
              else mret tt) (keys (files (this s)));;
            mret tt)
           (fun e => sync (emit (EvConsoleError e))))
        (sync (modify (set_loadingMessage None);;
               modify (set_isResolving false);;
               _sendStateEvent)).

(** *** Snapshot and spill *)

(** The callback of [_uploadHelper] (line 551) for one key; its pushes onto
    [fileSize] are returned, and gathered in the order of the keys.  The
    assignment after the [await] goes to the object that [this.s3url] named
    before it; no step of the machine replaces that object. *)
Definition _uploadHelper_key (key : string) : AM (list FileSize) :=
  s ← get;
  match file_at (this s) key with
  | None => mret []
  | Some file =>
      match contents file with
      | Blob _ =>
          sync (modify (fun s => set_s3code (<[key := contents file]> (s3code s)) s));;
          sync (modify (fun s => set_diff (<[key := ""]> (diff s)) s));;
          s ← get;
          let r := uploadAssetToS3 W (net (this s)) (contents file) expoApiUrl in
          sync (record (IoUploadAsset (contents file) r));;
          await Network;;                 (* await sendFileUtils.uploadAssetToS3 *)
          url ← sync (lift r);
          sync (modify (fun s => set_s3url (<[key := url]> (s3url s)) s))
      | Str code =>
          if startsWith code S3_BUCKET_URL then
            sync (modify (fun s => set_diff (<[key := ""]> (diff s)) s));;
            sync (modify (fun s => set_s3code (<[key := contents file]> (s3code s)) s));;
            sync (modify (fun s => set_s3url (<[key := code]> (s3url s)) s))
          else if truthy (s3url (this s) !! key) then
            sync (modify (fun s =>
              set_diff (<[key := getFileDiff W (s3code s !! key) code]> (diff s)) s))
          else
            sync (modify (fun s =>
              set_diff (<[key := getFileDiff W (Some (Str "")) code]> (diff s)) s))
      end;;
      s' ← get;
      mret [ {| fs_name := key;
                fs_size := Z.of_nat (String.length
                                       (default "" (diff (this s') !! key))) |} ]
  end.

Definition _uploadHelper : AM (list FileSize) :=
  s ← get;
  pushes ← all _uploadHelper_key (keys (files (this s)));
  mret (concat pushes).

(** The [while] loop of [_handleUploadCodeAsync] *)
Fixpoint spill (stack : list FileSize) (size : Z) : AM unit :=
  if bool_decide (size > MAX_PUBNUB_SIZE) then
    match stack with
    | [] => mret tt
    | top :: stack' =>
        let key := fs_name top in
        s ← get;
        match file_at (this s) key with
        | None => throw TypeError
        | Some file =>
            sync (modify (fun s => set_s3code (<[key := contents file]> (s3code s)) s));;
            sync (modify (fun s => set_diff (<[key := ""]> (diff s)) s));;
            s ← get;
            let r := uploadCodeToS3 W (net (this s)) (contents file) expoApiUrl in
            sync (record (IoUploadCode (contents file) r));;
            await Network;;               (* await sendFileUtils.uploadCodeToS3 *)
            url ← sync (lift r);
            sync (modify (fun s => set_s3url (<[key := url]> (s3url s)) s));;
            s' ← get;
            spill stack' (payload_size W (this s'))
        end
    end
  else mret tt.

(** [_handleUploadCodeAsync] (line 521) *)
Definition _handleUploadCodeAsync : AM unit :=
  fileSize ← await_call _uploadHelper;
  s ← get;
  let size := payload_size W (this s) in
  if bool_decide (size > MAX_PUBNUB_SIZE) then
    spill (reverse (sort_by_size fileSize)) size
  else mret tt.

(** *** Publication *)

(** [_publishNotDebouncedAsync] (line 634) *)
Definition _publishNotDebouncedAsync : AM unit :=
  s ← get;
  if truthy (loadingMessage (this s)) then sync _sendLoadingEvent
  else
    sync (supportsFeature W ARBITRARY_IMPORTS) ≫= fun ai : bool =>
    (if ai then await_call _handleFindDependenciesAsync else mret tt);;
    s ← get;
    if isResolving (this s) then mret tt
    else
      metadata ← sync (_getAnalyticsMetadata W);
      sync (supportsFeature W MULTIPLE_FILES) ≫= fun mf : bool =>
      message ← (if mf then
                   await_call _handleUploadCodeAsync;;
                   s ← get;
                   mret (MsgCode (diff (this s)) (s3url (this s)) metadata)
                 else
                   s ← get;
                   match file_at (this s) "app.js" with
                   | Some file => mret (MsgLegacyCode (contents file) metadata)
                   | None => throw TypeError
                   end);
      sync (publish message).

End Methods.

(** ** Running the calls in progress *)

(** A call whose result nobody waits for. *)
Fixpoint forget {A} (t : Async A) : Async unit :=
  match t with
  | Settled r =>
      Settled (match r with
               | Ok _ => Ok tt
               | Throw e => Throw e
               | OutOfFuel => OutOfFuel
               end)
  | Await on resume =>
      Await on (fun s => let '(t', s') := resume s in (forget t', s'))
  | AwaitSlot id resume =>
      AwaitSlot id (fun d s => let '(t', s') := resume d s in (forget t', s'))
  | AwaitAll children resume =>
      AwaitAll children (fun r s => let '(t', s') := resume r s in (forget t', s'))
  end.

(** How [Promise.all] stands: rejected with the error of a child, resolved
    with the values of all of them, or still waiting. *)
Fixpoint gathered {B} (children : list (Async B)) : option (Result (list B)) :=
  match children with
  | [] => Some (Ok [])
  | c :: children' =>
      match settled c, gathered children' with
      | Some (Throw e), _ => Some (Throw e)
      | Some OutOfFuel, _ => Some OutOfFuel
      | _, Some (Throw e) => Some (Throw e)
      | _, Some OutOfFuel => Some OutOfFuel
      | Some (Ok b), Some (Ok bs) => Some (Ok (b :: bs))
      | _, _ => None
      end
  end.

(** The children that have not settled. *)
Definition unsettled {B} (children : list (Async B)) : list (Async B) :=
  List.filter (fun c => negb (bool_decide (is_Some (settled c)))) children.

(** One continuation of the call [t] runs.  An [await] on the outside
    world resumes with its answer; an [await] on a slot resumes once the
    slot holds a record; a [Promise.all] that has all its values, or a
    rejected child, resumes, and the children that are still running are
    left to themselves; otherwise [path] names the child that advances, and
    the way down inside it.  The result is the call, the state, and the
    calls left to themselves. *)
Fixpoint advance {A} (path : list nat) (t : Async A) (s : State)
    : Async A * State * list (Async unit) :=
  match t in Async A0 return Async A0 * State * list (Async unit) with
  | Settled r => (Settled r, s, [])
  | Await on resume => (resume s, [])
  | AwaitSlot id resume =>
      match _promises (this s) !! id with
      | Some data => (resume data s, [])
      | None => (AwaitSlot id resume, s, [])
      end
  | AwaitAll children resume =>
      match gathered children with
      | Some r => (resume r s, List.map forget (unsettled children))
      | None =>
          let '(children', s', orphans) :=
            (fix go (i : nat) (cs : list (Async _)) {struct cs}
               : list (Async _) * State * list (Async unit) :=
               match cs with
               | [] => ([], s, [])
               | c :: cs' =>
                   if Nat.eqb i (hd 0%nat path) then
                     let '(c', s', orphans) := advance (tl path) c s in
                     (c' :: cs', s', orphans)
                   else
                     let '(cs'', s', orphans) := go (S i) cs' in
                     (c :: cs'', s', orphans)
               end) 0%nat children in
          (AwaitAll children' resume, s', orphans)
      end
  end.

(** Whether a continuation of [t] can run without anything from outside. *)
Fixpoint ready {A} (t : Async A) (s : State) : bool :=
  match t with
  | Settled _ => false
  | Await Microtask _ => true
  | Await _ _ => false
  | AwaitSlot id _ => bool_decide (is_Some (_promises (this s) !! id))
  | AwaitAll children _ =>
      bool_decide (is_Some (gathered children))
      || (fix any (cs : list (Async _)) : bool :=
            match cs with
            | [] => false
            | c :: cs' => ready c s || any cs'
            end) children
  end.

(** The session with its calls in progress. *)
Record Machine : Type := mkMachine {
  state : State;
  tasks : list (Async unit);
}.

(** A call that is not awaited: its body runs up to its first [await] and
    the rest joins the calls in progress. *)
Definition spawn {A} (m : AM A) (mc : Machine) : Machine :=
  let '(t, s) := m (state mc) in
  {| state := s; tasks := tasks mc ++ [forget t] |}.

(** A synchronous stretch of code, run on the session of the machine. *)
Definition run_sync {A} (m : M A) (mc : Machine) : Machine :=
  {| state := set_this (m (this (state mc))).2 (state mc); tasks := tasks mc |}.

(** [ts] with [t] in place of its element number [i]. *)
Fixpoint put {A} (i : nat) (t : A) (ts : list A) : list A :=
  match ts, i with
  | [], _ => []
  | _ :: ts', O => t :: ts'
  | t0 :: ts', S i' => t0 :: put i' t ts'
  end.

(** A continuation of the call number [i] runs. *)
Definition resume (i : nat) (path : list nat) (mc : Machine) : Machine :=
  match nth_error (tasks mc) i with
  | Some t =>
      let '(t', s, orphans) := advance path t (state mc) in
      {| state := s; tasks := put i t' (tasks mc) ++ orphans |}
  | None => mc
  end.

(** Nothing can run before the outside world acts again. *)
Definition quiescent (mc : Machine) : bool :=
  forallb (fun t => negb (ready t (state mc))) (tasks mc).

Section Machine.
Context (W : World).

(** [new SnackSession (options)] (line 112) over the heap [h] that holds the
    file objects of [options.files].  The call of
    [_handleFindDependenciesAsync] is not awaited: it runs up to its first
    [await] while [this.pubnub] is still undefined, and the rest of it is in
    progress when the constructor returns. *)
Definition constructor (options : Options) (h : gmap loc File) : Result Machine :=
  let version := or_else (o_sdkVersion options) (defaultSDKVersion W) in
  let id := or_else (o_sessionId options) (shortid_generate W) in
  let deps := default ∅ (o_dependencies options) in
  let this :=
    {| files := o_files options;
       heap := h;
       s3code := ∅;
       diff := ∅;
       s3url := ∅;
       sdkVersion := version;
       pubnub := false;
       channel := id;
       name := o_name options;
       description := o_description options;
       dependencies := deps;
       initialState :=
         {| i_files := omap (fun l => h !! l) (o_files options);
            i_name := o_name options;
            i_description := o_description options;
            i_dependencies := deps;
            i_sdkVersion := version |};
       isResolving := false;
       loadingMessage := None;
       _promises := ∅;
       dependencyErrorListener := false;
       authorizationToken := o_authorizationToken options;
       events := [];
       net := [] |} in
  if bool_decide (Z.of_nat (String.length id) < MIN_CHANNEL_LENGTH) then
    Throw "Please use a channel id with more entropy"
  else
    let mc := {| state := mkState this ∅; tasks := [] |} in
    let mc :=
      if sdkSupportsFeature W version ARBITRARY_IMPORTS
      then spawn (_handleFindDependenciesAsync W) mc
      else mc in
    Ok (run_sync (modify (set_pubnub true)) mc).

(** [setSdkVersion] (line 295) *)
Definition setSdkVersion (sdkVersion' : SDKVersion) (mc : Machine) : Machine :=
  if negb (bool_decide (sdkVersion (this (state mc)) = sdkVersion')) then
    spawn (_handleFindDependenciesAsync W)
      (run_sync (modify (set_sdkVersion sdkVersion');; _sendStateEvent) mc)
  else mc.

(** What happens to the machine, one thing at a time: the debounce timer,
    a [join] or a [RESEND_CODE] calls [_publishNotDebouncedAsync]; the
    caller sets the SDK version; an answer arrives, a timer fires or a
    microtask runs, and a continuation of a call in progress with it. *)
Inductive Step : Type :=
| Fire_publishNotDebouncedAsync
| Call_setSdkVersion (sdkVersion : SDKVersion)
| Resume (i : nat) (path : list nat).

Definition step (mc : Machine) (x : Step) : Machine :=
  match x with
  | Fire_publishNotDebouncedAsync => spawn (_publishNotDebouncedAsync W) mc
  | Call_setSdkVersion sdkVersion' => setSdkVersion sdkVersion' mc
  | Resume i path => resume i path mc
  end.

Definition run (steps : list Step) (mc : Machine) : Machine := foldl step mc steps.

End Machine.

End Async.


(** The session that [new SnackSession (options)] returns. *)
Definition constructor (W : World) (options : Options) (h : gmap loc File)
    : Result Session :=
  match Async.constructor W options h with
  | Ok mc => Ok (Async.this (Async.state mc))
  | Throw e => Throw e
  | OutOfFuel => OutOfFuel
  end.

(** ** Listener arrays

    [errorListeners], [logListeners], [presenceListeners] and
    [stateListeners] are four arrays handled by the same three lines of code;
    one model serves all of them.  A listener is a function object, named
    here by a string; adding the same function twice stores it twice. *)
Abbreviation Listener := string (only parsing).

(** [this.xListeners.push (listener)] *)
Definition addListener (listener : Listener) (listeners : list Listener)
    : list Listener :=
  listeners ++ [listener].

(** [pull (this.xListeners, listener)]: lodash removes every occurrence, in
    place. *)
Definition pull (listeners : list Listener) (listener : Listener) : list Listener :=
  List.filter (fun l => negb (String.eqb l listener)) listeners.

(** What a callback does to the array while it runs: [removes l] lists the
    listeners whose subscription handle [l] calls [remove] on. *)
Definition run_listener (removes : Listener -> list Listener)
    (listener : Listener) (listeners : list Listener) : list Listener :=
  foldl pull listeners (removes listener).

(** [Array.prototype.forEach]: the length is read once, then the indices
    [0 .. len-1] are visited in order, each one read from the array as it is
    at that moment and skipped when it is no longer there.  [n] counts the
    indices left, [k] is the current one; the result is the array after the
    dispatch and the listeners called, oldest call first. *)
Fixpoint forEach_from (removes : Listener -> list Listener) (n k : nat)
    (listeners called : list Listener) : list Listener * list Listener :=
  match n with
  | O => (listeners, called)
  | S n' =>
      match listeners !! k with
      | Some listener =>
          forEach_from removes n' (S k)
            (run_listener removes listener listeners) (called ++ [listener])
      | None => forEach_from removes n' (S k) listeners called
      end
  end.

(** [this.xListeners.forEach (listener => listener (event))] *)
Definition forEach (removes : Listener -> list Listener) (listeners : list Listener)
    : list Listener * list Listener :=
  forEach_from removes (length listeners) 0%nat listeners [].

(** The dispatch the specification asks for, to compare [forEach] with:
    every listener still subscribed when its turn comes is called, in
    registration order.  [n] bounds the number of turns. *)
Fixpoint dispatch_in_order (removes : Listener -> list Listener) (n : nat)
    (listeners : list Listener) : list Listener :=
  match n, listeners with
  | S n', listener :: rest =>
      listener :: dispatch_in_order removes n' (run_listener removes listener rest)
  | _, _ => []
  end.

(** ** The import scanner *)

(** Modelled from the spec: [findModuleDependencies] of
    [./utils/findAndWriteDependencyVersions], of which the sources hold only
    the test file.  The scanner reads the program that the parser (babylon, a
    third party) produced; the model starts from that program, reduced to
    what section 4.3 of the specification distinguishes: the statement forms
    it recognizes, the argument forms of [require] it rejects, and the
    trailing line comment of a statement. *)
Inductive Argument : Type :=
| ArgString (value : string)
| ArgTemplate (quasis : list string) (expressions : nat)
| ArgNumber (n : Z)
| ArgIdentifier (x : string)
| ArgNull.

Inductive Statement : Type :=
| ImportDeclaration (source : string) (trailing : option string)
| ExportFrom (source : string) (trailing : option string)
| RequireCall (arguments : list Argument) (trailing : option string)
| OtherStatement.

(** Modelled from the spec: the shape of [<semver>] in "an inline trailing
    comment of the form [// <semver>]": [major.minor.patch], with an optional
    [-prerelease] or [+build] tail. *)
Definition is_digit (c : ascii) : bool :=
  let n := N_of_ascii c in ((48 <=? n) && (n <=? 57))%N.

Fixpoint all_digits (s : string) : bool :=
  match s with
  | EmptyString => true
  | String c s' => is_digit c && all_digits s'
  end.

(** The characters of [s] before the first [c], and what follows it. *)
Fixpoint split_at (c : ascii) (s : string) : string * option string :=
  match s with
  | EmptyString => (EmptyString, None)
  | String a s' =>
      if Ascii.eqb a c then (EmptyString, Some s')
      else let '(before, after) := split_at c s' in (String a before, after)
  end.

Definition number_part (s : string) : bool :=
  negb (String.eqb s "") && all_digits s.

Definition is_semver (s : string) : bool :=
  let core := (split_at "+" (split_at "-" s).1).1 in
  match split_at "." core with
  | (major, Some rest) =>
      match split_at "." rest with
      | (minor, Some patch) =>
          number_part major && number_part minor && number_part patch
      | _ => false
      end
  | _ => false
  end.

Fixpoint trim_left (s : string) : string :=
  match s with
  | String " " s' => trim_left s'
  | _ => s
  end.

Definition trim (s : string) : string :=
  String.rev (trim_left (String.rev (trim_left s))).

(** Modelled from the spec: the version of a statement, "extracted from an
    inline trailing comment of the form [// <semver>]", [null] otherwise. *)
Definition version_of (trailing : option string) : option string :=
  match trailing with
  | Some text => if is_semver (trim text) then Some (trim text) else None
  | None => None
  end.

Fixpoint has_newline (s : string) : bool :=
  match s with
  | EmptyString => false
  | String c s' => Ascii.eqb c "010" || has_newline s'
  end.

(** Modelled from the spec: a [require] names a module when "the argument
    is a single-string literal with no template interpolation". *)
Definition literal_argument (arguments : list Argument) : option string :=
  match arguments with
  | [ArgString value] => Some value
  | [ArgTemplate [quasi] O] => Some quasi
  | _ => None
  end.

(** Modelled from the spec: the specifiers that are not rejected, that is
    neither "relative specifiers beginning with [./] or [../]", nor "absolute
    paths beginning with [/]", nor "specifiers containing a newline". *)
Definition acceptable (specifier : string) : bool :=
  negb (startsWith specifier "/") && negb (startsWith specifier "./")
  && negb (startsWith specifier "../") && negb (has_newline specifier).

(** Modelled from the spec: the recognized forms, each with the module it
    names and its version. *)
Definition recognize (st : Statement) : option (string * option string) :=
  match st with
  | ImportDeclaration source trailing | ExportFrom source trailing =>
      if acceptable source then Some (source, version_of trailing) else None
  | RequireCall arguments trailing =>
      match literal_argument arguments with
      | Some specifier =>
          if acceptable specifier then Some (specifier, version_of trailing) else None
      | None => None
      end
  | OtherStatement => None
  end.

(** Modelled from the spec: the output of the scanner, a "mapping from
    module specifier to [version | null]"; of two statements that name the
    same module the later one decides. *)
Definition scan_step (found : gmap string (option string)) (st : Statement)
    : gmap string (option string) :=
  match recognize st with
  | Some (specifier, version) => <[specifier := version]> found
  | None => found
  end.

Definition scan_modules (program : list Statement) : gmap string (option string) :=
  foldl scan_step ∅ program.

(** The argument lists of [require] that the specification rejects: none,
    several, a number, an identifier, an interpolated template, and a
    literal that is an absolute path or holds a newline. *)
Definition rejected_arguments (arguments : list Argument) : Prop :=
  match arguments with
  | [] => True
  | [ArgString value] | [ArgTemplate [value] O] =>
      startsWith value "/" = true \/ has_newline value = true
  | [ArgTemplate _ (S _)] => True
  | [ArgNumber _] | [ArgIdentifier _] => True
  | _ :: _ :: _ => True
  | _ => False
  end.

(** * The rest of the class

    The setters of the public interface, [downloadAsync] and
    [uploadAssetAsync] work on the session alone.  The methods that reach
    the transport, the console and the listener arrays work on a [Client]:
    the session together with the fields it was modelled without. *)

(** ** More public operations *)

Section Operations.
Context (W : World).

(** A call of an [async] method that is not awaited: it is left to run to
    its end before anything else happens to the session, and a rejection of
    its promise is lost. *)
Definition not_awaited {A} (m : M A) : M unit :=
  fun s =>
    match m s with
    | (OutOfFuel, s') => (OutOfFuel, s')
    | (_, s') => (Ok tt, s')
    end.

(** [uploadAssetAsync] (line 252) *)
Definition uploadAssetAsync (content : Contents) : M string :=
  call_uploadAssetToS3 W content.

(** [downloadAsync] (line 287): the result is the [url] of the object
    returned. *)
Definition downloadAsync : M string :=
  let url := expoApiUrl +:+ "/--/api/v2/snack/download" in
  save ← saveAsync W;
  let id := save.1 in
  ret (url +:+ "/" +:+ id).

(** [setSdkVersion] (line 295) *)
Definition setSdkVersion (sdkVersion' : SDKVersion) : M unit :=
  s ← get;
  if negb (bool_decide (sdkVersion s = sdkVersion')) then
    modify (set_sdkVersion sdkVersion');;
    _sendStateEvent;;
    not_awaited (_handleFindDependenciesAsync W)
  else ret tt.

(** [setName] (line 304) *)
Definition setName (name' : string) : M unit :=
  s ← get;
  if negb (bool_decide (name s = Some name')) then
    modify (set_name (Some name'));;
    _sendStateEvent
  else ret tt.

(** [setDescription] (line 312) *)
Definition setDescription (description' : string) : M unit :=
  s ← get;
  if negb (bool_decide (description s = Some description')) then
    modify (set_description (Some description'));;
    _sendStateEvent
  else ret tt.

(** [setAuthorizationToken] (line 320) *)
Definition setAuthorizationToken (token : option string) : M unit :=
  modify (set_authorizationToken token).

(** [getChannel] (line 462) *)
Definition getChannel (s : Session) : string := channel s.

End Operations.

(** ** Values that come from the devices *)

(** A value as [JSON.parse] builds it and as the transport delivers it.
    Numbers are the integers, which is all a line or a column can be. *)
#[warnings="-register-all"]
Inductive Json : Type :=
| JNull
| JBool (b : bool)
| JNumber (n : Z)
| JString (s : string)
| JArray (items : list Json)
| JObject (fields : gmap string Json).

(** Truthiness of a value that may be [undefined]. *)
Definition js_truthy (o : option Json) : bool :=
  match o with
  | None | Some JNull => false
  | Some (JBool b) => b
  | Some (JNumber n) => negb (n =? 0)
  | Some (JString s) => negb (String.eqb s "")
  | Some (JArray _) | Some (JObject _) => true
  end.

(** [o.key] for the properties that the class reads ([type], [payload],
    [device], [method], [error], [message], [stack], [line], [column],
    [loc]): an object has the ones it was built with, a string, a number, a
    boolean or an array has none of them, and reading a property of [null]
    raises. *)
Definition prop (o : Json) (key : string) : Reply (option Json) :=
  match o with
  | JNull => Failure TypeError
  | JObject fields => Answer (fields !! key)
  | _ => Answer None
  end.

(** The same for a value known not to be [null]. *)
Definition field (o : Json) (key : string) : option Json :=
  match o with
  | JObject fields => fields !! key
  | _ => None
  end.

(** The built-in functions that the handlers call. *)
Record Builtins : Type := mkBuiltins {
  JSON_parse : Json -> Reply Json;
  Array_join : list Json -> string -> string;
}.

(** ** The client *)

(** [this.pubnub.subscribe] and [this.pubnub.unsubscribe], as called. *)
Inductive PubnubCall : Type :=
| PnSubscribe (channels : list string) (withPresence : bool)
| PnUnsubscribe (channels : list string).

Inductive ConsoleLine : Type :=
| ConsoleLog (text : string)
| ConsoleErr (text : string).

(** [ExpoError] and [ExpoDeviceLog], as the handlers build them. *)
Record ExpoError : Type := mkExpoError {
  e_message : Json;
  e_device : option Json;
  e_stack : option Json;
  startLine : option Json;
  endLine : option Json;
  startColumn : option Json;
  endColumn : option Json;
}.

Record ExpoDeviceLog : Type := mkExpoDeviceLog {
  l_device : option Json;
  l_method : option Json;
  l_message : string;
  l_arguments : list Json;
}.

(** A call of a listener, with the event it was handed. *)
Inductive Delivery : Type :=
| ToErrorListener (listener : Listener) (errors : list ExpoError)
| ToLogListener (listener : Listener) (log : ExpoDeviceLog)
| ToPresenceListener (listener : Listener) (device : Json) (status : string).

(** The session with its remaining fields, the calls it made to the
    transport, the lines it wrote to the console and the calls it made to
    its error, log and presence listeners, newest first.  State listeners
    are told what [events] holds as [EvState]. *)
Record Client : Type := mkClient {
  session : Session;
  isVerbose : bool;
  isStarted : bool;
  host : string;
  snackId : option string;
  errorListeners : list Listener;
  logListeners : list Listener;
  presenceListeners : list Listener;
  stateListeners : list Listener;
  transport : list PubnubCall;
  console : list ConsoleLine;
  delivered : list Delivery;
}.

Definition set_session (v : Session) (c : Client) : Client :=
  mkClient v (isVerbose c) (isStarted c) (host c) (snackId c) (errorListeners c)
    (logListeners c) (presenceListeners c) (stateListeners c) (transport c)
    (console c) (delivered c).
Definition set_isStarted (v : bool) (c : Client) : Client :=
  mkClient (session c) (isVerbose c) v (host c) (snackId c) (errorListeners c)
    (logListeners c) (presenceListeners c) (stateListeners c) (transport c)
    (console c) (delivered c).
Definition set_errorListeners (v : list Listener) (c : Client) : Client :=
  mkClient (session c) (isVerbose c) (isStarted c) (host c) (snackId c) v
    (logListeners c) (presenceListeners c) (stateListeners c) (transport c)
    (console c) (delivered c).
Definition set_logListeners (v : list Listener) (c : Client) : Client :=
  mkClient (session c) (isVerbose c) (isStarted c) (host c) (snackId c)
    (errorListeners c) v (presenceListeners c) (stateListeners c) (transport c)
    (console c) (delivered c).
Definition set_presenceListeners (v : list Listener) (c : Client) : Client :=
  mkClient (session c) (isVerbose c) (isStarted c) (host c) (snackId c)
    (errorListeners c) (logListeners c) v (stateListeners c) (transport c)
    (console c) (delivered c).
Definition set_stateListeners (v : list Listener) (c : Client) : Client :=
  mkClient (session c) (isVerbose c) (isStarted c) (host c) (snackId c)
    (errorListeners c) (logListeners c) (presenceListeners c) v (transport c)
    (console c) (delivered c).
Definition set_transport (v : list PubnubCall) (c : Client) : Client :=
  mkClient (session c) (isVerbose c) (isStarted c) (host c) (snackId c)
    (errorListeners c) (logListeners c) (presenceListeners c) (stateListeners c)
    v (console c) (delivered c).
Definition set_console (v : list ConsoleLine) (c : Client) : Client :=
  mkClient (session c) (isVerbose c) (isStarted c) (host c) (snackId c)
    (errorListeners c) (logListeners c) (presenceListeners c) (stateListeners c)
    (transport c) v (delivered c).
Definition set_delivered (v : list Delivery) (c : Client) : Client :=
  mkClient (session c) (isVerbose c) (isStarted c) (host c) (snackId c)
    (errorListeners c) (logListeners c) (presenceListeners c) (stateListeners c)
    (transport c) (console c) v.

(** The options that the constructor reads besides those of [Options]. *)
Record ClientOptions : Type := mkClientOptions {
  o_session : Options;
  o_verbose : bool;
  o_host : option string;
  o_snackId : option string;
}.

(** [new SnackSession (options)] (line 112), with the fields left out of
    [constructor]; the four arrays start empty (line 94). *)
Definition new_SnackSession (W : World) (options : ClientOptions)
    (h : gmap loc File) : Result Client :=
  match constructor W (o_session options) h with
  | Ok this =>
      Ok {| session := this;
            isVerbose := o_verbose options;
            isStarted := false;
            host := or_else (o_host options) "snack.expo.io";
            snackId := o_snackId options;
            errorListeners := [];
            logListeners := [];
            presenceListeners := [];
            stateListeners := [];
            transport := [];
            console := [];
            delivered := [] |}
  | Throw e => Throw e
  | OutOfFuel => OutOfFuel
  end.

(** A method of the session, run on the session of the client. *)
Definition on_session {A} (m : M A) (c : Client) : Result A * Client :=
  let '(r, s) := m (session c) in (r, set_session s c).

(** *** Subscriptions *)

(** The four arrays and the handle that an [add...Listener] returns: its
    [remove] pulls the listener from the array it was pushed on. *)
Inductive ListenerKind : Type :=
| OfErrors | OfLogs | OfPresence | OfState.

Record ExpoSubscription : Type := mkExpoSubscription {
  sub_kind : ListenerKind;
  sub_listener : Listener;
}.

(** [addErrorListener] (line 330), [addLogListener] (line 345),
    [addPresenceListener] (line 360) and [addStateListener] (line 369) *)
Definition addErrorListener (listener : Listener) (c : Client)
    : ExpoSubscription * Client :=
  (mkExpoSubscription OfErrors listener,
   set_errorListeners (addListener listener (errorListeners c)) c).

Definition addLogListener (listener : Listener) (c : Client)
    : ExpoSubscription * Client :=
  (mkExpoSubscription OfLogs listener,
   set_logListeners (addListener listener (logListeners c)) c).

Definition addPresenceListener (listener : Listener) (c : Client)
    : ExpoSubscription * Client :=
  (mkExpoSubscription OfPresence listener,
   set_presenceListeners (addListener listener (presenceListeners c)) c).

Definition addStateListener (listener : Listener) (c : Client)
    : ExpoSubscription * Client :=
  (mkExpoSubscription OfState listener,
   set_stateListeners (addListener listener (stateListeners c)) c).

(** [subscription.remove ()] *)
Definition remove (subscription : ExpoSubscription) (c : Client) : Client :=
  let listener := sub_listener subscription in
  match sub_kind subscription with
  | OfErrors => set_errorListeners (pull (errorListeners c) listener) c
  | OfLogs => set_logListeners (pull (logListeners c) listener) c
  | OfPresence => set_presenceListeners (pull (presenceListeners c) listener) c
  | OfState => set_stateListeners (pull (stateListeners c) listener) c
  end.

Section Handlers.
Context (W : World) (B : Builtins).

(** What the callbacks do to the arrays while they run, as for [forEach]:
    [removes l] lists the listeners of its own array whose subscription [l]
    removes. *)
Context (removes : Listener -> list Listener).

(** [_error] (line 745) and [_log] (line 751) *)
Definition _error (text : string) (c : Client) : Client :=
  if isVerbose c then set_console (ConsoleErr text :: console c) c else c.

Definition _log (text : string) (c : Client) : Client :=
  if isVerbose c then set_console (ConsoleLog text :: console c) c else c.

(** [_subscribe] (line 505) and [_unsubscribe] (line 512) *)
Definition _subscribe (c : Client) : Result unit * Client :=
  if pubnub (session c) then
    (Ok tt,
     set_transport (PnSubscribe [channel (session c)] true :: transport c) c)
  else (Throw TypeError, c).

Definition _unsubscribe (c : Client) : Result unit * Client :=
  if pubnub (session c) then
    (Ok tt, set_transport (PnUnsubscribe [channel (session c)] :: transport c) c)
  else (Throw TypeError, c).

(** [startAsync] (line 214) *)
Definition startAsync (c : Client) : Result unit * Client :=
  _subscribe (set_isStarted true c).

(** [stopAsync] (line 224) *)
Definition stopAsync (c : Client) : Result unit * Client :=
  _unsubscribe (set_session (set_s3url ∅ (session c)) c).

(** [_sendErrorEvent] (line 472), [_sendLogEvent] (line 476) and
    [_sendPresenceEvent] (line 480) *)
Definition _sendErrorEvent (errors : list ExpoError) (c : Client) : Client :=
  let '(listeners, called) := forEach removes (errorListeners c) in
  set_delivered
    (reverse ((fun listener => ToErrorListener listener errors) <$> called)
       ++ delivered c)
    (set_errorListeners listeners c).

Definition _sendLogEvent (log : ExpoDeviceLog) (c : Client) : Client :=
  let '(listeners, called) := forEach removes (logListeners c) in
  set_delivered
    (reverse ((fun listener => ToLogListener listener log) <$> called)
       ++ delivered c)
    (set_logListeners listeners c).

Definition _sendPresenceEvent (device : Json) (status : string) (c : Client)
    : Client :=
  let '(listeners, called) := forEach removes (presenceListeners c) in
  set_delivered
    (reverse ((fun listener => ToPresenceListener listener device status) <$> called)
       ++ delivered c)
    (set_presenceListeners listeners c).

(** [_handleLogMessage] (line 581): [payload.join] is there only when the
    payload is an array. *)
Definition _handleLogMessage (pubnubEvent : Json) (c : Client)
    : Result unit * Client :=
  let payload :=
    if js_truthy (field pubnubEvent "payload")
    then default JNull (field pubnubEvent "payload") else JArray [] in
  match payload with
  | JArray items =>
      let message :=
        {| l_device := field pubnubEvent "device";
           l_method := field pubnubEvent "method";
           l_message := Array_join B items " ";
           l_arguments := items |} in
      (Ok tt, _sendLogEvent message c)
  | _ => (Throw TypeError, c)
  end.

(** The [errorObject] that [_handleErrorMessage] builds from the parsed
    error (lines 596 to 613). *)
Definition errorObject_of (device : option Json) (rawErrorObject : Json)
    : ExpoError :=
  let errorObject :=
    {| e_message :=
         if js_truthy (field rawErrorObject "message")
         then default JNull (field rawErrorObject "message")
         else JString "";
       e_device := device;
       e_stack := field rawErrorObject "stack";
       startLine := None; endLine := None;
       startColumn := None; endColumn := None |} in
  let errorObject :=
    if js_truthy (field rawErrorObject "line") then
      {| e_message := e_message errorObject;
         e_device := e_device errorObject;
         e_stack := e_stack errorObject;
         startLine := field rawErrorObject "line";
         endLine := field rawErrorObject "line";
         startColumn := startColumn errorObject;
         endColumn := endColumn errorObject |}
    else errorObject in
  let errorObject :=
    if js_truthy (field rawErrorObject "column") then
      {| e_message := e_message errorObject;
         e_device := e_device errorObject;
         e_stack := e_stack errorObject;
         startLine := startLine errorObject;
         endLine := endLine errorObject;
         startColumn := field rawErrorObject "column";
         endColumn := field rawErrorObject "column" |}
    else errorObject in
  if js_truthy (field rawErrorObject "loc") then
    let loc := default JNull (field rawErrorObject "loc") in
    {| e_message := e_message errorObject;
       e_device := e_device errorObject;
       e_stack := e_stack errorObject;
       startLine := field loc "line";
       endLine := field loc "line";
       startColumn := field loc "column";
       endColumn := field loc "column" |}
  else errorObject.

(** [_handleErrorMessage] (line 593): the first property read of the
    parsed error raises when the error is [null]. *)
Definition _handleErrorMessage (message : Json) (c : Client)
    : Result unit * Client :=
  let error := field message "error" in
  let device := field message "device" in
  if js_truthy error then
    match JSON_parse B (default JNull error) with
    | Failure e => (Throw e, c)
    | Answer JNull => (Throw TypeError, c)
    | Answer rawErrorObject =>
        (Ok tt, _sendErrorEvent [errorObject_of device rawErrorObject] c)
    end
  else (Ok tt, _sendErrorEvent [] c).

(** [_handleResendCodeMessage] (line 621) *)
Definition _handleResendCodeMessage (c : Client) : Result unit * Client :=
  on_session (not_awaited (_publishNotDebouncedAsync W)) c.

(** [_handleJoinMessage] (line 625) *)
Definition _handleJoinMessage (device : Json) (c : Client) : Result unit * Client :=
  match on_session (not_awaited (_publishNotDebouncedAsync W)) c with
  | (Ok _, c') => (Ok tt, _sendPresenceEvent device "join" c')
  | r => r
  end.

(** [_handleLeaveMessage] (line 630) *)
Definition _handleLeaveMessage (device : Json) (c : Client) : Result unit * Client :=
  (Ok tt, _sendPresenceEvent device "leave" c).

(** The [message] callback handed to [pubnub.addListener] (line 157) *)
Definition on_message (message : Json) (c : Client) : Result unit * Client :=
  match prop message "type" with
  | Failure e => (Throw e, c)
  | Answer (Some (JString type')) =>
      if String.eqb type' "CONSOLE" then _handleLogMessage message c
      else if String.eqb type' "ERROR" then _handleErrorMessage message c
      else if String.eqb type' "RESEND_CODE" then _handleResendCodeMessage c
      else (Ok tt, c)
  | Answer _ => (Ok tt, c)
  end.

(** The [presence] callback (line 169) *)
Definition on_presence (action uuid : string) (c : Client) : Result unit * Client :=
  match JSON_parse B (JString uuid) with
  | Failure e => (Ok tt, c)
  | Answer device =>
      if String.eqb action "join" then _handleJoinMessage device c
      else if String.eqb action "timeout" || String.eqb action "leave"
      then _handleLeaveMessage device c
      else (Ok tt, c)
  end.

(** The [status] callback (line 189) *)
Definition on_status (category : string) (c : Client) : Result unit * Client :=
  if String.eqb category "PNConnectedCategory" then (Ok tt, c)
  else if String.eqb category "PNNetworkDownCategory"
          || String.eqb category "PNNetworkIssuesCategory"
  then (Ok tt, _log "Lost network connection." c)
  else if String.eqb category "PNReconnectedCategory"
  then (Ok tt, _log "Reconnected to PubNub server." c)
  else if String.eqb category "PNNetworkUpCategory"
  then _subscribe (_log "Detected network connection. Subscribing to channel." c)
  else (Ok tt, c).

End Handlers.

(** * Specifications

    The vocabulary of the theorems: how to read a dispatch, the request log,
    the ledger, the heap and a run of the engine. *)

(** ** Reading a dispatch *)

(** Every removal a listener makes is of a listener registered after it. *)
Definition later_only (removes : string -> list string) (listeners : list string)
    : Prop :=
  forall (i j : nat) (l x : string),
    listeners !! i = Some l -> In x (removes l) -> listeners !! j = Some x ->
    (i < j)%nat.

(** The removals of the listeners still to be called never reach the part
    of the array that [forEach] has already walked over. *)
Definition ahead_only (removes : string -> list string) (walked rest : list string)
    : Prop :=
  forall r1 l r2 x, rest = r1 ++ l :: r2 -> In x (removes l) ->
    ~ In x walked /\ ~ In x r1 /\ x <> l.

(** ** Reading the request log *)

(** The log left by polls that were answered [pending], newest first: each
    poll is followed by the five seconds of sleep. *)
Fixpoint waits (url : string) (ds : list Data) : list IO :=
  match ds with
  | [] => []
  | d :: ds' => IoSleep 5000 :: IoBundle url (Answer d) :: waits url ds'
  end.

Definition is_poll (io : IO) : bool :=
  match io with
  | IoBundle _ _ => true
  | _ => false
  end.

(** Number of requests sent to the bundler in a piece of log. *)
Definition count_polls (log : list IO) : nat := length (List.filter is_poll log).

(** What a run of the loop leaves behind, from a point where [count] polls
    have been made and the last answer, if any, was [pending]. *)
Definition poll_outcome (W : World) (url : string) (count : Z) (s : Session)
    (run : Result Data * Session) : Prop :=
  exists ds : list Data,
    Forall (fun d => pending d = true) ds /\
    match run with
    | (Ok d, s') =>
        pending d = false /\ count + Z.of_nat (length ds) <= 30 /\
        bundler W (waits url ds ++ net s) url = Answer d /\
        s' = set_net (IoBundle url (Answer d) :: waits url ds ++ net s) s
    | (Throw e, s') =>
        (e = "Request timed out" /\ count + Z.of_nat (length ds) = 31 /\
         s' = set_net (waits url ds ++ net s) s) \/
        (count + Z.of_nat (length ds) <= 30 /\
         bundler W (waits url ds ++ net s) url = Failure e /\
         s' = set_net (IoBundle url (Failure e) :: waits url ds ++ net s) s)
    | (OutOfFuel, _) => False
    end.

(** ** Reading the ledger *)

(** Every upload to the object store succeeds. *)
Definition uploads_succeed (W : World) : Prop :=
  (forall hist c api, exists url, uploadAssetToS3 W hist c api = Answer url) /\
  (forall hist c api, exists url, uploadCodeToS3 W hist c api = Answer url).


(** Modelled from the spec: [sendFileUtils.calcPayloadSize], of which the
    sources hold only the calls.  Section 4.2 of the specification: the size
    "estimates the number of bytes the transport will charge for publishing
    [{channel, payload}], including envelope overhead".  The model counts the
    channel, the JSON text of [{diff, s3url}] (quotes, colon and comma around
    each key and value) and 100 bytes of envelope. *)
Definition json_size (m : gmap string string) : Z :=
  2 + map_fold (fun key value size =>
                  size + Z.of_nat (String.length key)
                       + Z.of_nat (String.length value) + 6) 0 m.

Definition calcPayloadSize_model (channel : string) (diff s3url : gmap string string)
    : Z :=
  Z.of_nat (String.length channel) + (json_size diff + json_size s3url + 19) + 100.

(** ** Reading the heap after [sendCodeAsync] *)

(** A picture that has not been uploaded yet. *)
Definition asset_blob (o : option File) : Prop :=
  exists b, o = Some (mkFile ASSET (Blob b)).

(** [h] is [h0] but for pictures whose blob was replaced by the URL that
    the object store returned for it. *)
Definition uploaded_from (W : World) (h0 h : gmap loc File) : Prop :=
  forall l,
    h !! l = h0 !! l \/
    exists b url hist,
      h0 !! l = Some (mkFile ASSET (Blob b)) /\
      h !! l = Some (mkFile ASSET (Str url)) /\
      uploadAssetToS3 W hist (Blob b) expoApiUrl = Answer url.

(** ** Reading a run of the dependency engine *)

(** The bundler never answers with a record named after a reserved module. *)
Definition bundler_clean (W : World) : Prop :=
  forall hist url d, bundler W hist url = Answer d -> includes reserved (d_name d) = false.

(** No record of the promise cache is named after a reserved module. *)
Definition cache_clean (s : Session) : Prop :=
  forall id d, _promises s !! id = Some d -> includes reserved (d_name d) = false.

(** What the engine may emit while it runs with [isResolving = resolving]:
    state events that show that value, loading messages, and error reports;
    never a [CODE] envelope. *)
Definition engine_event (resolving : bool) (e : Event) : Prop :=
  match e with
  | EvState v => v_isResolving v = resolving
  | EvPublish _ (MsgLoading _) => True
  | EvDependencyError _ | EvConsoleError _ => True
  | _ => False
  end.

(** [s'] is reachable from [s] by steps of the engine: what such steps leave
    alone, and what they may do to the events, the loading message and the
    dependencies. *)
Record engine_step (W : World) (s s' : Session) : Prop := mk_engine_step {
  step_files : files s' = files s;
  step_heap : dom (heap s') = dom (heap s);
  step_pubnub : pubnub s' = pubnub s;
  step_channel : channel s' = channel s;
  step_sdkVersion : sdkVersion s' = sdkVersion s;
  step_isResolving : isResolving s' = isResolving s;
  step_events :
    exists new, events s' = new ++ events s /\
                Forall (engine_event (isResolving s)) new;
  step_loading :
    loadingMessage s' = loadingMessage s \/
    loadingMessage s' = Some "Installing dependencies";
  step_dependencies : dom (dependencies s) ⊆ dom (dependencies s');
  step_reserved :
    bundler_clean W -> cache_clean s ->
    cache_clean s' /\
    forall k, includes reserved k = true -> dependencies s' !! k = dependencies s !! k;
}.

(** A run of [m] from [s] ends, keeps the invariant [I], returns a value
    that satisfies [Q], and throws only when [may_throw] allows it. *)
Definition run_ok {A} (I : Session -> Prop) (may_throw : bool) (Q : A -> Prop)
    (m : M A) (s : Session) : Prop :=
  match m s with
  | (Ok a, s') => I s' /\ Q a
  | (Throw _, s') => I s' /\ may_throw = true
  | (OutOfFuel, _) => False
  end.

(** The [finally] block of [_handleFindDependenciesAsync], applied to the
    state [s] in which the loop over the files ended. *)
Definition released (s : Session) : Session :=
  let s' := set_isResolving false (set_loadingMessage None s) in
  set_events (EvState (getState s') :: events s') s'.

(** [s'] is reachable from [s] by steps of the snapshot: only the ledger
    and the request log may differ. *)
Record ledger_step (s s' : Session) : Prop := mk_ledger_step {
  ledger_files : files s' = files s;
  ledger_heap : heap s' = heap s;
  ledger_pubnub : pubnub s' = pubnub s;
  ledger_channel : channel s' = channel s;
  ledger_sdkVersion : sdkVersion s' = sdkVersion s;
  ledger_isResolving : isResolving s' = isResolving s;
  ledger_loadingMessage : loadingMessage s' = loadingMessage s;
  ledger_events : events s' = events s;
}.

(** Not a [CODE] envelope. *)
Definition no_code (e : Event) : Prop :=
  match e with
  | EvPublish _ (MsgCode _ _ _) | EvPublish _ (MsgLegacyCode _ _) => False
  | _ => True
  end.

(** The only message ever stored in [loadingMessage]. *)
Definition wf_loading (s : Session) : Prop :=
  loadingMessage s = None \/ loadingMessage s = Some "Installing dependencies".

(** ** Reading a program *)

(** The trailing comment of a statement. *)
Definition trailing_of (st : Statement) : option string :=
  match st with
  | ImportDeclaration _ trailing | ExportFrom _ trailing
  | RequireCall _ trailing => trailing
  | OtherStatement => None
  end.

(** The module a statement names, before any is rejected. *)
Definition specifier_of (st : Statement) : option string :=
  match st with
  | ImportDeclaration source _ | ExportFrom source _ => Some source
  | RequireCall arguments _ => literal_argument arguments
  | OtherStatement => None
  end.

(** * Worlds, sessions and programs *)

(** ** Worlds *)

(** A world in which every service answers: uploads return a fixed URL,
    the CDN and the save endpoint answer, the rewriting helpers leave the
    code as it is.  The feature table, the size estimator, the scanner and
    the bundler are chosen by the caller. *)
Definition make_world
    (table : string -> Feature -> bool)
    (size : string -> gmap string string -> gmap string string -> Z)
    (scan : Contents -> Reply (gmap string (option string)))
    (answer : list IO -> string -> Reply Data) : World :=
  {| sdkSupportsFeature := table;
     defaultSDKVersion := "21.0.0";
     shortid_generate := "r1cKrtvZb";
     npmVersionPins_default := "latest";
     npmVersionPins_error := "error";
     hostFingerprint := [];
     uploadAssetToS3 := fun _ _ _ =>
       Answer "https://snack-code-uploads.s3.amazonaws.com/asset";
     uploadCodeToS3 := fun _ _ _ =>
       Answer "https://snack-code-uploads.s3.amazonaws.com/code";
     calcPayloadSize := size;
     getFileDiff := fun _ code => code;
     bundler := answer;
     cdn := fun _ _ => Some 200;
     saveEndpoint := fun _ _ => Answer {| sd_id := Some "abc123"; sd_error := None |};
     encodeURIComponent := fun s => s;
     findModuleDependencies := scan;
     writeModuleVersions := fun c _ =>
       Answer (match c with Str s => s | Blob _ => "" end);
     insertImports := fun c _ =>
       Answer (match c with Str s => s | Blob _ => "" end) |}.

Definition all_features (sdkVersion : string) (feature : Feature) : bool := true.
Definition no_feature (sdkVersion : string) (feature : Feature) : bool := false.

Definition small_size (channel : string) (diff s3url : gmap string string) : Z := 100.

Definition no_import (c : Contents) : Reply (gmap string (option string)) := Answer ∅.

(** The bundler knows every module, at version 1.0.0 and without peers. *)
Definition ready_bundler (hist : list IO) (url : string) : Reply Data :=
  Answer {| pending := false; d_name := "module"; d_version := "1.0.0";
            d_dependencies := None; d_error := None |}.

(** Both features on, a small payload, no import in the code. *)
Definition quiet_world : World :=
  make_world all_features small_size no_import ready_bundler.

(** The bundler is still building, whenever it is asked. *)
Definition still_building : Data :=
  {| pending := true; d_name := ""; d_version := "";
     d_dependencies := None; d_error := None |}.

Definition building_world : World :=
  make_world all_features small_size no_import (fun _ _ => Answer still_building).

(** The payload is measured by the estimator modelled above. *)
Definition measuring_world : World :=
  make_world all_features calcPayloadSize_model no_import ready_bundler.

(** Only the legacy payload is supported, and no import is resolved. *)
Definition legacy_world : World :=
  make_world no_feature small_size no_import ready_bundler.

(** The user code imports [react-redux], pinned, and [react]. *)
Definition redux_scanner (c : Contents) : Reply (gmap string (option string)) :=
  Answer {[ "react-redux" := Some "5.0.6"; "react" := None ]}.

(** A bundler that names its answers after the module it was asked for:
    [react-redux] has the peers [react] and [redux]. *)
Definition naming_bundler (hist : list IO) (url : string) : Reply Data :=
  if String.eqb url (bundle_url "react-redux" (Some "5.0.6")) then
    Answer {| pending := false; d_name := "react-redux"; d_version := "5.0.6";
              d_dependencies := Some {[ "react" := "^16.0.0"; "redux" := "^3.7.2" ]};
              d_error := None |}
  else
    Answer {| pending := false; d_name := "redux"; d_version := "3.7.2";
              d_dependencies := None; d_error := None |}.

Definition redux_world : World :=
  make_world all_features small_size redux_scanner naming_bundler.

(** A bundler that answers every request with the record of [react]. *)
Definition react_bundler (hist : list IO) (url : string) : Reply Data :=
  Answer {| pending := false; d_name := "react"; d_version := "16.0.0";
            d_dependencies := None; d_error := None |}.

Definition react_world : World :=
  make_world all_features small_size redux_scanner react_bundler.

(** ** Sessions *)

(** A session right after construction, with no file. *)
Definition fresh_session : Session :=
  {| files := ∅; heap := ∅; s3code := ∅; diff := ∅; s3url := ∅;
     sdkVersion := "21.0.0"; pubnub := true; channel := "r1cKrtvZb";
     name := None; description := None; dependencies := ∅;
     initialState := {| i_files := ∅; i_name := None; i_description := None;
                        i_dependencies := ∅; i_sdkVersion := "21.0.0" |};
     isResolving := false; loadingMessage := None; _promises := ∅;
     dependencyErrorListener := false; authorizationToken := None;
     events := []; net := [] |}.

(** Scenario 1 of the specification: the single file [app.js] holding
    [console.log(1)]. *)
Definition small_session : Session :=
  set_heap {[ 1%positive := mkFile CODE (Str "console.log(1)") ]}
    (set_files {[ "app.js" := 1%positive ]} fresh_session).

Fixpoint repeat_string (n : nat) (s : string) : string :=
  match n with
  | O => ""
  | S n' => s +:+ repeat_string n' s
  end.

(** Scenario 2 of the specification: [a.js] of 100,000 characters next to
    [b.js] holding [x]. *)
Definition oversize_session : Session :=
  set_heap
    {[ 1%positive :=
         mkFile CODE (Str (repeat_string 100 (repeat_string 100 "0123456789")));
       2%positive := mkFile CODE (Str "x") ]}
    (set_files {[ "a.js" := 1%positive; "b.js" := 2%positive ]} fresh_session).



(** One code file and one picture still held as a blob, and the options
    that construct a session over them. *)
Definition two_files_heap : gmap loc File :=
  {[ 1%positive := mkFile CODE (Str "console.log(1)");
     2%positive := mkFile ASSET (Blob 7) ]}.

Definition two_files_options : Options :=
  {| o_files := {[ "app.js" := 1%positive; "logo.png" := 2%positive ]};
     o_sdkVersion := None;
     o_sessionId := Some "session-1";
     o_authorizationToken := None;
     o_name := Some "demo";
     o_description := None;
     o_dependencies := None |}.

(** The single file [app.js], importing [react-redux]. *)
Definition app_session : Session :=
  set_heap
    {[ 1%positive :=
         mkFile CODE (Str "import { connect } from 'react-redux'; // 5.0.6") ]}
    (set_files {[ "app.js" := 1%positive ]} fresh_session).

(** A session whose bundle has no [app.js]. *)
Definition index_session : Session :=
  set_heap {[ 1%positive := mkFile CODE (Str "console.log(1)") ]}
    (set_files {[ "index.js" := 1%positive ]} fresh_session).

(** ** Listeners *)

(** A callback that unsubscribes itself, registered first of three. *)
Definition removes_self (listener : string) : list string :=
  if String.eqb listener "A" then ["A"] else [].

(** The first of three callbacks unsubscribes the last. *)
Definition removes_last (listener : string) : list string :=
  if String.eqb listener "A" then ["C"] else [].

(** ** Programs *)

Definition newline : string := String "010" EmptyString.

(** Scenario 3 of the specification:
    [import base64 from 'base64'; // 1.2.3],
    [const d = require('lodash/debounce'); // 2.3.4],
    [import { connect } from 'react-redux';]. *)
Definition scenario_3 : list Statement :=
  [ ImportDeclaration "base64" (Some " 1.2.3");
    RequireCall [ArgString "lodash/debounce"] (Some " 2.3.4");
    ImportDeclaration "react-redux" None ].

(** The program of the test "doesn't parse non-static and invalid
    requires", statement by statement. *)
Definition invalid_requires : list Statement :=
  [ RequireCall [] None;
    RequireCall [ArgString "debounce"; ArgNull] (Some " 2.3.4");
    RequireCall [ArgTemplate [""; ""] 1] None;
    RequireCall [ArgTemplate ["left-"; ""] 1] None;
    RequireCall [ArgString "/core"] None;
    RequireCall [ArgString ("promise" +:+ newline +:+ "me")] None;
    RequireCall
      [ArgTemplate ["blue" +:+ newline +:+ "      bird" +:+ newline +:+ "    "] 0]
      None;
    RequireCall [ArgNumber 10] None ].

(** The program of the test "finds dependencies using all import styles". *)
Definition all_import_styles : list Statement :=
  [ ImportDeclaration "mod1" (Some " 1.0.0");
    ImportDeclaration "mod2" (Some " 2.0.0");
    ImportDeclaration "mod3" (Some " 3.0.0");
    ImportDeclaration "mod4" (Some " 4.0.0");
    ImportDeclaration "mod5" (Some " 5.0.0");
    ExportFrom "mod6" (Some " 6.0.0");
    ExportFrom "mod7" (Some " 7.0.0");
    ExportFrom "mod8" (Some " 8.0.0");
    OtherStatement; OtherStatement; OtherStatement; OtherStatement ].

(** * More specifications *)

(** ** What a method may write *)

(** [I] survives every assignment to the field that [set] writes. *)
Definition stable {V} (I : Session -> Prop) (set : V -> Session -> Session) : Prop :=
  forall v s, I s -> I (set v s).

(** What the session can emit in the state [s]: an envelope goes out on
    the channel of [s], and a state event shows the state of [s]. *)
Definition emitted_in (s : Session) (e : Event) : Prop :=
  match e with
  | EvPublish ch _ => ch = channel s
  | EvState v => v = getState s
  | _ => True
  end.

(** [I] survives the emission of an event. *)
Definition grows (I : Session -> Prop) : Prop :=
  forall e s, emitted_in s e -> I s -> I (set_events (e :: events s) s).

(** [I] survives what the snapshot writes: the ledger and the request log. *)
Record ledger_closed (I : Session -> Prop) : Prop := mk_ledger_closed {
  ledger_diff : stable I set_diff;
  ledger_s3code : stable I set_s3code;
  ledger_s3url : stable I set_s3url;
  ledger_net : stable I set_net;
}.

(** [I] survives what [_findDependenciesOnceAsync] writes: the two logs, the
    promise cache, the loading message, and dependencies added to the ones
    that are there. *)
Record once_closed (I : Session -> Prop) : Prop := mk_once_closed {
  once_events : grows I;
  once_net : stable I set_net;
  once_promises : stable I set_promises;
  once_loadingMessage : stable I set_loadingMessage;
  once_dependencies :
    forall m s, I s -> I (set_dependencies (m ∪ dependencies s) s);
}.

(** Code that came out of [writeModuleVersions]. *)
Definition versions_written (W : World) (code : string) : Prop :=
  exists c dependencies, writeModuleVersions W c dependencies = Answer code.

(** [I] survives what [_handleFindDependenciesAsync] writes besides: the
    flag, and the contents of a file whose key ends in [.js], replaced by
    code that came out of [writeModuleVersions]. *)
Record engine_closed (W : World) (I : Session -> Prop) : Prop := mk_engine_closed {
  engine_once : once_closed I;
  engine_isResolving : stable I set_isResolving;
  engine_rewrite :
    forall key code s,
      endsWith key ".js" = true -> versions_written W code ->
      I s -> I (write_contents key (Str code) s);
}.

(** [I] survives what the two loops of [sendCodeAsync] write: the file
    map, the contents of a picture replaced by its URL, and the request
    log. *)
Record files_closed (I : Session -> Prop) : Prop := mk_files_closed {
  files_files : stable I set_files;
  files_contents : forall key url s, I s -> I (write_contents key (Str url) s);
  files_net : stable I set_net;
}.

(** [I] survives what [saveAsync] writes: the snapshot of the saved state
    and the two logs. *)
Record save_closed (I : Session -> Prop) : Prop := mk_save_closed {
  save_initialState : forall s, I s -> I (set_initialState (current_tuple s) s);
  save_net : stable I set_net;
  save_events : grows I;
}.

(** ** Reading a run of the engine, field by field *)

(** [s'] differs from [s] at most in what resolving imports writes: the
    dependencies, of which none is removed, the loading message, the
    promise cache and the two logs. *)
Record resolved_from (s s' : Session) : Prop := mk_resolved_from {
  resolved_files : files s' = files s;
  resolved_heap : heap s' = heap s;
  resolved_s3code : s3code s' = s3code s;
  resolved_diff : diff s' = diff s;
  resolved_s3url : s3url s' = s3url s;
  resolved_sdkVersion : sdkVersion s' = sdkVersion s;
  resolved_pubnub : pubnub s' = pubnub s;
  resolved_channel : channel s' = channel s;
  resolved_name : name s' = name s;
  resolved_description : description s' = description s;
  resolved_initialState : initialState s' = initialState s;
  resolved_isResolving : isResolving s' = isResolving s;
  resolved_listener : dependencyErrorListener s' = dependencyErrorListener s;
  resolved_token : authorizationToken s' = authorizationToken s;
  resolved_dependencies : dom (dependencies s) ⊆ dom (dependencies s');
}.

(** The file object [l] is held under a key that ends in [.js]. *)
Definition js_object (s : Session) (l : loc) : Prop :=
  exists key, files s !! key = Some l /\ endsWith key ".js" = true.

(** The heap [h'] holds the file objects of [h], of the same types; the
    contents of an object differ only if it is held under a [.js] key of [s]
    and now holds code that came out of [writeModuleVersions]. *)
Definition rewritten_from (W : World) (s : Session) (h h' : gmap loc File) : Prop :=
  forall l,
    match h !! l, h' !! l with
    | Some file, Some file' =>
        type file' = type file /\
        (contents file' = contents file \/
         js_object s l /\
         exists code, contents file' = Str code /\ versions_written W code)
    | None, None => True
    | _, _ => False
    end.

(** [s'] differs from [s] at most in what a run of the engine writes. *)
Record engine_ran (W : World) (s s' : Session) : Prop := mk_engine_ran {
  ran_files : files s' = files s;
  ran_heap : rewritten_from W s (heap s) (heap s');
  ran_s3code : s3code s' = s3code s;
  ran_diff : diff s' = diff s;
  ran_s3url : s3url s' = s3url s;
  ran_sdkVersion : sdkVersion s' = sdkVersion s;
  ran_pubnub : pubnub s' = pubnub s;
  ran_channel : channel s' = channel s;
  ran_name : name s' = name s;
  ran_description : description s' = description s;
  ran_initialState : initialState s' = initialState s;
  ran_listener : dependencyErrorListener s' = dependencyErrorListener s;
  ran_token : authorizationToken s' = authorizationToken s;
  ran_dependencies : dom (dependencies s) ⊆ dom (dependencies s');
}.

(** The imports of [file] are all pinned, each to the version that [deps]
    holds for it; a file that the scanner cannot read counts as such. *)
Definition up_to_date (W : World) (deps : gmap string string) (file : Contents)
    : Prop :=
  match findModuleDependencies W file with
  | Failure _ => True
  | Answer scanned =>
      forall name version,
        pick_modules scanned !! name = Some version ->
        exists v, version = Some v /\ deps !! name = Some v
  end.

(** ** Reading the bundler cache and the CDN *)

(** The slot of the promise cache that a request goes to. *)
Definition cache_id (name : string) (version : option string) : string :=
  name +:+ "-" +:+ or_else version "latest".

(** The address probed on the CDN for one platform. *)
Definition done_url (W : World) (name version platform : string) : string :=
  snackagerCloudfrontUrl +:+ "/" +:+
  encodeURIComponent W (replace_slashes (name +:+ "@" +:+ version)) +:+
  "-" +:+ platform +:+ "/.done".

(** The probe was answered, with a status below 400. *)
Definition found_on_cdn (res : option Z) : bool :=
  match res with
  | Some status => bool_decide (status < 400)
  | None => false
  end.

(** ** Reading the ledger after a snapshot *)

(** The three entries of the ledger under [key]. *)
Definition ledger_at (s : Session) (key : string)
    : option string * option Contents * option string :=
  (diff s !! key, s3code s !! key, s3url s !! key).

(** What the snapshot leaves in the ledger of [s'] under [key], from the
    file that [s] holds under it.  A blob is uploaded and travels by its URL;
    a file that is already the address of an upload travels as that address;
    any other file travels as a diff, against the copy that the ledger holds
    when the ledger has a URL for it, and against the empty string otherwise.
    A key without a file keeps its entries. *)
Definition snapshot_entry (W : World) (s s' : Session) (key : string) : Prop :=
  match file_at s key with
  | None => ledger_at s' key = ledger_at s key
  | Some file =>
      match contents file with
      | Blob b =>
          exists hist url,
            uploadAssetToS3 W hist (Blob b) expoApiUrl = Answer url /\
            ledger_at s' key = (Some "", Some (Blob b), Some url)
      | Str code =>
          if startsWith code S3_BUCKET_URL then
            ledger_at s' key = (Some "", Some (Str code), Some code)
          else
            ledger_at s' key =
              (Some (getFileDiff W
                       (if truthy (s3url s !! key) then s3code s !! key
                        else Some (Str "")) code),
               s3code s !! key, s3url s !! key)
      end
  end.

(** ** Reading a bundle *)

(** No file of the map [f] is a picture that still holds a blob, and every
    file object of [f] exists. *)
Definition plain_files (h : gmap loc File) (f : gmap string loc) : Prop :=
  forall key l,
    f !! key = Some l ->
    exists file, h !! l = Some file /\ ~ asset_blob (Some file).

(** The tuple that [isSaved] compares with the saved snapshot, for the
    session [s] holding the file map [f]. *)
Definition tuple_with (f : gmap string loc) (s : Session) : InitialState :=
  {| i_files := omap (fun l => heap s !! l) f;
     i_name := name s;
     i_description := description s;
     i_dependencies := dependencies s;
     i_sdkVersion := sdkVersion s |}.

(** ** Reading the calls of the listeners *)

(** The listener that a call went to. *)
Definition told (d : Delivery) : Listener :=
  match d with
  | ToErrorListener listener _ | ToLogListener listener _
  | ToPresenceListener listener _ _ => listener
  end.

(** ** Reading a message *)

(** The [type] of a message, when it has one that is a string. *)
Definition message_type (message : Json) : option string :=
  match field message "type" with
  | Some (JString type') => Some type'
  | _ => None
  end.

(** ** A life of a client *)

(** What can happen to a client once it is constructed: the caller builds
    a file object of its own, or calls a method of the public interface or
    the [remove] of a subscription; the transport delivers a message, a
    presence event or a status event; the debounce timer armed by [_publish]
    fires; the engine is called.  Each of them runs to its end before the
    next one starts. *)
Inductive Input : Type :=
| Caller_creates (l : loc) (file : File)
| Call_startAsync
| Call_stopAsync
| Call_uploadAssetAsync (content : Contents)
| Call_sendCodeAsync (files : gmap string loc)
| Call_downloadAsync
| Call_saveAsync
| Call_setSdkVersion (sdkVersion : string)
| Call_setName (name : string)
| Call_setDescription (description : string)
| Call_setAuthorizationToken (token : option string)
| Call_addErrorListener (listener : string)
| Call_addLogListener (listener : string)
| Call_addPresenceListener (listener : string)
| Call_addStateListener (listener : string)
| Call_remove (subscription : ExpoSubscription)
| Event_message (message : Json)
| Event_presence (action uuid : string)
| Event_status (category : string)
| Timer_publish
| Task_findDependencies.

(** The client after one of these has run to its end; what a call returns
    or raises is the caller's business and is dropped here. *)
Definition react (W : World) (B : Builtins) (removes : string -> list string)
    (input : Input) (c : Client) : Client :=
  match input with
  | Caller_creates l file =>
      match heap (session c) !! l with
      | None => set_session (set_heap (<[l := file]> (heap (session c))) (session c)) c
      | Some _ => c
      end
  | Call_startAsync => (startAsync c).2
  | Call_stopAsync => (stopAsync c).2
  | Call_uploadAssetAsync content => (on_session (uploadAssetAsync W content) c).2
  | Call_sendCodeAsync files => (on_session (sendCodeAsync W files) c).2
  | Call_downloadAsync => (on_session (downloadAsync W) c).2
  | Call_saveAsync => (on_session (saveAsync W) c).2
  | Call_setSdkVersion sdkVersion => (on_session (setSdkVersion W sdkVersion) c).2
  | Call_setName name => (on_session (setName name) c).2
  | Call_setDescription description => (on_session (setDescription description) c).2
  | Call_setAuthorizationToken token => (on_session (setAuthorizationToken token) c).2
  | Call_addErrorListener listener => (addErrorListener listener c).2
  | Call_addLogListener listener => (addLogListener listener c).2
  | Call_addPresenceListener listener => (addPresenceListener listener c).2
  | Call_addStateListener listener => (addStateListener listener c).2
  | Call_remove subscription => remove subscription c
  | Event_message message => (on_message W B removes message c).2
  | Event_presence action uuid => (on_presence W B removes action uuid c).2
  | Event_status category => (on_status category c).2
  | Timer_publish => (on_session (_publishNotDebouncedAsync W) c).2
  | Task_findDependencies => (on_session (_handleFindDependenciesAsync W) c).2
  end.

Definition life (W : World) (B : Builtins) (removes : string -> list string)
    (inputs : list Input) (c : Client) : Client :=
  foldl (fun c input => react W B removes input c) c inputs.

(** [I] survives what the calls of the public interface write outside of
    the engine and of the snapshot. *)
Record calls_closed (I : Session -> Prop) : Prop := mk_calls_closed {
  calls_files : files_closed I;
  calls_save : save_closed I;
  calls_s3url : stable I set_s3url;
  calls_sdkVersion : stable I set_sdkVersion;
  calls_name : stable I set_name;
  calls_description : stable I set_description;
  calls_token : stable I set_authorizationToken;
  calls_create :
    forall l file s,
      heap s !! l = None -> I s -> I (set_heap (<[l := file]> (heap s)) s);
}.



(** The session is neither resolving nor showing a loading message. *)
Definition at_rest (s : Session) : Prop :=
  isResolving s = false /\ loadingMessage s = None.


(** * More worlds, sessions and clients *)

(** [W] with another save endpoint. *)
Definition with_saveEndpoint
    (endpoint : list IO -> SaveRequest -> Reply SaveData) (W : World) : World :=
  {| sdkSupportsFeature := sdkSupportsFeature W;
     defaultSDKVersion := defaultSDKVersion W;
     shortid_generate := shortid_generate W;
     npmVersionPins_default := npmVersionPins_default W;
     npmVersionPins_error := npmVersionPins_error W;
     hostFingerprint := hostFingerprint W;
     uploadAssetToS3 := uploadAssetToS3 W;
     uploadCodeToS3 := uploadCodeToS3 W;
     calcPayloadSize := calcPayloadSize W;
     getFileDiff := getFileDiff W;
     bundler := bundler W;
     cdn := cdn W;
     saveEndpoint := endpoint;
     encodeURIComponent := encodeURIComponent W;
     findModuleDependencies := findModuleDependencies W;
     writeModuleVersions := writeModuleVersions W;
     insertImports := insertImports W |}.

(** The save endpoint refuses the snack. *)
Definition refusing_world : World :=
  with_saveEndpoint
    (fun _ _ => Answer {| sd_id := None; sd_error := Some "Snack is too large" |})
    quiet_world.

(** The bundler answers every request with a server error. *)
Definition failing_world : World :=
  make_world all_features small_size no_import (fun _ _ => Failure "Internal error").

(** [app.js] imports [react-redux] at 5.0.6, and the session already
    depends on it at that version. *)
Definition resolved_session : Session :=
  set_dependencies {[ "react-redux" := "5.0.6" ]} app_session.

(** The two files of [two_files_heap] in a session that has sent nothing. *)
Definition two_files_session : Session :=
  set_heap two_files_heap
    (set_files {[ "app.js" := 1%positive; "logo.png" := 2%positive ]} fresh_session).

(** A saved session called [demo]. *)
Definition named_session : Session :=
  set_initialState
    {| i_files := ∅; i_name := Some "demo"; i_description := Some "A demo";
       i_dependencies := ∅; i_sdkVersion := "21.0.0" |}
    (set_description (Some "A demo") (set_name (Some "demo") fresh_session)).

(** An edited file and, as another object, the file as it was saved. *)
Definition edited_session : Session :=
  set_initialState
    {| i_files := {[ "app.js" := mkFile CODE (Str "console.log(1)") ]};
       i_name := None; i_description := None;
       i_dependencies := ∅; i_sdkVersion := "21.0.0" |}
    (set_heap {[ 1%positive := mkFile CODE (Str "console.log(2)");
                 2%positive := mkFile CODE (Str "console.log(1)") ]}
       (set_files {[ "app.js" := 1%positive ]} fresh_session)).

(** A runtime in which nothing parses, and listeners that remove nothing. *)
Definition no_json : Builtins :=
  {| JSON_parse := fun _ => Failure "SyntaxError";
     Array_join := fun _ _ => "" |}.

Definition removes_nothing (listener : string) : list string := [].


(** A client over [small_session] that has not been started. *)
Definition small_client : Client :=
  {| session := small_session;
     isVerbose := false;
     isStarted := false;
     host := "snack.expo.io";
     snackId := None;
     errorListeners := [];
     logListeners := [];
     presenceListeners := [];
     stateListeners := [];
     transport := [];
     console := [];
     delivered := [] |}.

(** A start, a rename, the debounce timer and a stop. *)
Definition short_life : list Input :=
  [Call_startAsync; Call_setName "renamed"; Timer_publish; Call_stopAsync].

(** Every URL that the object store returns for a picture starts with the
    address of the bucket. *)
Definition uploads_to_bucket (W : World) : Prop :=
  forall hist c api url,
    uploadAssetToS3 W hist c api = Answer url -> startsWith url S3_BUCKET_URL = true.



(** ** Reading a call up to its first [await] *)

(** A state event that shows [isResolving = resolving]. *)
Definition state_event (resolving : bool) (e : Event) : Prop :=
  match e with
  | EvState v => v_isResolving v = resolving
  | _ => False
  end.

(** A call that returned. *)
Definition fulfilled {A} (r : Result A) : Prop :=
  match r with
  | Ok _ => True
  | _ => False
  end.

(** The call [m], started in [s], runs up to its first [await] (or to its
    end, when it has none), keeps [J], and settles before that [await] only
    in a way that satisfies [Q]. *)
Definition begins {A} (J : Session -> Prop) (Q : Result A -> Prop)
    (m : Async.AM A) (s : Async.State) : Prop :=
  J (Async.this (m s).2) /\
  match Async.settled (m s).1 with
  | Some r => Q r
  | None => True
  end.

(** [s] is [s0] with the engine started, as far as a session without a
    transport shows it: [isResolving] is set, the loading message may be,
    state events that show [isResolving] were sent and requests went to the
    bundler; nothing else differs. *)
Record engine_started (s0 s : Session) : Prop := mk_engine_started {
  started_files : files s = files s0;
  started_heap : heap s = heap s0;
  started_s3code : s3code s = s3code s0;
  started_diff : diff s = diff s0;
  started_s3url : s3url s = s3url s0;
  started_sdkVersion : sdkVersion s = sdkVersion s0;
  started_pubnub : pubnub s = pubnub s0;
  started_channel : channel s = channel s0;
  started_name : name s = name s0;
  started_description : description s = description s0;
  started_dependencies : dependencies s = dependencies s0;
  started_initialState : initialState s = initialState s0;
  started_promises : _promises s = _promises s0;
  started_listener : dependencyErrorListener s = dependencyErrorListener s0;
  started_token : authorizationToken s = authorizationToken s0;
  started_isResolving : isResolving s = true;
  started_loadingMessage :
    loadingMessage s = loadingMessage s0 \/
    loadingMessage s = Some "Installing dependencies";
  started_events :
    exists new, events s = new ++ events s0 /\ Forall (state_event true) new;
  started_net :
    exists new, net s = new ++ net s0 /\ Forall (fun io => is_poll io = true) new;
}.

(** The object that the constructor builds from its options, with the
    transport in place and before anything is started. *)
Definition blank_session (W : World) (options : Options) (h : gmap loc File)
    : Session :=
  let version := or_else (o_sdkVersion options) (defaultSDKVersion W) in
  let deps := default ∅ (o_dependencies options) in
  {| files := o_files options;
     heap := h;
     s3code := ∅;
     diff := ∅;
     s3url := ∅;
     sdkVersion := version;
     pubnub := true;
     channel := or_else (o_sessionId options) (shortid_generate W);
     name := o_name options;
     description := o_description options;
     dependencies := deps;
     initialState :=
       {| i_files := omap (fun l => h !! l) (o_files options);
          i_name := o_name options;
          i_description := o_description options;
          i_dependencies := deps;
          i_sdkVersion := version |};
     isResolving := false;
     loadingMessage := None;
     _promises := ∅;
     dependencyErrorListener := false;
     authorizationToken := o_authorizationToken options;
     events := [];
     net := [] |}.

(** ** A publish overtaken by the engine *)

(** [MULTIPLE_FILES] is supported by every version, [ARBITRARY_IMPORTS]
    from 22.0.0 on. *)
Definition features_by_version (sdkVersion : string) (feature : Feature) : bool :=
  match feature with
  | MULTIPLE_FILES => true
  | ARBITRARY_IMPORTS => String.eqb sdkVersion "22.0.0"
  end.

Definition upgrading_world : World :=
  make_world features_by_version small_size redux_scanner naming_bundler.

(** The two files of [two_files_session], at version 21.0.0, with no call
    in progress. *)
Definition idle_machine : Async.Machine :=
  {| Async.state := Async.mkState two_files_session ∅; Async.tasks := [] |}.

(** The debounce timer fires and the publish waits for the upload of
    [logo.png]; the caller moves to version 22.0.0, which starts the engine,
    and the engine waits for the bundler; the upload is answered; the
    publish goes on from [Promise.all]. *)
Definition overtaken_publish : list Async.Step :=
  [Async.Fire_publishNotDebouncedAsync;
   Async.Call_setSdkVersion "22.0.0";
   Async.Resume 0 [1%nat];
   Async.Resume 0 []].

(** The options of a session over [app.js], which imports [react-redux]. *)
Definition app_options : Options :=
  {| o_files := {[ "app.js" := 1%positive ]};
     o_sdkVersion := None;
     o_sessionId := Some "session-1";
     o_authorizationToken := None;
     o_name := None;
     o_description := None;
     o_dependencies := None |}.

(** The answers and microtasks that take the engine of a session over one
    file from its first [await] to its end: the module is fetched, then its
    peer, and the two [Promise.all] go on. *)
Definition engine_to_its_end : list Async.Step :=
  (fun path => Async.Resume 0 path)
  <$> [[0; 0]; [0; 0]; [0; 0]; [0; 0]; [0; 0]; [0; 0]; [0; 0]; [0; 0]]%nat.

(** * Properties *)

(** ** Listener dispatch *)

Lemma run_listener_filter removes l listeners :
  run_listener removes l listeners =
  List.filter (fun y => negb (existsb (String.eqb y) (removes l))) listeners.
Proof.
  unfold run_listener. generalize (removes l) as xs. intros xs.
  revert listeners. induction xs as [|x xs IH]; intros listeners; simpl.
  - induction listeners as [|y ys IHy]; simpl; [done|]. by rewrite <- IHy.
  - rewrite IH. unfold pull. clear IH.
    induction listeners as [|y ys IHy]; simpl; [done|].
    destruct (String.eqb y x); simpl; [done|].
    destruct (existsb (String.eqb y) xs); simpl; [done|]. by rewrite IHy.
Qed.

Lemma existsb_eqb_In (y : string) (xs : list string) :
  existsb (String.eqb y) xs = true <-> In y xs.
Proof.
  rewrite existsb_exists. split.
  - intros (x & Hx & Heq). apply String.eqb_eq in Heq. by subst.
  - intros Hy. exists y. split; [done|]. apply String.eqb_refl.
Qed.

Lemma filter_kept_all (p : string -> bool) (l : list string) :
  (forall y, In y l -> p y = true) -> List.filter p l = l.
Proof.
  induction l as [|y ys IH]; simpl; intros Hp; [done|].
  rewrite Hp by (by left). f_equal. apply IH. intros z Hz. apply Hp. by right.
Qed.

(** A position in a filtered list is a position in the list it was taken
    from, with the kept part of the same elements on each side. *)
Lemma filter_split (p : string -> bool) (l a b : list string) (x : string) :
  List.filter p l = a ++ x :: b ->
  exists a' b', l = a' ++ x :: b' /\ a = List.filter p a' /\ b = List.filter p b'.
Proof.
  revert a. induction l as [|y ys IH]; simpl; intros a Heq.
  - by destruct a.
  - destruct (p y) eqn:Hy.
    + destruct a as [|a0 a]; simpl in Heq.
      * injection Heq as -> Hb. exists [], ys. by rewrite Hb.
      * injection Heq as -> Hrest. destruct (IH _ Hrest) as (a' & b' & -> & -> & ->).
        exists (a0 :: a'), b'. simpl. by rewrite Hy.
    + destruct (IH _ Heq) as (a' & b' & -> & -> & ->).
      exists (y :: a'), b'. simpl. by rewrite Hy.
Qed.

Lemma forEach_from_beyond removes n k listeners called :
  (length listeners <= k)%nat ->
  forEach_from removes n k listeners called = (listeners, called).
Proof.
  revert k. induction n as [|n IH]; intros k Hk; simpl; [done|].
  rewrite lookup_ge_None_2 by done. apply IH. lia.
Qed.

Lemma later_only_ahead removes listeners :
  later_only removes listeners -> ahead_only removes [] listeners.
Proof.
  intros Hlater r1 l r2 x -> Hx.
  assert (Hl : (r1 ++ l :: r2) !! length r1 = Some l) by (by apply list_lookup_middle).
  split; [by intros []|]. split.
  - intros Hin. apply list_elem_of_In, list_elem_of_lookup in Hin as [j Hj].
    pose proof (lookup_lt_Some _ _ _ Hj) as Hlt.
    assert (Hj' : (r1 ++ l :: r2) !! j = Some x) by (by rewrite lookup_app_l).
    pose proof (Hlater _ _ _ _ Hl Hx Hj'). lia.
  - intros ->. pose proof (Hlater _ _ _ _ Hl Hx Hl). lia.
Qed.

Lemma forEach_from_ahead removes n walked rest called :
  ahead_only removes walked rest ->
  (length rest <= n)%nat ->
  (forEach_from removes n (length walked) (walked ++ rest) called).2 =
  called ++ dispatch_in_order removes n rest.
Proof.
  revert walked rest called.
  induction n as [|n IH]; intros walked rest called Hahead Hn.
  - destruct rest; simpl in *; [by rewrite app_nil_r | lia].
  - destruct rest as [|l rest].
    + rewrite forEach_from_beyond by (rewrite length_app; simpl; lia).
      simpl. by rewrite app_nil_r.
    + simpl. rewrite list_lookup_middle by done.
      assert (Hrun : run_listener removes l (walked ++ l :: rest) =
                     (walked ++ [l]) ++ run_listener removes l rest).
      { rewrite !run_listener_filter, List.filter_app. simpl.
        assert (Hl : existsb (String.eqb l) (removes l) = false).
        { apply not_true_iff_false. rewrite existsb_eqb_In. intros Hin.
          by destruct (Hahead [] l rest l eq_refl Hin) as (_ & _ & ?). }
        rewrite Hl. simpl. rewrite <- app_assoc. simpl. f_equal.
        apply filter_kept_all. intros y Hy. apply negb_true_iff, not_true_iff_false.
        rewrite existsb_eqb_In. intros Hin.
        by destruct (Hahead [] l rest y eq_refl Hin) as (? & _ & _). }
      rewrite Hrun.
      replace (S (length walked)) with (length (walked ++ [l]))
        by (rewrite length_app; simpl; lia).
      rewrite IH.
      * by rewrite <- app_assoc.
      * intros r1 l' r2 x Heq Hx. rewrite run_listener_filter in Heq.
        apply filter_split in Heq as (a' & b' & -> & -> & ->).
        destruct (Hahead (l :: a') l' b' x eq_refl Hx) as (Hw & Ha & Hne).
        split; [|split; [|done]].
        -- rewrite in_app_iff. intros [?|[->|[]]]; [done|]. apply Ha. by left.
        -- intros Hin. apply filter_In in Hin as [Hin _]. apply Ha. by right.
      * rewrite run_listener_filter.
        pose proof (List.filter_length_le
          (fun y => negb (existsb (String.eqb y) (removes l))) rest) as Hle.
        simpl in Hn. lia.
Qed.

Lemma drop_filter_sublist (p : string -> bool) (k : nat) (l : list string) :
  drop k (List.filter p l) `sublist_of` drop k l.
Proof.
  revert k. induction l as [|y ys IH]; intros k; simpl.
  - by rewrite drop_nil.
  - destruct k as [|k]; simpl.
    + destruct (p y).
      * apply sublist_skip, (IH 0%nat).
      * apply sublist_cons, (IH 0%nat).
    + destruct (p y); simpl; [apply IH|].
      etrans; [|apply IH].
      destruct (List.filter p ys) as [|z zs] eqn:Hf; [by rewrite !drop_nil|].
      clear. generalize (z :: zs) as l. intros l. revert k.
      induction l as [|a l IHl]; intros k; [by rewrite !drop_nil|].
      destruct k as [|k]; simpl; [rewrite drop_0; by apply sublist_cons|apply IHl].
Qed.

Lemma forEach_from_sublist removes n k listeners called :
  exists more,
    (forEach_from removes n k listeners called).2 = called ++ more /\
    more `sublist_of` drop k listeners.
Proof.
  revert k listeners called.
  induction n as [|n IH]; intros k listeners called; simpl.
  - exists []. rewrite app_nil_r. split; [done|apply sublist_nil_l].
  - destruct (listeners !! k) as [l|] eqn:Hk.
    + destruct (IH (S k) (run_listener removes l listeners) (called ++ [l]))
        as (more & -> & Hsub).
      exists (l :: more). rewrite <- app_assoc. split; [done|].
      rewrite (drop_S _ _ _ Hk). apply sublist_skip.
      etrans; [exact Hsub|]. rewrite run_listener_filter. apply drop_filter_sublist.
    + destruct (IH (S k) listeners called) as (more & -> & Hsub).
      exists more. split; [done|].
      rewrite drop_ge in Hsub by (apply lookup_ge_None in Hk; lia).
      apply sublist_nil_r in Hsub as ->. apply sublist_nil_l.
Qed.

(** C3 (as amended): a dispatch calls listeners in registration order, the
    calls being a subsequence of the registered listeners; when every
    removal made during the dispatch is of a listener registered after the
    one that makes it, the dispatch calls exactly the listeners that are
    still subscribed when their turn comes, skipping none. *)
Theorem forEach_registration_order (removes : string -> list string)
    (listeners : list string) :
  (forEach removes listeners).2 `sublist_of` listeners /\
  (later_only removes listeners ->
   (forEach removes listeners).2 =
   dispatch_in_order removes (length listeners) listeners).
Proof.
  split.
  - unfold forEach.
    destruct (forEach_from_sublist removes (length listeners) 0 listeners [])
      as (more & -> & Hsub).
    by rewrite drop_0 in Hsub.
  - intros Hlater. unfold forEach.
    apply (forEach_from_ahead removes (length listeners) [] listeners []).
    + by apply later_only_ahead.
    + done.
Qed.

Lemma forEach_registration_order_witness :
  later_only removes_last ["A"; "B"; "C"] /\
  (forEach removes_last ["A"; "B"; "C"]).2 = ["A"; "B"].
Proof.
  assert (H : later_only removes_last ["A"; "B"; "C"]).
  { intros i j l x Hi Hx Hj.
    destruct i as [|[|[|i]]]; simpl in Hi; try discriminate;
      injection Hi as <-; simpl in Hx; try done.
    destruct Hx as [<-|[]].
    destruct j as [|[|[|j]]]; simpl in Hj; try discriminate; lia. }
  split; [exact H|].
  exact (proj2 (forEach_registration_order removes_last ["A"; "B"; "C"]) H).
Defined.

(** C3 (as stated) fails: the first of three listeners unsubscribes itself
    while it runs; the second one, registered later and still subscribed, is
    not called in that dispatch. *)
Lemma forEach_skips_after_self_removal :
  forEach removes_self ["A"; "B"; "C"] = (["B"; "C"], ["A"; "C"]) /\
  dispatch_in_order removes_self 3 ["A"; "B"; "C"] = ["A"; "B"; "C"] /\
  ~ (forall removes listeners,
       (forEach removes listeners).2 =
       dispatch_in_order removes (length listeners) listeners).
Proof.
  split; [reflexivity|]. split; [reflexivity|].
  intros H. specialize (H removes_self ["A"; "B"; "C"]). discriminate H.
Qed.

(** ** Bundler polling *)

Ltac unfold_monad :=
  unfold mbind, M_bind, bind, get, modify, record, emit, ret, throw, lift in *.

Lemma set_net_id s : set_net (net s) s = s.
Proof. by destruct s. Qed.

Lemma set_net_set_net a b s : set_net a (set_net b s) = set_net a s.
Proof. by destruct s. Qed.

Lemma waits_app url ds1 ds2 : waits url (ds1 ++ ds2) = waits url ds1 ++ waits url ds2.
Proof. induction ds1 as [|d ds1 IH]; simpl; [done|]. by rewrite IH. Qed.

Lemma count_polls_waits url ds : count_polls (waits url ds) = length ds.
Proof.
  unfold count_polls. induction ds as [|d ds IH]; simpl; [done|]. by rewrite IH.
Qed.

Lemma _tryFetch_loop_outcome W url fuel :
  forall count data s,
    0 <= count <= 31 -> 31 - count < Z.of_nat fuel ->
    match data with Some d => pending d = true | None => True end ->
    poll_outcome W url count s (_tryFetch_loop W fuel url count data s).
Proof.
  induction fuel as [|fuel IH]; intros count data s Hcount Hfuel Hdata; [lia|].
  assert (Hbody : _tryFetch_loop W (S fuel) url count data s =
    (if bool_decide (count > 30) then throw "Request timed out"
     else
       s ← get;
       let res := bundler W (net s) url in
       record (IoBundle url res);;
       match res with
       | Answer d =>
           (if pending d then record (IoSleep 5000) else ret tt);;
           _tryFetch_loop W fuel url (count + 1) (Some d)
       | Failure error => throw error
       end) s).
  { destruct data as [d|]; simpl; [by rewrite Hdata | done]. }
  rewrite Hbody. clear Hbody. case_bool_decide as Hc.
  - exists []. split; [done|]. simpl. left. rewrite set_net_id. repeat split; (done || lia).
  - unfold_monad. simpl.
    destruct (bundler W (net s) url) as [d|e] eqn:Hb; simpl.
    + destruct (pending d) eqn:Hp; simpl.
      * specialize (IH (count + 1) (Some d)
          (set_net (IoSleep 5000 :: net (set_net (IoBundle url (Answer d) :: net s) s))
             (set_net (IoBundle url (Answer d) :: net s) s))).
        destruct IH as (ds & Hds & Hrun); [lia|lia|done|].
        exists (ds ++ [d]). split; [apply Forall_app; by split; [|constructor]|].
        rewrite length_app, waits_app. simpl. rewrite <- !app_assoc. simpl.
        replace (net (set_net (IoBundle url (Answer d) :: net s) s))
          with (IoBundle url (Answer d) :: net s) in * by (by destruct s).
        destruct (_tryFetch_loop W fuel url (count + 1) (Some d) _) as [[d'|e'|] s'];
          [| |done].
        -- destruct Hrun as (Hp' & Hlen & Hans & ->).
           replace (net (set_net _ _)) with
             (IoSleep 5000 :: IoBundle url (Answer d) :: net s) in * by (by destruct s).
           rewrite !set_net_set_net. repeat split; (done || lia).
        -- replace (net (set_net _ _)) with
             (IoSleep 5000 :: IoBundle url (Answer d) :: net s) in * by (by destruct s).
           rewrite !set_net_set_net in Hrun.
           destruct Hrun as [(-> & Hlen & ->)|(Hlen & Hans & ->)].
           ++ left. repeat split; (done || lia).
           ++ right. repeat split; (done || lia).
      * destruct fuel as [|fuel']; simpl; rewrite Hp; simpl.
        -- exists []. split; [done|]. simpl. repeat split; (done || lia).
        -- exists []. split; [done|]. simpl. repeat split; (done || lia).
    + exists []. split; [done|]. simpl. right. repeat split; (done || lia).
Qed.

(** C2 (as amended): the fetch loop terminates for every module name,
    version and bundler, and sends at most 31 requests.  It returns the
    first answer that is not pending; it raises the text of the first
    failed request; and it raises the time-out once 31 requests in a row
    were answered pending.  Each pending answer is followed by a sleep of
    five seconds, and nothing but the request log changes. *)
Theorem _tryFetchDependencyAsync_bounded (W : World) (name : string)
    (version : option string) (s : Session) :
  let url := bundle_url name version in
  let run := _tryFetchDependencyAsync W name version s in
  exists (new : list IO) (ds : list Data),
    run.2 = set_net (new ++ net s) s /\
    (count_polls new <= 31)%nat /\
    Forall (fun d => pending d = true) ds /\
    match run.1 with
    | Ok d =>
        pending d = false /\ new = IoBundle url (Answer d) :: waits url ds /\
        bundler W (waits url ds ++ net s) url = Answer d
    | Throw e =>
        (e = "Request timed out" /\ length ds = 31%nat /\ new = waits url ds) \/
        (new = IoBundle url (Failure e) :: waits url ds /\
         bundler W (waits url ds ++ net s) url = Failure e)
    | OutOfFuel => False
    end.
Proof.
  intros url run.
  destruct (_tryFetch_loop_outcome W url 32 0 None s) as (ds & Hds & Hrun);
    [lia|simpl; lia|done|].
  subst run. unfold _tryFetchDependencyAsync. fold url.
  destruct (_tryFetch_loop W 32 url 0 None s) as [[d|e|] s']; simpl; [| |done].
  - destruct Hrun as (Hp & Hlen & Hans & ->).
    exists (IoBundle url (Answer d) :: waits url ds), ds.
    unfold count_polls in *. simpl. fold (count_polls (waits url ds)).
    rewrite count_polls_waits. repeat split; (done || lia).
  - destruct Hrun as [(-> & Hlen & ->)|(Hlen & Hans & ->)].
    + exists (waits url ds), ds. rewrite count_polls_waits.
      split; [done|]. split; [lia|]. split; [done|]. left. repeat split; (done || lia).
    + exists (IoBundle url (Failure e) :: waits url ds), ds.
      unfold count_polls in *. simpl. fold (count_polls (waits url ds)).
      rewrite count_polls_waits.
      split; [done|]. split; [lia|]. split; [done|]. by right.
Qed.

(** C2 (as stated) fails: while the bundler keeps answering pending, the
    loop sends 31 requests, not 30, before it raises the time-out. *)
Lemma _tryFetchDependencyAsync_polls_31_times :
  let run := _tryFetchDependencyAsync building_world "lodash" None fresh_session in
  run.1 = Throw "Request timed out" /\
  count_polls (net run.2) = 31%nat /\
  ~ (count_polls (net run.2) <= 30)%nat.
Proof. vm_compute. repeat split; (done || lia). Qed.

(** ** Snapshot and spill *)


Lemma elem_of_keys {V} (m : gmap string V) (key : string) :
  In key (keys m) <-> is_Some (m !! key).
Proof.
  unfold keys. rewrite <- list_elem_of_In, list_elem_of_fmap. split.
  - intros ([k v] & -> & Hin). apply elem_of_map_to_list in Hin. by eexists.
  - intros [v Hv]. exists (key, v). split; [done|]. by apply elem_of_map_to_list.
Qed.



#[local] Instance size_le_transitive : Transitive size_le.
Proof. unfold size_le. intros a b c. lia. Qed.

#[local] Instance size_le_total : Total size_le.
Proof. unfold size_le. intros a b. lia. Qed.


Lemma _uploadHelper_key_entry W key s :
  uploads_succeed W ->
  exists pushes s',
    _uploadHelper_key W key s = (Ok pushes, s') /\
    files s' = files s /\ heap s' = heap s /\
    snapshot_entry W s s' key /\
    (forall key', key' <> key -> ledger_at s' key' = ledger_at s key') /\
    Forall (fun entry =>
              fs_name entry = key /\ is_Some (file_at s key) /\
              fs_size entry =
                Z.of_nat (String.length (default "" (diff s' !! key)))) pushes /\
    (length pushes <= 1)%nat.
Proof.
  intros [Hup _]. unfold _uploadHelper_key, snapshot_entry, ledger_at. unfold_monad.
  destruct (file_at s key) as [file|] eqn:Hfile.
  - destruct (contents file) as [code|b] eqn:Hc.
    + destruct (startsWith code S3_BUCKET_URL); [|destruct (truthy (s3url s !! key))];
        simpl; eexists _, _; (split; [reflexivity|]); simpl;
        rewrite ?lookup_insert_eq; (do 3 (split; [done|]));
        (split; [intros key' Hne; by rewrite ?lookup_insert_ne by done|]);
        (split; [|done]); constructor; by eauto.
    + unfold call_uploadAssetToS3. unfold_monad. simpl.
      match goal with
      | |- context [uploadAssetToS3 W ?h ?c ?a] =>
          destruct (Hup h c a) as [url Hurl]; rewrite Hurl
      end.
      simpl. eexists _, _. split; [reflexivity|]. simpl.
      rewrite !lookup_insert_eq. do 2 (split; [done|]).
      split; [by eexists _, _|].
      split; [intros key' Hne; by rewrite !lookup_insert_ne by done|].
      split; [|done]. constructor; by eauto.
  - eexists _, _. split; [reflexivity|]. repeat split; (done || simpl; lia).
Qed.

Lemma file_at_same s s' key :
  files s' = files s -> heap s' = heap s -> file_at s' key = file_at s key.
Proof. intros Hf Hh. unfold file_at. by rewrite Hf, Hh. Qed.

Lemma snapshot_entry_same W s s0 s' key :
  files s0 = files s -> heap s0 = heap s -> ledger_at s0 key = ledger_at s key ->
  snapshot_entry W s0 s' key -> snapshot_entry W s s' key.
Proof.
  intros Hf Hh Hl. unfold snapshot_entry. rewrite (file_at_same s s0) by done.
  unfold ledger_at in *. injection Hl as Hd Hc Hu. by rewrite Hd, Hc, Hu.
Qed.

Lemma _uploadHelper_keys W s ks :
  uploads_succeed W -> NoDup ks ->
  forall s0,
    files s0 = files s -> heap s0 = heap s ->
    (forall key, In key ks -> ledger_at s0 key = ledger_at s key) ->
    exists pushes s',
      mapM (_uploadHelper_key W) ks s0 = (Ok pushes, s') /\
      files s' = files s /\ heap s' = heap s /\
      (forall key, In key ks -> snapshot_entry W s s' key) /\
      (forall key, ~ In key ks -> ledger_at s' key = ledger_at s0 key) /\
      Forall (fun entry =>
                In (fs_name entry) ks /\ is_Some (file_at s (fs_name entry)) /\
                fs_size entry =
                  Z.of_nat (String.length (default "" (diff s' !! fs_name entry))))
             (concat pushes) /\
      NoDup (fs_name <$> concat pushes).
Proof.
  intros Hup. induction ks as [|k ks IH]; intros Hnodup s0 Hf Hh Hled.
  - exists [], s0. simpl. unfold_monad. repeat split; (done || constructor).
  - apply NoDup_cons in Hnodup as [Hk Hnodup].
    destruct (_uploadHelper_key_entry W k s0 Hup)
      as (p & s1 & Hrun1 & Hf1 & Hh1 & Hentry1 & Hother1 & Hp & Hlen).
    destruct (IH Hnodup s1)
      as (ps & s2 & Hrun2 & Hf2 & Hh2 & Hentry2 & Hother2 & Hps & Hnames).
    { congruence. } { congruence. }
    { intros key Hin. rewrite Hother1; [apply Hled; by right|].
      intros ->. apply Hk. by apply list_elem_of_In. }
    exists (p :: ps), s2. simpl. unfold_monad. rewrite Hrun1, Hrun2.
    split; [done|]. do 2 (split; [done|]).
    assert (Hk2 : ledger_at s2 k = ledger_at s1 k)
      by (apply Hother2; intros Hin; apply Hk; by apply list_elem_of_In).
    split; [|split; [|split]].
    + intros key [<-|Hin]; [|by apply Hentry2].
      apply (snapshot_entry_same W s s0); [done|done|apply Hled; by left|].
      revert Hentry1. unfold snapshot_entry. rewrite Hk2. done.
    + intros key Hnot. rewrite Hother2 by (intros Hin; apply Hnot; by right).
      apply Hother1. intros ->. apply Hnot. by left.
    + apply Forall_app. split.
      * eapply Forall_impl; [exact Hp|]. intros entry (-> & Hsome & Hsize).
        split; [by left|]. split; [by rewrite <- (file_at_same s s0)|].
        rewrite Hsize. unfold ledger_at in Hk2. by injection Hk2 as -> _ _.
      * eapply Forall_impl; [exact Hps|]. intros entry (Hin & Hsome & Hsize).
        split; [by right|done].
    + rewrite fmap_app. apply NoDup_app. split; [|split; [|done]].
      * destruct p as [|entry [|? ?]]; simpl in *; [constructor| |lia].
        apply NoDup_singleton.
      * intros name Hname Hin. apply list_elem_of_fmap in Hname as (entry & -> & Hentry).
        rewrite Forall_forall in Hp. destruct (Hp entry Hentry) as (Hkey & _).
        apply list_elem_of_fmap in Hin as (entry' & Heq & Hentry').
        rewrite Forall_forall in Hps. destruct (Hps entry' Hentry') as (Hin' & _).
        apply Hk. apply list_elem_of_In. by rewrite <- Hkey, Heq.
Qed.

Lemma NoDup_keys {V} (m : gmap string V) : NoDup (keys m).
Proof. apply NoDup_fst_map_to_list. Qed.

Lemma _uploadHelper_entries (W : World) (s : Session) :
  uploads_succeed W ->
  exists fileSize s',
    _uploadHelper W s = (Ok fileSize, s') /\
    files s' = files s /\ heap s' = heap s /\
    (forall key, snapshot_entry W s s' key) /\
    Forall (fun entry =>
              is_Some (file_at s (fs_name entry)) /\
              fs_size entry =
                Z.of_nat (String.length (default "" (diff s' !! fs_name entry))))
           fileSize /\
    NoDup (fs_name <$> fileSize).
Proof.
  intros Hup.
  destruct (_uploadHelper_keys W s (keys (files s)) Hup (NoDup_keys _) s)
    as (pushes & s' & Hrun & Hf & Hh & Hentry & Hother & Hsizes & Hnames); [done..|].
  exists (concat pushes), s'. unfold _uploadHelper. unfold_monad. rewrite Hrun.
  split; [done|]. do 2 (split; [done|]). split; [|split; [|done]].
  - intros key. destruct (decide (key ∈ keys (files s))) as [Hin|Hnot].
    + apply Hentry. by apply list_elem_of_In.
    + unfold snapshot_entry.
      assert (Hnone : file_at s key = None).
      { unfold file_at. destruct (files s !! key) as [l|] eqn:Hkey; [|done].
        exfalso. apply Hnot, list_elem_of_In, elem_of_keys. by eexists. }
      rewrite Hnone. apply Hother. intros Hin. by apply Hnot, list_elem_of_In.
  - eapply Forall_impl; [exact Hsizes|]. by intros entry (_ & ? & ?).
Qed.









(** ** Asynchronous calls up to their first await *)


Ltac unfold_async :=
  unfold mbind, mret, Async.AM_bind, Async.AM_ret, Async.bind, Async.settle,
    Async.throw, Async.get, Async.sync, Async.await in *.

Lemma after_pending {A B} (t : Async.Async A) (k : Result A -> Async.AM B) s :
  Async.settled t = None ->
  Async.settled (Async.after t k s).1 = None /\ (Async.after t k s).2 = s.
Proof. by destruct t. Qed.

Lemma begins_settle {A} J (Q : Result A -> Prop) r s :
  J (Async.this s) -> Q r -> begins J Q (Async.settle r) s.
Proof. by split. Qed.

Lemma begins_weaken {A} J (Q Q' : Result A -> Prop) m s :
  begins J Q m s -> (forall r, Q r -> Q' r) -> begins J Q' m s.
Proof.
  intros [HJ HQ] Himp. split; [done|].
  destruct (Async.settled (m s).1); [by apply Himp|done].
Qed.

Lemma begins_after {A B} J (Q1 : Result A -> Prop) (Q : Result B -> Prop)
    (m : Async.AM A) (k : Result A -> Async.AM B) s :
  begins J Q1 m s ->
  (forall r s', J (Async.this s') -> Q1 r -> begins J Q (k r) s') ->
  begins J Q (fun s => let '(t, s') := m s in Async.after t k s') s.
Proof.
  intros [HJ HQ] Hk. unfold begins. destruct (m s) as [t s'] eqn:Hm. simpl in *.
  destruct (Async.settled t) as [r|] eqn:Ht.
  - destruct t; try done. simpl in Ht. injection Ht as ->. simpl. by apply Hk.
  - destruct (after_pending t k s' Ht) as [-> ->]. done.
Qed.

Lemma begins_bind {A B} J (Q1 : Result A -> Prop) (Q : Result B -> Prop)
    (m : Async.AM A) (k : A -> Async.AM B) s :
  begins J Q1 m s ->
  (forall a s', J (Async.this s') -> Q1 (Ok a) -> begins J Q (k a) s') ->
  (forall e, Q1 (Throw e) -> Q (Throw e)) ->
  (Q1 OutOfFuel -> Q OutOfFuel) ->
  begins J Q (Async.bind m k) s.
Proof.
  intros Hm Hk He Hf. unfold Async.bind.
  apply (begins_after J Q1); [done|].
  intros [a|e|] s' Hs' Hr; [by apply Hk| |]; apply begins_settle; auto.
Qed.

Lemma begins_try_catch {A} J (Q1 Q : Result A -> Prop)
    (m : Async.AM A) (h : string -> Async.AM A) s :
  begins J Q1 m s ->
  (forall e s', J (Async.this s') -> Q1 (Throw e) -> begins J Q (h e) s') ->
  (forall a, Q1 (Ok a) -> Q (Ok a)) ->
  (Q1 OutOfFuel -> Q OutOfFuel) ->
  begins J Q (Async.try_catch m h) s.
Proof.
  intros Hm Hh Ha Hf. unfold Async.try_catch.
  apply (begins_after J Q1); [done|].
  intros [a|e|] s' Hs' Hr; [|by apply Hh|]; apply begins_settle; auto.
Qed.

Lemma begins_try_finally {A} J (Q : Result A -> Prop)
    (m : Async.AM A) (f : Async.AM unit) s :
  begins J (fun _ => False) m s ->
  begins J Q (Async.try_finally m f) s.
Proof.
  intros Hm. unfold Async.try_finally.
  apply (begins_after J (fun _ => False)); [done|]. by intros r s' _ [].
Qed.

Lemma begins_sync {A} J (Q : Result A -> Prop) (m : M A) s :
  J (m (Async.this s)).2 -> Q (m (Async.this s)).1 ->
  begins J Q (Async.sync m) s.
Proof. unfold begins, Async.sync. by destruct (m (Async.this s)). Qed.

Lemma begins_get J (Q : Result Async.State -> Prop) s :
  J (Async.this s) -> Q (Ok s) -> begins J Q Async.get s.
Proof. by split. Qed.

Lemma begins_await J (Q : Result unit -> Prop) on s :
  J (Async.this s) -> begins J Q (Async.await on) s.
Proof. by split. Qed.

Lemma begins_await_call {A} J (Q1 Q : Result A -> Prop) (m : Async.AM A) s :
  begins J Q1 m s -> begins J Q (Async.await_call m) s.
Proof.
  intros [HJ _]. unfold begins, Async.await_call. destruct (m s) as [t s'].
  simpl in *. destruct (Async.settled t) eqn:Ht; simpl; [done|by rewrite Ht].
Qed.

Lemma start_all_keeps {A B} J (f : A -> Async.AM B) xs :
  forall s,
    J (Async.this s) ->
    (forall x s', J (Async.this s') -> begins J (fun _ => True) (f x) s') ->
    J (Async.this (Async.start_all f xs s).2).
Proof.
  induction xs as [|x xs IH]; intros s Hs Hf; [done|]. simpl.
  destruct (Hf x s Hs) as [Hx _]. destruct (f x s) as [t s']. simpl in Hx.
  specialize (IH s' Hx Hf). by destruct (Async.start_all f xs s').
Qed.

Lemma begins_all {A B} J (Q : Result (list B) -> Prop) (f : A -> Async.AM B) xs s :
  J (Async.this s) ->
  (forall x s', J (Async.this s') -> begins J (fun _ => True) (f x) s') ->
  begins J Q (Async.all f xs) s.
Proof.
  intros Hs Hf. pose proof (start_all_keeps J f xs s Hs Hf) as Hall.
  unfold begins, Async.all. by destruct (Async.start_all f xs s).
Qed.

Lemma bind_get {B} (k : Async.State -> Async.AM B) s :
  Async.bind Async.get k s = k s s.
Proof. done. Qed.

Lemma bind_settle {A B} (a : A) (k : A -> Async.AM B) s :
  Async.bind (Async.settle (Ok a)) k s = k a s.
Proof. done. Qed.

Lemma bind_sync {A B} (m : M A) (k : A -> Async.AM B) s a this' :
  m (Async.this s) = (Ok a, this') ->
  Async.bind (Async.sync m) k s = k a (Async.set_this this' s).
Proof. intros Hm. unfold Async.bind, Async.sync. by rewrite Hm. Qed.

Lemma set_this_this s : Async.set_this (Async.this s) s = s.
Proof. by destruct s. Qed.

Lemma _handleFindDependenciesAsync_busy W s :
  isResolving (Async.this s) = true ->
  Async._handleFindDependenciesAsync W s = (Async.Settled (Ok tt), s).
Proof.
  intros Hres. unfold Async._handleFindDependenciesAsync.
  unfold mbind, mret, Async.AM_bind, Async.AM_ret.
  rewrite (bind_sync (supportsFeature W ARBITRARY_IMPORTS) _ s
             (sdkSupportsFeature W (sdkVersion (Async.this s)) ARBITRARY_IMPORTS)
             (Async.this s) eq_refl).
  rewrite set_this_this.
  destruct (sdkSupportsFeature W _ ARBITRARY_IMPORTS); [|done].
  simpl. rewrite bind_get. by rewrite Hres.
Qed.

(** ** The engine up to its first await *)

Lemma engine_started_state s0 s :
  engine_started s0 s -> engine_started s0 (_sendStateEvent s).2.
Proof.
  intros H. unfold _sendStateEvent, emit. unfold mbind, M_bind, bind, get, modify.
  simpl. constructor; simpl; try (by apply H).
  destruct (started_events _ _ H) as (new & -> & Hnew).
  exists (EvState (getState s) :: new). split; [done|].
  constructor; [|done]. simpl. by apply H.
Qed.

Lemma engine_started_loading s0 s :
  engine_started s0 s ->
  engine_started s0 (set_loadingMessage (Some "Installing dependencies") s).
Proof. intros H. constructor; simpl; try (by apply H). by right. Qed.

Lemma engine_started_silent s0 s :
  pubnub s0 = false -> engine_started s0 s -> (_sendLoadingEvent s).2 = s.
Proof.
  intros Hp H. unfold _sendLoadingEvent. unfold mbind, M_bind, bind, get, ret.
  destruct (negb (truthy (loadingMessage s))); [done|].
  by rewrite (started_pubnub _ _ H), Hp.
Qed.

Lemma engine_started_poll s0 s url res :
  engine_started s0 s -> engine_started s0 (set_net (IoBundle url res :: net s) s).
Proof.
  intros H. constructor; simpl; try (by apply H).
  destruct (started_net _ _ H) as (new & -> & Hnew).
  exists (IoBundle url res :: new). split; [done|]. by constructor.
Qed.

Section Started.
Context (W : World) (s0 : Session).
Hypothesis Hpubnub : pubnub s0 = false.

Lemma begins_tryFetch_loop fuel url s :
  engine_started s0 (Async.this s) ->
  begins (engine_started s0) (fun _ => False)
    (Async._tryFetch_loop W (S fuel) url 0 None) s.
Proof.
  intros Hs. simpl.
  unfold mbind, Async.AM_bind.
  apply (begins_bind _ fulfilled); [by apply begins_get| |done..].
  intros s1 s' Hs' _.
  apply (begins_bind _ fulfilled); [| |done..].
  - apply begins_sync; [|done]. simpl. by apply engine_started_poll.
  - intros _ s2 Hs2 _.
    apply (begins_bind _ (fun _ => False));
      [by apply begins_await|by intros ? ? ? []|done..].
Qed.

Lemma begins_tryFetchDependencyAsync name version s :
  engine_started s0 (Async.this s) ->
  begins (engine_started s0) (fun _ => False)
    (Async._tryFetchDependencyAsync W name version) s.
Proof. apply begins_tryFetch_loop. Qed.

Lemma begins_maybeFetchDependencyAsync name version s :
  engine_started s0 (Async.this s) ->
  begins (engine_started s0) (fun _ => True)
    (Async._maybeFetchDependencyAsync W name version) s.
Proof.
  intros Hs. unfold Async._maybeFetchDependencyAsync.
  unfold mbind, Async.AM_bind.
  apply (begins_bind _ (fun _ => True)); [by apply begins_get| |done..].
  intros s1 s' Hs' _.
  destruct (_promises (Async.this s1) !! _); [by apply begins_settle|].
  case_bool_decide; [by split|].
  apply (begins_try_catch _ (fun _ => False)); [|by intros ? ? ? []|done..].
  apply (begins_bind _ (fun _ => False)); [|by intros ? ? ? []|done..].
  destruct (begins_tryFetchDependencyAsync name version s' Hs') as [HJ HQ].
  unfold begins, Async.in_slot.
  by destruct (Async._tryFetchDependencyAsync W name version s').
Qed.

Lemma begins_findDependenciesOnceAsync file s :
  engine_started s0 (Async.this s) ->
  begins (engine_started s0) (fun _ => True)
    (Async._findDependenciesOnceAsync W file) s.
Proof.
  intros Hs. unfold Async._findDependenciesOnceAsync.
  unfold mbind, Async.AM_bind.
  apply (begins_bind _ (fun _ => True)); [by apply begins_sync| |done..].
  intros ai s1 Hs1 _. destruct (negb ai); [by apply begins_settle|].
  destruct (findModuleDependencies W file) as [scanned|e]; [|by apply begins_settle].
  apply (begins_bind _ (fun _ => True)); [by apply begins_get| |done..].
  intros s2 s3 Hs3 _. destruct (_ || _); [by apply begins_settle|].
  apply (begins_bind _ (fun _ => True)); [| |done..].
  { apply begins_sync; [|done]. by apply engine_started_state. }
  intros _ s4 Hs4 _.
  apply (begins_bind _ (fun _ => True)); [| |done..].
  { apply begins_sync; [|done]. by apply engine_started_loading. }
  intros _ s5 Hs5 _.
  apply (begins_bind _ (fun _ => True)); [| |done..].
  { apply begins_sync; [|done]. by rewrite (engine_started_silent s0). }
  intros _ s6 Hs6 _.
  apply begins_weaken with (Q := fun _ => False); [|done].
  apply begins_try_finally.
  apply (begins_try_catch _ (fun _ => False)); [|by intros ? ? ? []|done..].
  apply (begins_bind _ (fun _ => False)); [|by intros ? ? ? []|done..].
  apply begins_all; [done|]. intros name s7 Hs7.
  by apply begins_maybeFetchDependencyAsync.
Qed.

Lemma begins_engine_file key s :
  engine_started s0 (Async.this s) ->
  begins (engine_started s0) (fun _ => True)
    (if endsWith key ".js" then
       Async.bind Async.get (fun s1 =>
         match file_at (Async.this s1) key with
         | None => Async.throw TypeError
         | Some file =>
             Async.bind
               (Async.await_call (Async._findDependenciesOnceAsync W (contents file)))
               (fun codeWithVersions =>
                  Async.bind Async.get (fun s2 =>
                    match file_at (Async.this s2) key with
                    | None => Async.throw TypeError
                    | Some file' =>
                        if bool_decide (contents file' = contents file) then
                          if truthy codeWithVersions then
                            Async.bind
                              (Async.sync
                                 (modify (write_contents key
                                            (Str (default "" codeWithVersions)))))
                              (fun _ => Async.sync _sendStateEvent)
                          else Async.settle (Ok tt)
                        else Async.settle (Ok tt)
                    end))
         end)
     else Async.settle (Ok tt)) s.
Proof.
  intros Hs. destruct (endsWith key ".js"); [|by apply begins_settle].
  apply (begins_bind _ (fun _ => True)); [by apply begins_get| |done..].
  intros s1 s' Hs' _.
  destruct (file_at (Async.this s1) key) as [file|]; [|by apply begins_settle].
  apply (begins_bind _ (fun _ => False)); [|by intros ? ? ? []|done..].
  apply (begins_await_call _ (fun _ => True)).
  by apply begins_findDependenciesOnceAsync.
Qed.

Lemma _handleFindDependenciesAsync_starts in_flight :
  sdkSupportsFeature W (sdkVersion s0) ARBITRARY_IMPORTS = true ->
  isResolving s0 = false ->
  let run := Async._handleFindDependenciesAsync W (Async.mkState s0 in_flight) in
  Async.settled run.1 = None /\ engine_started s0 (Async.this run.2).
Proof.
  intros Hai Hres.
  set (s1 := Async.mkState (set_isResolving true s0) in_flight).
  assert (Hs1 : engine_started s0 (Async.this s1)).
  { constructor; simpl; try done; [by left|by exists []..]. }
  assert (Hrun : exists body final,
    Async._handleFindDependenciesAsync W (Async.mkState s0 in_flight) =
      Async.try_finally body final s1 /\
    begins (engine_started s0) (fun _ => False) body s1).
  { eexists _, _. split.
    - unfold Async._handleFindDependenciesAsync.
      unfold mbind, Async.AM_bind, Async.bind at 1, Async.sync at 1, supportsFeature.
      unfold mbind, M_bind, bind, get, ret. simpl. rewrite Hai. simpl.
      unfold Async.bind at 1, Async.get. simpl. rewrite Hres.
      unfold Async.bind at 1, Async.sync at 1, modify. simpl. reflexivity.
    - apply (begins_try_catch _ (fun _ => False)); [|by intros ? ? ? []|done..].
      apply (begins_bind _ (fun _ => False)); [|by intros ? ? ? []|done..].
      apply begins_all; [done|]. intros key s2 Hs2.
      by apply begins_engine_file. }
  destruct Hrun as (body & final & -> & Hbody).
  destruct (begins_try_finally _ (fun _ : Result unit => False) body final s1 Hbody)
    as [HJ HQ].
  split; [|done]. by destruct (Async.settled _).
Qed.

End Started.

(** ** The constructor *)

Lemma forget_pending {A} (t : Async.Async A) :
  Async.settled t = None -> Async.settled (Async.forget t) = None.
Proof. by destruct t. Qed.

Lemma constructor_returns W options h :
  MIN_CHANNEL_LENGTH <=
    Z.of_nat (String.length (or_else (o_sessionId options) (shortid_generate W))) ->
  exists mc,
    Async.constructor W options h = Ok mc /\
    constructor W options h = Ok (Async.this (Async.state mc)) /\
    if sdkSupportsFeature W (sdkVersion (blank_session W options h)) ARBITRARY_IMPORTS
    then
      engine_started (blank_session W options h) (Async.this (Async.state mc)) /\
      exists t, Async.tasks mc = [t] /\ Async.settled t = None
    else
      Async.this (Async.state mc) = blank_session W options h /\ Async.tasks mc = [].
Proof.
  intros Hlen. unfold constructor, Async.constructor.
  rewrite bool_decide_eq_false_2 by lia.
  eexists. split; [reflexivity|]. split; [reflexivity|].
  change (sdkVersion (blank_session W options h))
    with (or_else (o_sdkVersion options) (defaultSDKVersion W)).
  destruct (sdkSupportsFeature W _ ARBITRARY_IMPORTS) eqn:Hai; [|done].
  unfold Async.spawn, Async.run_sync. cbn [Async.state Async.tasks].
  match goal with
  | |- context [Async._handleFindDependenciesAsync W (Async.mkState ?s0 ∅)] =>
      destruct (_handleFindDependenciesAsync_starts W s0 eq_refl ∅ Hai eq_refl)
        as [Hpending Hstarted];
      destruct (Async._handleFindDependenciesAsync W (Async.mkState s0 ∅)) as [t s1]
  end.
  simpl in *. split; [|eexists; split; [reflexivity|by apply forget_pending]].
  constructor; simpl; try (by apply Hstarted); done.
Qed.

(** ** The saved flag *)

Lemma _isSaved_iff s : _isSaved s = true <-> initialState s = current_tuple s.
Proof. unfold _isSaved. apply bool_decide_eq_true. Qed.

Lemma files_value_lookup s key : files_value s !! key = file_at s key.
Proof.
  unfold files_value, file_at. rewrite lookup_omap.
  by destruct (files s !! key).
Qed.

Lemma write_contents_initialState key c s :
  initialState (write_contents key c s) = initialState s.
Proof. unfold write_contents. by destruct (files s !! key). Qed.

Lemma isSaved_constructed W options h s :
  constructor W options h = Ok s ->
  _isSaved s = true /\ initialState s = initialState (blank_session W options h).
Proof.
  intros Hs.
  assert (Hlen : MIN_CHANNEL_LENGTH <=
    Z.of_nat (String.length (or_else (o_sessionId options) (shortid_generate W)))).
  { revert Hs. unfold constructor, Async.constructor.
    case_bool_decide as Hlen; [done|]. intros _. lia. }
  destruct (constructor_returns W options h Hlen) as (mc & _ & Hmc & Hcase).
  rewrite Hmc in Hs. injection Hs as <-.
  assert (Hblank : _isSaved (blank_session W options h) = true).
  { apply _isSaved_iff. unfold current_tuple, files_value. done. }
  destruct (sdkSupportsFeature W _ ARBITRARY_IMPORTS).
  - destruct Hcase as [Hs _]. split; [|by apply Hs].
    apply _isSaved_iff. apply _isSaved_iff in Hblank.
    rewrite (started_initialState _ _ Hs), Hblank. unfold current_tuple, files_value.
    by rewrite (started_files _ _ Hs), (started_heap _ _ Hs), (started_name _ _ Hs),
      (started_description _ _ Hs), (started_dependencies _ _ Hs),
      (started_sdkVersion _ _ Hs).
  - destruct Hcase as [-> _]. by split.
Qed.

(** C4: [isSaved], as [getState] reports it, holds exactly when the
    snapshot in [initialState] equals, field by field, the files (for every
    key the type and the contents of the file the session holds now), the
    name, the description, the dependencies and the SDK version.  Hence a
    saved session stops being saved as soon as one of the five is changed.
    A construction that passes the channel check returns a session that is
    saved, its snapshot being the one of the options.  A save that the
    endpoint answers with an id returns that id and takes the snapshot
    again: whether it was saved before or not, the session is saved
    afterwards, and the five fields are as they were. *)
Theorem isSaved_snapshot (W : World) :
  (forall s,
     v_isSaved (getState s) = true <->
     (forall key, i_files (initialState s) !! key = file_at s key) /\
     i_name (initialState s) = name s /\
     i_description (initialState s) = description s /\
     i_dependencies (initialState s) = dependencies s /\
     i_sdkVersion (initialState s) = sdkVersion s) /\
  (forall s,
     v_isSaved (getState s) = true ->
     (forall name', name s <> Some name' ->
        v_isSaved (getState (setName name' s).2) = false) /\
     (forall description', description s <> Some description' ->
        v_isSaved (getState (setDescription description' s).2) = false) /\
     (forall sdkVersion', sdkVersion s <> sdkVersion' ->
        v_isSaved (getState (set_sdkVersion sdkVersion' s)) = false) /\
     (forall dependencies', dependencies s <> dependencies' ->
        v_isSaved (getState (set_dependencies dependencies' s)) = false) /\
     (forall key file c, file_at s key = Some file -> contents file <> c ->
        v_isSaved (getState (write_contents key c s)) = false) /\
     (forall key, is_Some (files s !! key) ->
        v_isSaved (getState (set_files (delete key (files s)) s)) = false \/
        file_at s key = None)) /\
  (forall options h,
     MIN_CHANNEL_LENGTH <=
       Z.of_nat (String.length (or_else (o_sessionId options) (shortid_generate W))) ->
     exists s,
       constructor W options h = Ok s /\
       v_isSaved (getState s) = true /\
       initialState s =
         {| i_files := omap (fun l => h !! l) (o_files options);
            i_name := o_name options;
            i_description := o_description options;
            i_dependencies := default ∅ (o_dependencies options);
            i_sdkVersion := or_else (o_sdkVersion options) (defaultSDKVersion W) |}) /\
  (forall s data,
     saveEndpoint W (net s) (save_request W s) = Answer data ->
     truthy (sd_id data) = true ->
     exists url s',
       saveAsync W s = (Ok (default "" (sd_id data), url), s') /\
       v_isSaved (getState s') = true /\
       files s' = files s /\ heap s' = heap s /\ name s' = name s /\
       description s' = description s /\ dependencies s' = dependencies s /\
       sdkVersion s' = sdkVersion s).
Proof.
  assert (Hiff : forall s,
     v_isSaved (getState s) = true <->
     (forall key, i_files (initialState s) !! key = file_at s key) /\
     i_name (initialState s) = name s /\
     i_description (initialState s) = description s /\
     i_dependencies (initialState s) = dependencies s /\
     i_sdkVersion (initialState s) = sdkVersion s).
  { intros s. simpl. rewrite _isSaved_iff. unfold current_tuple. split.
    - intros ->. simpl. split; [|done]. intros key. by apply files_value_lookup.
    - intros (Hfiles & Hname & Hdesc & Hdeps & Hver).
      destruct (initialState s) as [f n d dp v]. simpl in *. f_equal; try done.
      apply map_eq. intros key. by rewrite Hfiles, files_value_lookup. }
  assert (Hnot : forall s, v_isSaved (getState s) = false <->
                           ~ v_isSaved (getState s) = true)
    by (intros s; by destruct (v_isSaved (getState s))).
  split; [exact Hiff|]. split; [|split].
  - intros s Hsaved. apply Hiff in Hsaved as (Hfiles & Hname & Hdesc & Hdeps & Hver).
    split; [|split; [|split; [|split; [|split]]]].
    + intros name' Hne. apply Hnot. rewrite Hiff. intros (_ & Hname' & _).
      revert Hname'. unfold setName. unfold_monad.
      rewrite bool_decide_eq_false_2 by done. simpl. congruence.
    + intros description' Hne. apply Hnot. rewrite Hiff. intros (_ & _ & Hdesc' & _).
      revert Hdesc'. unfold setDescription. unfold_monad.
      rewrite bool_decide_eq_false_2 by done. simpl. congruence.
    + intros v Hne. apply Hnot. rewrite Hiff. simpl. intros (_ & _ & _ & _ & Hv).
      congruence.
    + intros deps Hne. apply Hnot. rewrite Hiff. simpl. intros (_ & _ & _ & Hd & _).
      congruence.
    + intros key file c Hfile Hc. apply Hnot. rewrite Hiff. intros (Hfiles' & _).
      specialize (Hfiles' key). revert Hfiles'.
      rewrite (write_contents_initialState key c s), Hfiles, Hfile.
      unfold file_at in Hfile. unfold file_at, write_contents.
      destruct (files s !! key) as [l|] eqn:Hl; [|done]. simpl in *.
      rewrite Hl. simpl. rewrite lookup_alter_eq, Hfile. simpl.
      intros [= Heq]. apply Hc. by rewrite Heq.
    + intros key [l Hl]. destruct (file_at s key) as [file|] eqn:Hfile; [left|by right].
      apply Hnot. rewrite Hiff. intros (Hfiles' & _).
      specialize (Hfiles' key). revert Hfiles'. simpl. rewrite Hfiles, Hfile.
      unfold file_at. simpl. by rewrite lookup_delete_eq.
  - intros options h Hlen.
    destruct (constructor_returns W options h Hlen) as (mc & _ & Hmc & _).
    destruct (isSaved_constructed W options h _ Hmc) as [Hsaved Hinit].
    eexists. split; [exact Hmc|]. by split.
  - intros s data Hreply Hid. unfold saveAsync, try_catch, _sendStateEvent.
    unfold_monad. rewrite Hreply. simpl. rewrite Hid. simpl.
    eexists _, _. split; [reflexivity|]. simpl. split; [|done].
    by apply _isSaved_iff.
Qed.

Lemma isSaved_snapshot_witness :
  (exists s, constructor quiet_world two_files_options two_files_heap = Ok s /\
             v_isSaved (getState s) = true) /\
  v_isSaved (getState edited_session) = false /\
  (exists url s',
     saveAsync quiet_world edited_session = (Ok ("abc123", url), s') /\
     v_isSaved (getState s') = true).
Proof.
  split; [|split].
  - destruct (proj1 (proj2 (proj2 (isSaved_snapshot quiet_world)))
                two_files_options two_files_heap) as (s & Hs & Hsaved & _).
    + vm_compute. discriminate.
    + exists s. split; [exact Hs|exact Hsaved].
  - vm_compute. reflexivity.
  - destruct (proj2 (proj2 (proj2 (isSaved_snapshot quiet_world))) edited_session
                {| sd_id := Some "abc123"; sd_error := None |})
      as (url & s' & Hrun & Hsaved & _); [reflexivity..|].
    exists url, s'. split; [exact Hrun|exact Hsaved].
Defined.

(** ** Reconciling the file map *)

Lemma sendCode_prune (files' : gmap string loc) (ks : list string) (s : Session) :
  exists s',
    forM_ ks (sendCode_remove files') s = (Ok tt, s') /\
    s' = set_files (files s') s /\
    forall key,
      files s' !! key =
      if decide (key ∈ dom files') then files s !! key
      else if decide (key ∈ ks) then None else files s !! key.
Proof.
  revert s. induction ks as [|k ks IH]; intros s; simpl.
  - exists s. unfold_monad. split; [done|]. split; [by destruct s|].
    intros key. destruct (decide (key ∈ dom files')); [done|].
    done.
  - assert (Hstep : sendCode_remove files' k s =
      (Ok tt, if bool_decide (k ∈ dom files') then s
              else set_files (delete k (files s)) s))
      by (unfold sendCode_remove; unfold_monad; by case_bool_decide).
    unfold_monad. rewrite Hstep. clear Hstep. case_bool_decide as Hk; simpl.
    + destruct (IH s) as (s' & -> & Hs' & Hlook). exists s'.
      split; [done|]. split; [done|]. intros key. rewrite Hlook.
      destruct (decide (key ∈ dom files')) as [|Hkey]; [done|].
      apply decide_ext. rewrite elem_of_cons. split; [by right|].
      intros [->|Hin]; [by destruct Hkey|done].
    + destruct (IH (set_files (delete k (files s)) s)) as (s' & -> & Hs' & Hlook).
      exists s'. split; [done|]. split; [rewrite Hs'; by destruct s|].
      intros key. rewrite Hlook. simpl.
      destruct (decide (key ∈ dom files')) as [Hkey|Hkey].
      * rewrite lookup_delete_ne; [done|]. by intros ->.
      * destruct (decide (key = k)) as [->|Hne].
        -- rewrite lookup_delete_eq, (decide_True _ _ (list_elem_of_here k ks)).
           by destruct (decide (k ∈ ks)).
        -- rewrite lookup_delete_ne by done. apply decide_ext.
           rewrite elem_of_cons. split; [by right|]. by intros [|].
Qed.

Lemma sendCode_update_outcome W h0 key l s :
  uploads_succeed W ->
  is_Some (heap s !! l) ->
  uploaded_from W h0 (heap s) ->
  exists s',
    sendCode_update W (key, l) s = (Ok tt, s') /\
    files s' = <[key := l]> (files s) /\
    uploaded_from W h0 (heap s') /\
    (files s !! key <> Some l -> ~ asset_blob (heap s' !! l)) /\
    (forall l', ~ asset_blob (heap s !! l') -> heap s' !! l' = heap s !! l') /\
    (forall l', is_Some (heap s !! l') -> is_Some (heap s' !! l')) /\
    events s' = events s.
Proof.
  intros [Hup _] [file Hfile] Hfrom. unfold sendCode_update. unfold_monad.
  destruct (bool_decide (files s !! key = Some l)) eqn:Hsame.
  - apply bool_decide_eq_true in Hsame.
    rewrite bool_decide_eq_true_2 by (by rewrite Hsame). simpl.
    exists s. split; [done|]. split; [by rewrite insert_id|].
    repeat split; try done.
  - apply bool_decide_eq_false in Hsame. rewrite orb_true_r.
    unfold file_at. simpl. rewrite lookup_insert_eq. simpl. rewrite Hfile.
    destruct file as [[] [code|b]]; simpl.
    1-3: eexists; (split; [reflexivity|]); simpl; repeat split; try done;
         intros _ [b' Hb']; rewrite Hfile in Hb'; discriminate.
    unfold call_uploadAssetToS3. unfold_monad. simpl.
    match goal with
    | |- context [uploadAssetToS3 W ?h ?c ?a] =>
        destruct (Hup h c a) as [url Hurl]; rewrite Hurl
    end.
    simpl. eexists. split; [reflexivity|]. unfold write_contents. simpl.
    rewrite lookup_insert_eq. simpl. split; [done|].
    assert (Hnew : alter (fun f => mkFile (type f) (Str url)) l (heap s) !! l
                   = Some (mkFile ASSET (Str url)))
      by (rewrite lookup_alter_eq, Hfile; done).
    split; [|split; [|split; [|split; [|done]]]].
    + intros l'. destruct (decide (l' = l)) as [->|Hne].
      * right. destruct (Hfrom l) as [Heq|(b' & url' & hist & _ & Hstr & _)].
        -- exists b, url. eexists. rewrite <- Heq. by eauto.
        -- rewrite Hfile in Hstr. discriminate.
      * rewrite lookup_alter_ne by done. apply Hfrom.
    + intros _ [b' Hb']. rewrite Hnew in Hb'. discriminate.
    + intros l' Hl'. destruct (decide (l' = l)) as [->|Hne].
      * exfalso. apply Hl'. rewrite Hfile. by exists b.
      * by rewrite lookup_alter_ne.
    + intros l' Hl'. destruct (decide (l' = l)) as [->|Hne]; [by rewrite Hnew|].
      by rewrite lookup_alter_ne.
Qed.

Lemma sendCode_updates W h0 entries :
  uploads_succeed W ->
  NoDup entries.*1 ->
  forall s,
    (forall key l, In (key, l) entries -> is_Some (heap s !! l)) ->
    uploaded_from W h0 (heap s) ->
    exists s',
      forM_ entries (sendCode_update W) s = (Ok tt, s') /\
      (forall key,
         files s' !! key =
         match list_to_map (M := gmap string loc) entries !! key with
         | Some l => Some l
         | None => files s !! key
         end) /\
      uploaded_from W h0 (heap s') /\
      (forall key l, In (key, l) entries -> files s !! key <> Some l ->
                     ~ asset_blob (heap s' !! l)) /\
      (forall l', ~ asset_blob (heap s !! l') -> heap s' !! l' = heap s !! l') /\
      events s' = events s.
Proof.
  intros Hup. induction entries as [|[k l] entries IH]; intros Hnodup s Hheap Hfrom.
  - exists s. simpl. unfold_monad. repeat split; try done; by intros ? ? [].
  - simpl in Hnodup. apply NoDup_cons in Hnodup as [Hk Hnodup].
    destruct (sendCode_update_outcome W h0 k l s Hup) as
      (s1 & Hrun1 & Hf1 & Hfrom1 & Hnew1 & Hkeep1 & Hsome1 & Hev1);
      [apply (Hheap k l); by left|done|].
    destruct (IH Hnodup s1) as (s2 & Hrun2 & Hf2 & Hfrom2 & Hnew2 & Hkeep2 & Hev2);
      [intros key l' Hin; apply Hsome1, (Hheap key l'); by right|done|].
    exists s2.
    change (forM_ ((k, l) :: entries) (sendCode_update W))
      with (sendCode_update W (k, l);; forM_ entries (sendCode_update W)).
    unfold_monad. rewrite Hrun1, Hrun2.
    split; [done|]. split; [|split; [done|split; [|split]]].
    + intros key. rewrite Hf2, Hf1, list_to_map_cons.
      destruct (decide (k = key)) as [->|Hne].
      * rewrite !lookup_insert_eq.
        destruct (list_to_map entries !! key) as [l'|] eqn:Hl'; [|done].
        exfalso. apply Hk. apply list_elem_of_fmap. exists (key, l').
        split; [done|]. by apply elem_of_list_to_map.
      * by rewrite !lookup_insert_ne by done.
    + intros key l' [Heq|Hin] Hchanged.
      * injection Heq as <- <-. rewrite Hkeep2 by (by apply Hnew1). by apply Hnew1.
      * apply (Hnew2 key l' Hin). rewrite Hf1.
        destruct (decide (k = key)) as [->|Hne]; [|by rewrite lookup_insert_ne].
        exfalso. apply Hk. apply list_elem_of_fmap. exists (key, l').
        split; [done|]. by apply list_elem_of_In.
    + intros l' Hl'. rewrite Hkeep2; [by apply Hkeep1|]. by rewrite Hkeep1.
    + congruence.
Qed.




(** ** A small program logic for the monad *)

Section Logic.
Context (I : Session -> Prop).

Lemma run_ok_ret {A} t (Q : A -> Prop) a s : I s -> Q a -> run_ok I t Q (ret a) s.
Proof. by split. Qed.

Lemma run_ok_throw {A} (Q : A -> Prop) e s : I s -> run_ok I true Q (throw e) s.
Proof. by split. Qed.

Lemma run_ok_bind {A B} t (Q1 : A -> Prop) (Q2 : B -> Prop) m (k : A -> M B) s :
  run_ok I t Q1 m s ->
  (forall a s', I s' -> Q1 a -> run_ok I t Q2 (k a) s') ->
  run_ok I t Q2 (m ≫= k) s.
Proof.
  unfold run_ok, mbind, M_bind, bind. intros Hm Hk.
  destruct (m s) as [[a|e|] s']; [|done|done].
  destruct Hm as [Hs' Ha]. by apply Hk.
Qed.

Lemma run_ok_get {A} t (Q : A -> Prop) (k : Session -> M A) s :
  run_ok I t Q (k s) s -> run_ok I t Q (get ≫= k) s.
Proof. done. Qed.

Lemma run_ok_modify t f s : I (f s) -> run_ok I t (fun _ => True) (modify f) s.
Proof. by split. Qed.

Lemma run_ok_weaken {A} t (Q Q' : A -> Prop) m s :
  run_ok I false Q m s -> (forall a, Q a -> Q' a) -> run_ok I t Q' m s.
Proof.
  unfold run_ok. intros Hm HQ. destruct (m s) as [[a|e|] s']; [|by destruct Hm|done].
  destruct Hm. split; by auto.
Qed.

Lemma run_ok_post {A} t (Q Q' : A -> Prop) m s :
  run_ok I t Q m s -> (forall a, Q a -> Q' a) -> run_ok I t Q' m s.
Proof.
  unfold run_ok. intros Hm HQ. destruct (m s) as [[a|e|] s']; [|done|done].
  destruct Hm. split; by auto.
Qed.

Lemma run_ok_try_catch {A} t (Q : A -> Prop) m h s :
  run_ok I true Q m s ->
  (forall e s', I s' -> run_ok I t Q (h e) s') ->
  run_ok I t Q (try_catch m h) s.
Proof.
  unfold run_ok, try_catch. intros Hm Hh.
  destruct (m s) as [[a|e|] s']; [done| |done].
  destruct Hm as [Hs' _]. by apply Hh.
Qed.

Lemma run_ok_try_finally {A} t (Q : A -> Prop) m f s :
  run_ok I t Q m s ->
  (forall s', I s' -> run_ok I false (fun _ => True) f s') ->
  run_ok I t Q (try_finally m f) s.
Proof.
  unfold run_ok, try_finally. intros Hm Hf.
  destruct (m s) as [[a|e|] s']; [| |done].
  - destruct Hm as [Hs' Ha]. specialize (Hf s' Hs').
    destruct (f s') as [[[]|e|] s'']; [|by destruct Hf|done].
    by destruct Hf.
  - destruct Hm as [Hs' Ht]. specialize (Hf s' Hs').
    destruct (f s') as [[[]|e'|] s'']; [|by destruct Hf|done].
    by destruct Hf.
Qed.

Lemma run_ok_mapM {A B} t (Q : A -> B -> Prop) (f : A -> M B) xs s :
  I s ->
  (forall x s', In x xs -> I s' -> run_ok I t (Q x) (f x) s') ->
  run_ok I t (Forall2 Q xs) (mapM f xs) s.
Proof.
  revert s. induction xs as [|x xs IH]; intros s Hs Hf; simpl.
  - apply run_ok_ret; [done|constructor].
  - eapply run_ok_bind; [apply Hf; [by left|done]|].
    intros y s' Hs' Hy. eapply run_ok_bind.
    + apply IH; [done|]. intros x' s'' Hin. apply Hf. by right.
    + intros ys s'' Hs'' Hys. apply run_ok_ret; [done|by constructor].
Qed.

Lemma run_ok_forM_ {A} t (f : A -> M unit) xs s :
  I s ->
  (forall x s', In x xs -> I s' -> run_ok I t (fun _ => True) (f x) s') ->
  run_ok I t (fun _ => True) (forM_ xs f) s.
Proof.
  revert s. induction xs as [|x xs IH]; intros s Hs Hf; simpl.
  - by apply run_ok_ret.
  - eapply run_ok_bind; [apply Hf; [by left|done]|].
    intros [] s' Hs' _. apply IH; [done|]. intros x' s'' Hin. apply Hf. by right.
Qed.
End Logic.

#[local] Instance engine_step_refl W : Reflexive (engine_step W).
Proof.
  intros s. split; try done; try (by left).
  by exists [].
Qed.

#[local] Instance engine_step_trans W : Transitive (engine_step W).
Proof.
  intros s1 s2 s3 [] []. split; try congruence.
  - destruct step_events0 as (new1 & Hev1 & Hnew1).
    destruct step_events1 as (new2 & Hev2 & Hnew2).
    exists (new2 ++ new1). rewrite Hev2, Hev1, app_assoc. split; [done|].
    apply Forall_app. split; [|done]. by rewrite <- step_isResolving0.
  - destruct step_loading0 as [<-|?], step_loading1 as [->|?]; by auto.
  - by etrans.
  - intros Hb Hc. destruct (step_reserved0 Hb Hc) as [Hc2 Hd2].
    destruct (step_reserved1 Hb Hc2) as [Hc3 Hd3]. split; [done|].
    intros k Hk. by rewrite Hd3, Hd2.
Qed.

(** ** Steps of the engine *)

Section Engine.
Context (W : World) (s0 : Session).

Let I := engine_step W s0.

Lemma keep_emit s e :
  I s -> engine_event (isResolving s0) e -> I (set_events (e :: events s) s).
Proof.
  intros [Hf Hh Hp Hc Hv Hr (new & He & Hnew) Hl Hd Hres] Hevent.
  split; simpl; try done.
  exists (e :: new). rewrite He. split; [done|]. by constructor.
Qed.

Lemma keep_record s log : I s -> I (set_net log s).
Proof. intros []. by split. Qed.

Lemma keep_loadingMessage s :
  I s -> I (set_loadingMessage (Some "Installing dependencies") s).
Proof. intros []. split; simpl; try done. by right. Qed.

Lemma keep_promises s id d :
  I s ->
  (bundler_clean W -> cache_clean s0 -> includes reserved (d_name d) = false) ->
  I (set_promises (<[id := d]> (_promises s)) s).
Proof.
  intros [Hf Hh Hp Hc Hv Hr He Hl Hd Hres] Hclean. split; simpl; try done.
  intros Hb Hc0. destruct (Hres Hb Hc0) as [Hcache Hdeps]. split; [|done].
  intros id' d'. unfold cache_clean in Hcache. simpl.
  destruct (decide (id = id')) as [->|Hne].
  - rewrite lookup_insert_eq. intros [= <-]. by apply Hclean.
  - rewrite lookup_insert_ne by done. apply Hcache.
Qed.

Lemma keep_dependencies s (m : gmap string string) :
  I s ->
  (bundler_clean W -> cache_clean s0 ->
   forall k, includes reserved k = true -> m !! k = None) ->
  I (set_dependencies (m ∪ dependencies s) s).
Proof.
  intros [Hf Hh Hp Hc Hv Hr He Hl Hd Hres] Hm. split; simpl; try done.
  - etrans; [exact Hd|]. rewrite dom_union. apply union_subseteq_r.
  - intros Hb Hc0. destruct (Hres Hb Hc0) as [Hcache Hdeps]. split; [done|].
    intros k Hk. rewrite lookup_union_r by (by apply Hm). by apply Hdeps.
Qed.

Lemma run_sendStateEvent t s :
  I s -> run_ok I t (fun _ => True) _sendStateEvent s.
Proof.
  intros Hs. unfold _sendStateEvent. apply run_ok_get, run_ok_modify.
  apply keep_emit; [done|]. simpl. by destruct Hs.
Qed.

Lemma run_sendLoadingEvent t s :
  I s -> run_ok I t (fun _ => True) _sendLoadingEvent s.
Proof.
  intros Hs. unfold _sendLoadingEvent. apply run_ok_get.
  destruct (negb (truthy (loadingMessage s))); [by apply run_ok_ret|].
  destruct (pubnub s) eqn:Hp; simpl; [|by apply run_ok_ret].
  unfold publish. apply run_ok_get. rewrite Hp. apply run_ok_modify.
  by apply keep_emit.
Qed.

Lemma run_tryFetchDependencyAsync name version s :
  I s ->
  run_ok I true
    (fun d => bundler_clean W -> includes reserved (d_name d) = false)
    (_tryFetchDependencyAsync W name version) s.
Proof.
  intros Hs. unfold run_ok, _tryFetchDependencyAsync.
  destruct (_tryFetch_loop_outcome W (bundle_url name version) 32 0 None s)
    as (ds & _ & Hrun); [lia|simpl; lia|done|].
  destruct (_tryFetch_loop W 32 (bundle_url name version) 0 None s) as [[d|e|] s'];
    [| |done].
  - destruct Hrun as (_ & _ & Hans & ->). split; [by apply keep_record|].
    intros Hb. by apply (Hb _ _ _ Hans).
  - destruct Hrun as [(_ & _ & ->)|(_ & _ & ->)]; (split; [by apply keep_record|done]).
Qed.

Lemma run_checkS3ForDepencencyAsync name version s :
  I s -> run_ok I false (fun _ => True) (_checkS3ForDepencencyAsync W name version) s.
Proof.
  intros Hs. unfold _checkS3ForDepencencyAsync.
  eapply run_ok_bind.
  - apply (run_ok_mapM I false (fun _ _ => True)); [done|].
    intros platform s' _ Hs'. apply run_ok_get.
    eapply run_ok_bind; [apply run_ok_modify; by apply keep_record|].
    intros _ s'' Hs'' _. by apply run_ok_ret.
  - intros results s' Hs' _. by apply run_ok_ret.
Qed.

Lemma run_maybeFetchDependencyAsync t name version s :
  I s ->
  includes reserved name = false ->
  run_ok I t
    (fun d => bundler_clean W -> cache_clean s0 ->
              includes reserved (d_name d) = false)
    (_maybeFetchDependencyAsync W name version) s.
Proof.
  intros Hs Hname. eapply run_ok_weaken; [|by intros d Hd; exact Hd].
  unfold _maybeFetchDependencyAsync. apply run_ok_get.
  destruct (_promises s !! _) as [data|] eqn:Hcache.
  - apply run_ok_ret; [done|]. intros Hb Hc0.
    destruct Hs as [_ _ _ _ _ _ _ _ _ Hres].
    destruct (Hres Hb Hc0) as [Hclean _]. by apply (Hclean _ _ Hcache).
  - apply run_ok_try_catch.
    + eapply run_ok_bind; [by apply run_tryFetchDependencyAsync|].
      intros d s' Hs' Hd. eapply run_ok_bind.
      * apply run_ok_modify. apply keep_promises; [done|]. by auto.
      * intros _ s'' Hs'' _. apply run_ok_ret; [done|]. by auto.
    + intros e s' Hs'. eapply run_ok_bind;
        [by apply run_checkS3ForDepencencyAsync|].
      intros [] s'' Hs'' _.
      * eapply run_ok_bind; [apply run_ok_modify; by apply keep_promises|].
        intros _ s3 Hs3 _. by apply run_ok_ret.
      * eapply run_ok_bind; [apply run_ok_modify; by apply keep_promises|].
        intros _ s3 Hs3 _. apply run_ok_get.
        eapply (run_ok_bind I false (fun _ => True)).
        -- destruct (dependencyErrorListener s3); [|by apply run_ok_ret].
           apply run_ok_modify. by apply keep_emit.
        -- intros _ s4 Hs4 _. by apply run_ok_ret.
Qed.

Lemma run_supportsFeature t feature s :
  I s -> run_ok I t (fun _ => True) (supportsFeature W feature) s.
Proof. intros Hs. unfold supportsFeature. apply run_ok_get. by apply run_ok_ret. Qed.

Lemma run_lift {A} (r : Reply A) s : I s -> run_ok I true (fun _ => True) (lift r) s.
Proof. intros Hs. destruct r; [by apply run_ok_ret|by apply run_ok_throw]. Qed.

Lemma pick_modules_clean scanned name :
  In name (keys (pick_modules scanned)) -> includes reserved name = false.
Proof.
  intros Hin. apply elem_of_keys in Hin as [v Hv].
  unfold pick_modules in Hv. apply map_lookup_filter_Some in Hv as [_ Hp].
  simpl in Hp. apply Is_true_true, andb_true_iff in Hp as [_ Hp].
  by apply negb_true_iff in Hp.
Qed.

Lemma collect_peers_clean results k :
  includes reserved k = true -> collect_peers results !! k = None.
Proof.
  intros Hk. unfold collect_peers.
  assert (Hgen : forall acc : gmap string string, acc !! k = None ->
    foldl (fun peerDependencies it =>
             match d_dependencies it with
             | Some deps =>
                 filter (fun kv => Is_true (negb (includes reserved kv.1))) deps
                   ∪ peerDependencies
             | None => peerDependencies
             end) acc results !! k = None).
  { induction results as [|it results IH]; intros acc Hacc; simpl; [done|].
    apply IH. destruct (d_dependencies it) as [deps|]; [|done].
    apply lookup_union_None. split; [|done].
    apply map_lookup_filter_None. right. intros v _. simpl. rewrite Hk. by intros []. }
  by apply Hgen.
Qed.

Lemma assign_versions_clean its acc k :
  Forall (fun d => includes reserved (d_name d) = false) its ->
  includes reserved k = true ->
  acc !! k = None -> assign_versions its acc !! k = None.
Proof.
  intros Hits Hk. revert acc. unfold assign_versions.
  induction Hits as [|it its Hit Hits IH]; intros acc Hacc; simpl; [done|].
  apply IH. rewrite lookup_insert_ne; [done|].
  intros <-. rewrite Hit in Hk. discriminate.
Qed.

Lemma Forall2_right {A B} (P : B -> Prop) (xs : list A) (ys : list B) :
  Forall2 (fun _ y => P y) xs ys -> Forall P ys.
Proof. induction 1; by constructor. Qed.

Lemma keep_write_contents s key c : I s -> I (write_contents key c s).
Proof.
  intros [Hf Hh Hp Hc Hv Hr He Hl Hd Hres]. unfold write_contents.
  destruct (files s !! key) as [l|]; [|done].
  split; simpl; try done. by rewrite dom_alter_L.
Qed.

Lemma run_findDependenciesOnceAsync t file s :
  I s -> run_ok I t (fun _ => True) (_findDependenciesOnceAsync W file) s.
Proof.
  intros Hs. apply (run_ok_weaken I t (fun _ => True)); [|done].
  unfold _findDependenciesOnceAsync.
  eapply run_ok_bind; [by apply run_supportsFeature|].
  intros ai s1 Hs1 _. destruct ai; simpl; [|by apply run_ok_ret].
  destruct (findModuleDependencies W file) as [scanned|e]; [|by apply run_ok_ret].
  apply run_ok_get.
  destruct (_ || _); [by apply run_ok_ret|].
  eapply run_ok_bind; [by apply run_sendStateEvent|]. intros _ s2 Hs2 _.
  eapply run_ok_bind; [apply run_ok_modify; by apply keep_loadingMessage|].
  intros _ s3 Hs3 _.
  eapply run_ok_bind; [by apply run_sendLoadingEvent|]. intros _ s4 Hs4 _.
  apply run_ok_try_finally; [|intros; by apply run_sendStateEvent].
  apply run_ok_try_catch; [|intros; by apply run_ok_ret].
  eapply run_ok_bind.
  { apply (run_ok_mapM I true
      (fun _ d => bundler_clean W -> cache_clean s0 ->
                  includes reserved (d_name d) = false)); [done|].
    intros name s' Hin Hs'. apply run_maybeFetchDependencyAsync; [done|].
    by apply pick_modules_clean in Hin. }
  intros results s5 Hs5 Hresults. apply Forall2_right in Hresults.
  eapply run_ok_bind.
  { apply run_ok_modify. apply keep_dependencies; [done|].
    intros _ _ k Hk. by apply collect_peers_clean. }
  intros _ s6 Hs6 _.
  eapply run_ok_bind; [by apply run_sendStateEvent|]. intros _ s7 Hs7 _.
  eapply run_ok_bind.
  { apply (run_ok_mapM I true
      (fun _ d => bundler_clean W -> cache_clean s0 ->
                  includes reserved (d_name d) = false)); [done|].
    intros name s' Hin Hs'. apply run_maybeFetchDependencyAsync; [done|].
    apply elem_of_keys in Hin as [v Hv].
    destruct (includes reserved name) eqn:Hr; [|done].
    by rewrite collect_peers_clean in Hv. }
  intros peers s8 Hs8 Hpeers. apply Forall2_right in Hpeers.
  eapply (run_ok_bind I true (fun _ => True)).
  { destruct peers; [by apply run_ok_ret|].
    eapply run_ok_bind; [by apply run_lift|]. intros; by apply run_ok_ret. }
  intros code s9 Hs9 _.
  eapply run_ok_bind; [by apply run_lift|]. intros code' s10 Hs10 _.
  eapply run_ok_bind.
  { apply run_ok_modify. apply keep_dependencies; [done|].
    intros Hb Hc0 k Hk.
    apply assign_versions_clean; [|done|].
    - eapply Forall_impl; [exact Hresults|]. by auto.
    - apply assign_versions_clean; [|done|done].
      eapply Forall_impl; [exact Hpeers|]. by auto. }
  intros _ s11 Hs11 _.
  eapply run_ok_bind; [by apply run_sendStateEvent|].
  intros. by apply run_ok_ret.
Qed.

(** The loop of [_handleFindDependenciesAsync] with its [catch]. *)
Lemma run_handle_files ks s :
  I s ->
  run_ok I false (fun _ => True)
    (try_catch
       (forM_ ks (fun key =>
          if endsWith key ".js" then
            s1 ← get;
            match file_at s1 key with
            | None => throw TypeError
            | Some file =>
                let codeAtStartOfFindDependencies := contents file in
                codeWithVersions ← _findDependenciesOnceAsync W (contents file);
                s2 ← get;
                match file_at s2 key with
                | None => throw TypeError
                | Some file' =>
                    if bool_decide (contents file' = codeAtStartOfFindDependencies)
                    then
                      if truthy codeWithVersions then
                        modify (write_contents key
                                  (Str (default "" codeWithVersions)));;
                        _sendStateEvent
                      else ret tt
                    else ret tt
                end
            end
          else ret tt))
       (fun e => emit (EvConsoleError e))) s.
Proof.
  intros Hs. apply run_ok_try_catch.
  - apply run_ok_forM_; [done|]. intros key s1 _ Hs1.
    destruct (endsWith key ".js"); [|by apply run_ok_ret].
    apply run_ok_get. destruct (file_at s1 key) as [file|]; [|by apply run_ok_throw].
    eapply run_ok_bind; [by apply run_findDependenciesOnceAsync|].
    intros codeWithVersions s2 Hs2 _. apply run_ok_get.
    destruct (file_at s2 key) as [file'|]; [|by apply run_ok_throw].
    destruct (bool_decide _); [|by apply run_ok_ret].
    destruct (truthy codeWithVersions); [|by apply run_ok_ret].
    eapply run_ok_bind; [apply run_ok_modify; by apply keep_write_contents|].
    intros _ s3 Hs3 _. by apply run_sendStateEvent.
  - intros e s1 Hs1. apply run_ok_modify. by apply keep_emit.
Qed.
End Engine.

(** ** The dependency engine as a whole *)

Lemma _handleFindDependenciesAsync_outcome (W : World) (s : Session) :
  exists s',
    _handleFindDependenciesAsync W s = (Ok tt, s') /\
    match sdkSupportsFeature W (sdkVersion s) ARBITRARY_IMPORTS, isResolving s with
    | true, false =>
        exists s2, engine_step W (set_isResolving true s) s2 /\ s' = released s2
    | _, _ => s' = s
    end.
Proof.
  pose proof (run_handle_files W (set_isResolving true s) (keys (files s))
                (set_isResolving true s) (reflexivity _)) as Hrun.
  unfold run_ok in Hrun.
  unfold _handleFindDependenciesAsync, supportsFeature, try_finally.
  unfold_monad.
  destruct (sdkSupportsFeature W (sdkVersion s) ARBITRARY_IMPORTS); simpl;
    [|by exists s].
  destruct (isResolving s) eqn:Hres; [by exists s|]. simpl.
  match type of Hrun with
  | match ?run with _ => _ end => destruct run as [[[]|e|] s2]
  end; [|by destruct Hrun|done].
  destruct Hrun as [Hstep _]. unfold _sendStateEvent. unfold_monad. simpl.
  eexists. split; [reflexivity|]. by exists s2.
Qed.


(** ** Publication *)

#[local] Instance ledger_step_refl : Reflexive ledger_step.
Proof. intros s. by split. Qed.

Lemma run_handleUploadCodeAsync W s :
  run_ok (ledger_step s) true (fun _ => True) (_handleUploadCodeAsync W) s.
Proof.
  set (I := ledger_step s).
  assert (Hdiff : forall s1 v, I s1 -> I (set_diff v s1)) by (intros ? ? []; by split).
  assert (Hcode : forall s1 v, I s1 -> I (set_s3code v s1)) by (intros ? ? []; by split).
  assert (Hurl : forall s1 v, I s1 -> I (set_s3url v s1)) by (intros ? ? []; by split).
  assert (Hnet : forall s1 v, I s1 -> I (set_net v s1)) by (intros ? ? []; by split).
  assert (Hasset : forall c s1, I s1 ->
    run_ok I true (fun _ => True) (call_uploadAssetToS3 W c) s1).
  { intros c s1 Hs1. unfold call_uploadAssetToS3. apply run_ok_get.
    eapply run_ok_bind; [apply run_ok_modify; by apply Hnet|].
    intros _ s2 Hs2 _. destruct (uploadAssetToS3 W _ _ _);
      [by apply run_ok_ret|by apply run_ok_throw]. }
  assert (Hupload : forall c s1, I s1 ->
    run_ok I true (fun _ => True) (call_uploadCodeToS3 W c) s1).
  { intros c s1 Hs1. unfold call_uploadCodeToS3. apply run_ok_get.
    eapply run_ok_bind; [apply run_ok_modify; by apply Hnet|].
    intros _ s2 Hs2 _. destruct (uploadCodeToS3 W _ _ _);
      [by apply run_ok_ret|by apply run_ok_throw]. }
  assert (Hkey : forall key s1, I s1 ->
    run_ok I true (fun _ => True) (_uploadHelper_key W key) s1).
  { intros key s1 Hs1. unfold _uploadHelper_key. apply run_ok_get.
    destruct (file_at s1 key) as [file|]; [|by apply run_ok_ret].
    eapply (run_ok_bind I true (fun _ => True)).
    - destruct (contents file) as [code|b].
      + destruct (startsWith code S3_BUCKET_URL); [|destruct (truthy _)].
        * eapply run_ok_bind; [apply run_ok_modify; by apply Hdiff|].
          intros _ s2 Hs2 _.
          eapply run_ok_bind; [apply run_ok_modify; by apply Hcode|].
          intros _ s3 Hs3 _. apply run_ok_modify. by apply Hurl.
        * apply run_ok_modify. by apply Hdiff.
        * apply run_ok_modify. by apply Hdiff.
      + eapply run_ok_bind; [apply run_ok_modify; by apply Hcode|].
        intros _ s2 Hs2 _.
        eapply run_ok_bind; [apply run_ok_modify; by apply Hdiff|].
        intros _ s3 Hs3 _.
        eapply run_ok_bind; [by apply Hasset|].
        intros url s4 Hs4 _. apply run_ok_modify. by apply Hurl.
    - intros _ s2 Hs2 _. apply run_ok_get. by apply run_ok_ret. }
  assert (Hspill : forall stack size s1, I s1 ->
    run_ok I true (fun _ => True) (spill W stack size) s1).
  { induction stack as [|top stack IH]; intros size s1 Hs1; simpl.
    - destruct (bool_decide _); by apply run_ok_ret.
    - destruct (bool_decide _); [|by apply run_ok_ret].
      apply run_ok_get. destruct (file_at s1 _) as [file|]; [|by apply run_ok_throw].
      eapply run_ok_bind; [apply run_ok_modify; by apply Hcode|].
      intros _ s2 Hs2 _.
      eapply run_ok_bind; [apply run_ok_modify; by apply Hdiff|].
      intros _ s3 Hs3 _.
      eapply run_ok_bind; [by apply Hupload|].
      intros url s4 Hs4 _.
      eapply run_ok_bind; [apply run_ok_modify; by apply Hurl|].
      intros _ s5 Hs5 _. apply run_ok_get. by apply IH. }
  unfold _handleUploadCodeAsync, _uploadHelper.
  eapply (run_ok_bind I true (fun _ => True)).
  - apply run_ok_get. eapply run_ok_bind.
    + apply (run_ok_mapM I true (fun _ _ => True)); [apply ledger_step_refl|].
      intros key s1 _ Hs1. by apply Hkey.
    + intros pushes s1 Hs1 _. by apply run_ok_ret.
  - intros fileSize s1 Hs1 _. apply run_ok_get.
    destruct (bool_decide _); [by apply Hspill|by apply run_ok_ret].
Qed.

Lemma engine_event_no_code r e : engine_event r e -> no_code e.
Proof. destruct e as [| ? [] | | |]; simpl; done. Qed.

Lemma file_at_is_Some s s' key :
  files s' = files s -> dom (heap s') = dom (heap s) ->
  is_Some (file_at s' key) <-> is_Some (file_at s key).
Proof.
  intros Hf Hh. unfold file_at. rewrite Hf.
  destruct (files s !! key) as [l|]; simpl; [|done].
  by rewrite <- !elem_of_dom, Hh.
Qed.

(** What a caller that is not itself resolving sees of a run of the engine. *)
Lemma _handleFindDependenciesAsync_summary (W : World) (s : Session) :
  isResolving s = false ->
  exists s1,
    _handleFindDependenciesAsync W s = (Ok tt, s1) /\
    files s1 = files s /\ dom (heap s1) = dom (heap s) /\
    pubnub s1 = pubnub s /\ channel s1 = channel s /\
    sdkVersion s1 = sdkVersion s /\ isResolving s1 = false /\
    (loadingMessage s1 = None \/ s1 = s) /\
    exists new, events s1 = new ++ events s /\ Forall no_code new.
Proof.
  intros Hres. destruct (_handleFindDependenciesAsync_outcome W s) as (s1 & Hrun & Hs1).
  exists s1. split; [exact Hrun|]. rewrite Hres in Hs1.
  destruct (sdkSupportsFeature W (sdkVersion s) ARBITRARY_IMPORTS).
  - destruct Hs1 as (s2 & [Hf Hh Hp Hc Hv Hr (new & He & Hnew) _ _ _] & ->).
    simpl in *. do 6 (split; [done|]). split; [by left|].
    exists (EvState (getState (set_isResolving false (set_loadingMessage None s2)))
            :: new).
    rewrite He. split; [done|]. constructor; [done|].
    eapply Forall_impl; [exact Hnew|]. apply engine_event_no_code.
  - subst s1. do 6 (split; [done|]). split; [by right|]. by exists [].
Qed.

(** The undebounced publish once it is past its two guards: the engine has
    run (or was skipped) and left [s1]; what follows is the snapshot and the
    [CODE] envelope, or the legacy envelope. *)
Lemma _publishNotDebouncedAsync_code_path (W : World) (s : Session) :
  truthy (loadingMessage s) = false ->
  isResolving s = false ->
  exists s1 new,
    files s1 = files s /\ dom (heap s1) = dom (heap s) /\
    pubnub s1 = pubnub s /\ channel s1 = channel s /\
    sdkVersion s1 = sdkVersion s /\ isResolving s1 = false /\
    (loadingMessage s1 = None \/ s1 = s) /\
    events s1 = new ++ events s /\ Forall no_code new /\
    _publishNotDebouncedAsync W s =
      let metadata := {| expoSdkVersion := sdkVersion s1;
                         fingerprint := hostFingerprint W |} in
      if sdkSupportsFeature W (sdkVersion s1) MULTIPLE_FILES then
        match _handleUploadCodeAsync W s1 with
        | (Ok _, s2) => publish (MsgCode (diff s2) (s3url s2) metadata) s2
        | (Throw e, s2) => (Throw e, s2)
        | (OutOfFuel, s2) => (OutOfFuel, s2)
        end
      else
        match file_at s1 "app.js" with
        | Some file => publish (MsgLegacyCode (contents file) metadata) s1
        | None => (Throw TypeError, s1)
        end.
Proof.
  intros Hloading Hres.
  assert (Hengine : exists s1 new,
    (if sdkSupportsFeature W (sdkVersion s) ARBITRARY_IMPORTS
     then _handleFindDependenciesAsync W s else (Ok tt, s)) = (Ok tt, s1) /\
    files s1 = files s /\ dom (heap s1) = dom (heap s) /\
    pubnub s1 = pubnub s /\ channel s1 = channel s /\
    sdkVersion s1 = sdkVersion s /\ isResolving s1 = false /\
    (loadingMessage s1 = None \/ s1 = s) /\
    events s1 = new ++ events s /\ Forall no_code new).
  { destruct (sdkSupportsFeature W (sdkVersion s) ARBITRARY_IMPORTS).
    - destruct (_handleFindDependenciesAsync_summary W s Hres)
        as (s1 & Hrun & Hf & Hh & Hp & Hc & Hv & Hr & Hl & new & He & Hnew).
      by exists s1, new.
    - exists s, []. repeat split; try done. by right. }
  destruct Hengine as (s1 & new & Hrun & Hf & Hh & Hp & Hc & Hv & Hr & Hl & He & Hnew).
  exists s1, new. do 9 (split; [done|]).
  unfold _publishNotDebouncedAsync, supportsFeature, _getAnalyticsMetadata.
  unfold_monad. rewrite Hloading.
  destruct (sdkSupportsFeature W (sdkVersion s) ARBITRARY_IMPORTS);
    [rewrite Hrun|injection Hrun as <-]; rewrite Hr; simpl;
    destruct (sdkSupportsFeature W _ MULTIPLE_FILES); try done;
    try (by destruct (_handleUploadCodeAsync W _) as [[[]|e|] s2]);
    by destruct (file_at _ "app.js").
Qed.

Lemma publish_outcome message s :
  publish message s =
  if pubnub s then (Ok tt, set_events (EvPublish (channel s) message :: events s) s)
  else (Throw TypeError, s).
Proof. unfold publish. unfold_monad. by destruct (pubnub s). Qed.

Lemma _publishNotDebouncedAsync_uninterrupted (W : World) (s : Session) :
  wf_loading s ->
  let run := _publishNotDebouncedAsync W s in
  match loadingMessage s, isResolving s with
  | Some m, _ =>
      run = (Ok tt,
             if pubnub s
             then set_events (EvPublish (channel s) (MsgLoading m) :: events s) s
             else s)
  | None, true => run = (Ok tt, s)
  | None, false =>
      loadingMessage run.2 = None /\ isResolving run.2 = false /\
      exists new, events run.2 = new ++ events s /\ Forall no_code (tail new)
  end.
Proof.
  intros Hwf run. unfold wf_loading in Hwf.
  destruct (loadingMessage s) as [m|] eqn:Hm.
  - destruct Hwf as [|[= ->]]; [done|]. subst run.
    unfold _publishNotDebouncedAsync, _sendLoadingEvent. unfold_monad.
    cbv beta. rewrite Hm. simpl. rewrite !Hm. simpl.
    destruct (pubnub s) eqn:Hp; simpl; [|done].
    unfold publish. unfold_monad. by rewrite Hp.
  - destruct (isResolving s) eqn:Hres.
    + subst run. unfold _publishNotDebouncedAsync, supportsFeature. unfold_monad.
      cbv beta. rewrite Hm. simpl.
      destruct (_handleFindDependenciesAsync_outcome W s) as (s' & Hrun & Hs').
      rewrite Hres in Hs'.
      assert (s' = s) as -> by
        (by destruct (sdkSupportsFeature W (sdkVersion s) ARBITRARY_IMPORTS)).
      destruct (sdkSupportsFeature W (sdkVersion s) ARBITRARY_IMPORTS);
        [rewrite Hrun|]; by rewrite Hres.
    + destruct (_publishNotDebouncedAsync_code_path W s) as
        (s1 & new & Hf & Hh & Hp & Hc & Hv & Hr & Hl & He & Hnew & Hrun);
        [by rewrite Hm|done|].
      assert (Hl1 : loadingMessage s1 = None)
        by (destruct Hl as [Hl|Hl]; [done|by rewrite Hl]).
      subst run. rewrite Hrun. clear Hrun. cbv zeta.
      assert (Hlast : forall message s2,
        loadingMessage s2 = None -> isResolving s2 = false -> events s2 = events s1 ->
        loadingMessage (publish message s2).2 = None /\
        isResolving (publish message s2).2 = false /\
        exists new', events (publish message s2).2 = new' ++ events s /\
                     Forall no_code (tail new')).
      { intros message s2 Hl2 Hr2 He2. rewrite publish_outcome.
        destruct (pubnub s2); simpl; (split; [done|]); (split; [done|]).
        - exists (EvPublish (channel s2) message :: new). by rewrite He2, He.
        - exists new. rewrite He2, He. split; [done|]. by apply Forall_tail. }
      destruct (sdkSupportsFeature W (sdkVersion s1) MULTIPLE_FILES).
      * pose proof (run_handleUploadCodeAsync W s1) as Hup. unfold run_ok in Hup.
        destruct (_handleUploadCodeAsync W s1) as [[[]|e|] s2]; [| |done].
        -- destruct Hup as [[] _]. apply Hlast; congruence.
        -- destruct Hup as [[] _]. simpl. split; [congruence|]. split; [congruence|].
           exists new. split; [congruence|]. by apply Forall_tail.
      * destruct (file_at s1 "app.js") as [file|]; [by apply Hlast|].
        simpl. do 2 (split; [done|]). exists new. split; [done|]. by apply Forall_tail.
Qed.

(** C8 (as amended): the undebounced publish tests the two flags once
    each.  Called with [loadingMessage] set, it sends the [LOADING_MESSAGE]
    envelope that carries it and nothing else, before any [await].  Called
    with [loadingMessage] null and [isResolving] true, it awaits the engine,
    which returns at once, and when it goes on with [isResolving] still true
    it returns without publishing.  A call that passes both tests and runs to
    its end with nothing else in between publishes no [CODE] envelope before
    its last event, and ends with [loadingMessage] null and [isResolving]
    false.  The tests are not made again after the wait for the uploads. *)
Theorem _publishNotDebouncedAsync_guards (W : World) (s : Session) :
  wf_loading s ->
  let run := _publishNotDebouncedAsync W s in
  match loadingMessage s, isResolving s with
  | Some m, _ =>
      run = (Ok tt,
             if pubnub s
             then set_events (EvPublish (channel s) (MsgLoading m) :: events s) s
             else s) /\
      forall in_flight,
        Async._publishNotDebouncedAsync W (Async.mkState s in_flight) =
          (Async.Settled (Ok tt), Async.mkState run.2 in_flight)
  | None, true =>
      run = (Ok tt, s) /\
      forall in_flight,
        let st := Async.mkState s in_flight in
        if sdkSupportsFeature W (sdkVersion s) ARBITRARY_IMPORTS then
          exists resume,
            Async._publishNotDebouncedAsync W st =
              (Async.Await Async.Microtask resume, st) /\
            forall st',
              isResolving (Async.this st') = true ->
              resume st' = (Async.Settled (Ok tt), st')
        else
          Async._publishNotDebouncedAsync W st = (Async.Settled (Ok tt), st)
  | None, false =>
      loadingMessage run.2 = None /\ isResolving run.2 = false /\
      exists new, events run.2 = new ++ events s /\ Forall no_code (tail new)
  end.
Proof.
  intros Hwf run.
  pose proof (_publishNotDebouncedAsync_uninterrupted W s Hwf) as Hrun.
  fold run in Hrun. cbv zeta in Hrun.
  destruct (loadingMessage s) as [m|] eqn:Hm; [|destruct (isResolving s) eqn:Hres].
  - split; [exact Hrun|]. intros in_flight. rewrite Hrun.
    unfold wf_loading in Hwf. rewrite Hm in Hwf. destruct Hwf as [|[= ->]]; [done|].
    unfold Async._publishNotDebouncedAsync.
    unfold mbind, Async.AM_bind, Async.bind at 1, Async.get. simpl. rewrite Hm. simpl.
    unfold Async.sync, _sendLoadingEvent. unfold_monad. simpl. rewrite !Hm. simpl.
    destruct (pubnub s) eqn:Hp; simpl; [|by destruct s].
    unfold publish. unfold_monad. by rewrite Hp.
  - split; [exact Hrun|]. intros in_flight st.
    unfold Async._publishNotDebouncedAsync.
    unfold mbind, mret, Async.AM_bind, Async.AM_ret.
    rewrite bind_get. change (Async.this st) with s. rewrite Hm. simpl.
    rewrite (bind_sync (supportsFeature W ARBITRARY_IMPORTS) _ st
               (sdkSupportsFeature W (sdkVersion s) ARBITRARY_IMPORTS) s eq_refl).
    change (Async.set_this s st) with st.
    destruct (sdkSupportsFeature W (sdkVersion s) ARBITRARY_IMPORTS) eqn:Hai.
    + unfold Async.bind at 1, Async.await_call.
      rewrite (_handleFindDependenciesAsync_busy W st Hres). simpl.
      eexists. split; [reflexivity|].
      intros st' Hres'. simpl. rewrite bind_get. by rewrite Hres'.
    + rewrite bind_settle, bind_get. change (Async.this st) with s. by rewrite Hres.
  - exact Hrun.
Qed.

Lemma _publishNotDebouncedAsync_guards_witness :
  wf_loading (set_loadingMessage (Some "Installing dependencies") app_session) /\
  _publishNotDebouncedAsync quiet_world
    (set_loadingMessage (Some "Installing dependencies") app_session) =
  (Ok tt,
   set_events [EvPublish "r1cKrtvZb" (MsgLoading "Installing dependencies")]
     (set_loadingMessage (Some "Installing dependencies") app_session)).
Proof.
  split; [by right|].
  apply (_publishNotDebouncedAsync_guards quiet_world
           (set_loadingMessage (Some "Installing dependencies") app_session)).
  by right.
Defined.

(** C8 (as stated) fails.  The session holds [app.js] and a picture at
    version 21.0.0, which has no arbitrary imports.  The debounce timer fires:
    the publish passes both tests and waits for the upload of the picture.
    The caller then sets version 22.0.0: the engine starts, sets
    [isResolving] and [loadingMessage] and waits for the bundler.  When the
    upload is answered, nothing else being ready to run, the publish goes on
    and sends the [CODE] envelope, with [isResolving] true and
    [loadingMessage] set before and after. *)
Lemma _publishNotDebouncedAsync_overtaken :
  let waiting := Async.run upgrading_world (take 2 overtaken_publish) idle_machine in
  let before := Async.run upgrading_world (take 3 overtaken_publish) idle_machine in
  let after := Async.run upgrading_world overtaken_publish idle_machine in
  Async.quiescent waiting = true /\
  isResolving (Async.this (Async.state before)) = true /\
  loadingMessage (Async.this (Async.state before)) = Some "Installing dependencies" /\
  (exists diff s3url metadata,
     events (Async.this (Async.state after)) =
       EvPublish "r1cKrtvZb" (MsgCode diff s3url metadata)
       :: events (Async.this (Async.state before))) /\
  isResolving (Async.this (Async.state after)) = true /\
  loadingMessage (Async.this (Async.state after)) = Some "Installing dependencies".
Proof.
  vm_compute. split; [reflexivity|]. split; [reflexivity|]. split; [reflexivity|].
  split; [|split; reflexivity]. eexists _, _, _. reflexivity.
Qed.

(** C10: when the SDK version does not support [MULTIPLE_FILES] and the
    publish is past its guards, the legacy envelope is built from
    [files['app.js'].contents].  With ['app.js'] in the file map the call
    succeeds and its last act is to publish that envelope; without it the
    call raises a [TypeError] and publishes no [CODE] envelope at all. *)
Theorem _publishNotDebouncedAsync_legacy (W : World) (s : Session) :
  sdkSupportsFeature W (sdkVersion s) MULTIPLE_FILES = false ->
  truthy (loadingMessage s) = false ->
  isResolving s = false ->
  pubnub s = true ->
  let run := _publishNotDebouncedAsync W s in
  match file_at s "app.js" with
  | Some _ =>
      exists file new,
        run.1 = Ok tt /\
        file_at run.2 "app.js" = Some file /\
        events run.2 =
          EvPublish (channel s)
            (MsgLegacyCode (contents file)
               {| expoSdkVersion := sdkVersion s; fingerprint := hostFingerprint W |})
          :: new ++ events s /\
        Forall no_code new
  | None =>
      run.1 = Throw TypeError /\
      exists new, events run.2 = new ++ events s /\ Forall no_code new
  end.
Proof.
  intros Hmf Hloading Hres Hpub run.
  destruct (_publishNotDebouncedAsync_code_path W s Hloading Hres) as
    (s1 & new & Hf & Hh & Hp & Hc & Hv & Hr & Hl & He & Hnew & Hrun).
  subst run. rewrite Hrun. clear Hrun. cbv zeta. rewrite Hv, Hmf.
  pose proof (file_at_is_Some s s1 "app.js" Hf Hh) as Hsame.
  destruct (file_at s "app.js") as [file0|] eqn:Hfile.
  - destruct (file_at s1 "app.js") as [file|] eqn:Hfile1;
      [|by destruct (proj2 Hsame (mk_is_Some _ _ eq_refl))].
    rewrite publish_outcome, Hp, Hpub. simpl.
    exists file, new. rewrite Hc, He. by repeat split.
  - destruct (file_at s1 "app.js") as [file|] eqn:Hfile1;
      [by destruct (proj1 Hsame (mk_is_Some _ _ eq_refl))|].
    simpl. split; [done|]. by exists new.
Qed.

Lemma _publishNotDebouncedAsync_legacy_witness :
  (_publishNotDebouncedAsync legacy_world index_session).1 = Throw TypeError /\
  exists new,
    events (_publishNotDebouncedAsync legacy_world index_session).2 =
      new ++ events index_session /\
    Forall no_code new.
Proof.
  apply (_publishNotDebouncedAsync_legacy legacy_world index_session); reflexivity.
Defined.

(** ** Reserved modules *)

Lemma includes_In l k : includes l k = true <-> In k l.
Proof. unfold includes. by rewrite bool_decide_eq_true, list_elem_of_In. Qed.

(** C7 (as amended): when no answer of the bundler is named after a reserved
    module, and none of the cached records is, a run of the dependency
    engine changes no entry of [session.dependencies] under [react],
    [react-native] or [expo]: none is added, and one that was there keeps
    its version.  No key of [session.dependencies] is deleted, and the cache
    stays free of reserved names. *)
Theorem reserved_never_added (W : World) (s : Session) :
  bundler_clean W ->
  cache_clean s ->
  exists s',
    _handleFindDependenciesAsync W s = (Ok tt, s') /\
    (forall k, In k reserved -> dependencies s' !! k = dependencies s !! k) /\
    dom (dependencies s) ⊆ dom (dependencies s') /\
    cache_clean s'.
Proof.
  intros Hb Hc. destruct (_handleFindDependenciesAsync_outcome W s) as (s' & Hrun & Hs').
  exists s'. split; [exact Hrun|].
  destruct (sdkSupportsFeature W (sdkVersion s) ARBITRARY_IMPORTS), (isResolving s);
    try (subst s'; by repeat split).
  destruct Hs' as (s2 & [_ _ _ _ _ _ _ _ Hd Hres] & ->).
  destruct (Hres Hb Hc) as [Hc2 Hd2]. simpl in *.
  split; [|by split].
  intros k Hk. apply Hd2. by apply includes_In.
Qed.

Lemma redux_world_clean : bundler_clean redux_world.
Proof.
  intros hist url d. simpl. unfold naming_bundler.
  destruct (String.eqb url _); by intros [= <-].
Qed.

Lemma reserved_never_added_witness :
  bundler_clean redux_world /\ cache_clean app_session /\
  exists s',
    _handleFindDependenciesAsync redux_world app_session = (Ok tt, s') /\
    (forall k, In k reserved -> dependencies s' !! k = dependencies app_session !! k).
Proof.
  split; [exact redux_world_clean|]. split; [by intros id d|].
  destruct (reserved_never_added redux_world app_session redux_world_clean)
    as (s' & Hrun & Hreserved & _); [by intros id d|].
  exists s'. split; [exact Hrun|exact Hreserved].
Defined.

(** What the engine commits in that world: the module, pinned, and its one
    peer that is not reserved. *)
Example redux_dependencies :
  dependencies (_handleFindDependenciesAsync redux_world app_session).2 =
  {[ "react-redux" := "5.0.6"; "redux" := "3.7.2" ]}.
Proof. vm_compute. reflexivity. Qed.

(** C7 (as stated) fails: the keys that the commit writes are the names the
    bundler gives in its answers, and those are not filtered.  The user
    code imports [react-redux]; the bundler answers with the record of
    [react]; after the run [react] is a key of the dependencies. *)
Lemma reserved_added_from_bundler_answer :
  let run := _handleFindDependenciesAsync react_world app_session in
  run.1 = Ok tt /\
  dependencies app_session !! "react" = None /\
  dependencies run.2 !! "react" = Some "16.0.0".
Proof. vm_compute. by repeat split. Qed.

(** ** The import scanner *)

Lemma scan_modules_app p1 p2 :
  scan_modules (p1 ++ p2) = foldl scan_step (scan_modules p1) p2.
Proof. unfold scan_modules. apply foldl_app. Qed.

Lemma scan_fold_origin program : forall found k v,
  foldl scan_step found program !! k = Some v ->
  found !! k = Some v \/ exists st, In st program /\ recognize st = Some (k, v).
Proof.
  induction program as [|st program IH]; intros found k v Hk; simpl in *; [by left|].
  destruct (IH _ _ _ Hk) as [Hfound|(st' & Hin & Hst')]; [|right; by eauto].
  unfold scan_step in Hfound. destruct (recognize st) as [[k' v']|] eqn:Hst; [|by left].
  destruct (decide (k' = k)) as [->|Hne].
  - rewrite lookup_insert_eq in Hfound. injection Hfound as ->. right. by eauto.
  - rewrite lookup_insert_ne in Hfound by done. by left.
Qed.

Lemma scan_fold_keeps program : forall found k,
  is_Some (found !! k) -> is_Some (foldl scan_step found program !! k).
Proof.
  induction program as [|st program IH]; intros found k Hk; simpl; [done|].
  apply IH. unfold scan_step. destruct (recognize st) as [[k' v']|]; [|done].
  destruct (decide (k' = k)) as [->|Hne].
  - rewrite lookup_insert_eq. by eexists.
  - by rewrite lookup_insert_ne.
Qed.

Lemma recognize_shape st k v :
  recognize st = Some (k, v) ->
  specifier_of st = Some k /\ v = version_of (trailing_of st) /\ acceptable k = true.
Proof.
  destruct st as [source trailing|source trailing|arguments trailing|]; simpl.
  - destruct (acceptable source) eqn:Hok; [|done]. by intros [= <- <-].
  - destruct (acceptable source) eqn:Hok; [|done]. by intros [= <- <-].
  - destruct (literal_argument arguments) as [specifier|]; [|done].
    destruct (acceptable specifier) eqn:Hok; [|done]. by intros [= <- <-].
  - done.
Qed.

Lemma recognize_rejected arguments trailing :
  rejected_arguments arguments -> recognize (RequireCall arguments trailing) = None.
Proof.
  assert (Hbad : forall value,
    startsWith value "/" = true \/ has_newline value = true ->
    acceptable value = false).
  { intros value [Hv|Hv]; unfold acceptable; rewrite Hv; simpl; [done|].
    by rewrite !andb_false_r. }
  intros Hrej. simpl. destruct arguments as [|first [|second rest]]; [done| |].
  - destruct first as [value|quasis expressions|n|x|]; simpl in *; try done.
    + by rewrite (Hbad value Hrej).
    + destruct quasis as [|value [|q qs]]; try done.
      destruct expressions; [|done]. by rewrite (Hbad value Hrej).
  - destruct first as [value|quasis expressions|n|x|]; simpl; try done.
    destruct quasis as [|value [|q qs]]; try done; by destruct expressions.
Qed.

(** C6: the scanner is a total function of the parsed program.  Every entry
    of its output comes from a statement of a recognized form, keyed by the
    module that statement names and holding the semver of its trailing
    comment, null when there is no comment; every statement that is
    recognized has its module in the output.  A [require] whose arguments
    are of a rejected form contributes nothing, and no key of the output is
    an absolute path or holds a newline.  On the program of scenario 3 the
    output is [{base64: '1.2.3', 'lodash/debounce': '2.3.4',
    'react-redux': null}], and on the invalid requires of the test file it
    is empty. *)
Theorem scan_modules_recognized :
  (forall program k v,
     scan_modules program !! k = Some v ->
     exists st, In st program /\ specifier_of st = Some k /\
                v = version_of (trailing_of st)) /\
  (forall program st k v,
     In st program -> recognize st = Some (k, v) ->
     is_Some (scan_modules program !! k)) /\
  version_of None = None /\
  (forall arguments trailing p1 p2,
     rejected_arguments arguments ->
     recognize (RequireCall arguments trailing) = None /\
     scan_modules (p1 ++ RequireCall arguments trailing :: p2) = scan_modules (p1 ++ p2)) /\
  (forall program k,
     is_Some (scan_modules program !! k) ->
     startsWith k "/" = false /\ has_newline k = false) /\
  scan_modules scenario_3 =
    {[ "base64" := Some "1.2.3"; "lodash/debounce" := Some "2.3.4";
       "react-redux" := None ]} /\
  scan_modules invalid_requires = ∅.
Proof.
  split; [|split; [|split; [|split; [|split; [|split]]]]].
  - intros program k v Hk. unfold scan_modules in Hk.
    apply scan_fold_origin in Hk as [Hk|(st & Hin & Hst)]; [by rewrite lookup_empty in Hk|].
    exists st. apply recognize_shape in Hst as (? & ? & _). by repeat split.
  - intros program st k v Hin Hst.
    apply in_split in Hin as (p1 & p2 & ->).
    rewrite scan_modules_app. simpl. apply scan_fold_keeps.
    unfold scan_step. rewrite Hst, lookup_insert_eq. by eexists.
  - done.
  - intros arguments trailing p1 p2 Hrej.
    pose proof (recognize_rejected arguments trailing Hrej) as Hnone.
    split; [done|]. rewrite !scan_modules_app. simpl.
    unfold scan_step at 2. by rewrite Hnone.
  - intros program k [v Hk]. unfold scan_modules in Hk.
    apply scan_fold_origin in Hk as [Hk|(st & Hin & Hst)]; [by rewrite lookup_empty in Hk|].
    apply recognize_shape in Hst as (_ & _ & Hok). unfold acceptable in Hok.
    apply andb_true_iff in Hok as [Hok Hnl].
    apply andb_true_iff in Hok as [Hok _]. apply andb_true_iff in Hok as [Hok _].
    split; by apply negb_true_iff.
  - vm_compute. reflexivity.
  - vm_compute. reflexivity.
Qed.

Lemma scan_modules_recognized_witness :
  recognize (RequireCall [ArgNumber 10] None) = None /\
  scan_modules ([ImportDeclaration "base64" (Some " 1.2.3")]
                ++ RequireCall [ArgNumber 10] None :: [OtherStatement]) =
  scan_modules ([ImportDeclaration "base64" (Some " 1.2.3")] ++ [OtherStatement]).
Proof.
  apply (proj1 (proj2 (proj2 (proj2 scan_modules_recognized)))). exact I.
Defined.

(** The scanner on the other programs of the test file. *)
Example scan_all_import_styles :
  scan_modules all_import_styles =
  {[ "mod1" := Some "1.0.0"; "mod2" := Some "2.0.0"; "mod3" := Some "3.0.0";
     "mod4" := Some "4.0.0"; "mod5" := Some "5.0.0"; "mod6" := Some "6.0.0";
     "mod7" := Some "7.0.0"; "mod8" := Some "8.0.0" ]}.
Proof. vm_compute. reflexivity. Qed.

(** ** The constructor and the engine it starts *)

(** A session is constructed over [app.js], which imports [react-redux].
    When the constructor returns, the engine has set [isResolving] and the
    loading message, told the state listeners and sent its first request;
    it has published nothing.  Once the answers have come in, the engine has
    committed the same dependencies as at the sequential schedule, and the
    session is at rest. *)
Example constructor_then_engine :
  exists mc,
    Async.constructor redux_world app_options (heap app_session) = Ok mc /\
    Async.quiescent mc = true /\
    let s := Async.this (Async.state mc) in
    isResolving s = true /\
    loadingMessage s = Some "Installing dependencies" /\
    (exists v, events s = [EvState v]) /\
    (exists r, net s = [IoBundle (bundle_url "react-redux" (Some "5.0.6")) r]) /\
    let final := Async.run redux_world engine_to_its_end mc in
    List.map Async.settled (Async.tasks final) = [Some (Ok tt)] /\
    at_rest (Async.this (Async.state final)) /\
    dependencies (Async.this (Async.state final)) =
      {[ "react-redux" := "5.0.6"; "redux" := "3.7.2" ]}.
Proof.
  eexists. split; [reflexivity|]. vm_compute.
  split; [reflexivity|]. split; [reflexivity|]. split; [reflexivity|].
  split; [by eexists|]. split; [by eexists|]. by repeat split.
Qed.

(** ** The scenarios of the specification *)

(** Scenario 1, small bundle: the whole file travels in [diff], [s3url] is
    empty and the object store is not called. *)
Example small_bundle_fits_inline :
  let run := _publishNotDebouncedAsync measuring_world small_session in
  run.1 = Ok tt /\
  head (events run.2) =
    Some (EvPublish "r1cKrtvZb"
            (MsgCode {[ "app.js" := "console.log(1)" ]} ∅
               {| expoSdkVersion := "21.0.0"; fingerprint := [] |})) /\
  net run.2 = [].
Proof. vm_compute. by repeat split. Qed.

(** Scenario 2, spill on oversize: [a.js] is uploaded and travels by URL,
    [b.js] stays in [diff]. *)
Example spill_on_oversize :
  let run := _handleUploadCodeAsync measuring_world oversize_session in
  run.1 = Ok tt /\
  diff run.2 = {[ "a.js" := ""; "b.js" := "x" ]} /\
  s3url run.2 = {[ "a.js" := "https://snack-code-uploads.s3.amazonaws.com/code" ]} /\
  payload_size measuring_world run.2 <= MAX_PUBNUB_SIZE.
Proof. vm_compute. repeat split; (done || by intros [=]). Qed.

(** Scenarios 5 and 6 reach the same method: a [join] and a [RESEND_CODE]
    both call [_publishNotDebouncedAsync], which publishes the current
    bundle without going through the debounce. *)
Example resend_publishes_at_once :
  exists m md,
    head (events (_publishNotDebouncedAsync quiet_world small_session).2) =
      Some (EvPublish "r1cKrtvZb" (MsgCode m ∅ md)) /\
    m !! "app.js" = Some "console.log(1)".
Proof. eexists _, _. vm_compute. split; reflexivity. Qed.

(** * More properties *)

(** ** What each method can reach

    A method writes the session through a handful of assignments; a
    property that survives each of them survives the method. *)

Section Reach.
Context (W : World) (I : Session -> Prop).

Lemma reach_emit t e s :
  grows I -> emitted_in s e -> I s -> run_ok I t (fun _ => True) (emit e) s.
Proof. intros He Hemit Hs. apply run_ok_modify. by apply He. Qed.

Lemma reach_record t io s :
  stable I set_net -> I s -> run_ok I t (fun _ => True) (record io) s.
Proof. intros Hn Hs. apply run_ok_modify. by apply Hn. Qed.

Lemma reach_sendStateEvent t s :
  grows I -> I s -> run_ok I t (fun _ => True) _sendStateEvent s.
Proof. intros He Hs. unfold _sendStateEvent. apply run_ok_get. by apply reach_emit. Qed.

Lemma reach_publish message s :
  grows I -> I s -> run_ok I true (fun _ => True) (publish message) s.
Proof.
  intros He Hs. unfold publish. apply run_ok_get.
  destruct (pubnub s); [by apply reach_emit|by apply run_ok_throw].
Qed.

Lemma reach_sendLoadingEvent t s :
  grows I -> I s -> run_ok I t (fun _ => True) _sendLoadingEvent s.
Proof.
  intros He Hs. unfold _sendLoadingEvent. apply run_ok_get.
  destruct (negb (truthy (loadingMessage s))); [by apply run_ok_ret|].
  destruct (pubnub s) eqn:Hp; simpl; [|by apply run_ok_ret].
  unfold publish. apply run_ok_get. rewrite Hp. by apply reach_emit.
Qed.

Lemma reach_lift {A} (r : Reply A) s : I s -> run_ok I true (fun _ => True) (lift r) s.
Proof. intros Hs. destruct r; [by apply run_ok_ret|by apply run_ok_throw]. Qed.

Lemma reach_supportsFeature t feature s :
  I s -> run_ok I t (fun _ => True) (supportsFeature W feature) s.
Proof. intros Hs. unfold supportsFeature. apply run_ok_get. by apply run_ok_ret. Qed.

Lemma reach_uploadAssetToS3 c s :
  stable I set_net -> I s -> run_ok I true (fun _ => True) (call_uploadAssetToS3 W c) s.
Proof.
  intros Hn Hs. unfold call_uploadAssetToS3. apply run_ok_get.
  eapply run_ok_bind; [by apply (reach_record true)|].
  intros _ s' Hs' _. by apply reach_lift.
Qed.

Lemma reach_uploadCodeToS3 c s :
  stable I set_net -> I s -> run_ok I true (fun _ => True) (call_uploadCodeToS3 W c) s.
Proof.
  intros Hn Hs. unfold call_uploadCodeToS3. apply run_ok_get.
  eapply run_ok_bind; [by apply (reach_record true)|].
  intros _ s' Hs' _. by apply reach_lift.
Qed.

(** *** The snapshot *)

Lemma reach_uploadHelper_key key s :
  ledger_closed I -> I s ->
  run_ok I true (fun _ => True) (_uploadHelper_key W key) s.
Proof.
  intros [Hdiff Hcode Hurl Hnet] Hs. unfold _uploadHelper_key. apply run_ok_get.
  destruct (file_at s key) as [file|]; [|by apply run_ok_ret].
  eapply (run_ok_bind I true (fun _ => True)).
  - destruct (contents file) as [code|b].
    + destruct (startsWith code S3_BUCKET_URL); [|destruct (truthy _)].
      * eapply run_ok_bind; [apply run_ok_modify; by apply Hdiff|].
        intros _ s2 Hs2 _.
        eapply run_ok_bind; [apply run_ok_modify; by apply Hcode|].
        intros _ s3 Hs3 _. apply run_ok_modify. by apply Hurl.
      * apply run_ok_modify. by apply Hdiff.
      * apply run_ok_modify. by apply Hdiff.
    + eapply run_ok_bind; [apply run_ok_modify; by apply Hcode|].
      intros _ s2 Hs2 _.
      eapply run_ok_bind; [apply run_ok_modify; by apply Hdiff|].
      intros _ s3 Hs3 _.
      eapply run_ok_bind; [by apply reach_uploadAssetToS3|].
      intros url s4 Hs4 _. apply run_ok_modify. by apply Hurl.
  - intros _ s2 Hs2 _. apply run_ok_get. by apply run_ok_ret.
Qed.

Lemma reach_spill stack :
  ledger_closed I ->
  forall size s, I s -> run_ok I true (fun _ => True) (spill W stack size) s.
Proof.
  intros [Hdiff Hcode Hurl Hnet].
  induction stack as [|top stack IH]; intros size s Hs; simpl.
  - destruct (bool_decide _); by apply run_ok_ret.
  - destruct (bool_decide _); [|by apply run_ok_ret].
    apply run_ok_get. destruct (file_at s _) as [file|]; [|by apply run_ok_throw].
    eapply run_ok_bind; [apply run_ok_modify; by apply Hcode|].
    intros _ s2 Hs2 _.
    eapply run_ok_bind; [apply run_ok_modify; by apply Hdiff|].
    intros _ s3 Hs3 _.
    eapply run_ok_bind; [by apply reach_uploadCodeToS3|].
    intros url s4 Hs4 _.
    eapply run_ok_bind; [apply run_ok_modify; by apply Hurl|].
    intros _ s5 Hs5 _. apply run_ok_get. by apply IH.
Qed.

Lemma reach_handleUploadCodeAsync s :
  ledger_closed I -> I s ->
  run_ok I true (fun _ => True) (_handleUploadCodeAsync W) s.
Proof.
  intros Hc Hs. unfold _handleUploadCodeAsync, _uploadHelper.
  eapply (run_ok_bind I true (fun _ => True)).
  - apply run_ok_get. eapply run_ok_bind.
    + apply (run_ok_mapM I true (fun _ _ => True)); [done|].
      intros key s1 _ Hs1. by apply reach_uploadHelper_key.
    + intros pushes s1 Hs1 _. by apply run_ok_ret.
  - intros fileSize s1 Hs1 _. apply run_ok_get.
    destruct (bool_decide _); [by apply reach_spill|by apply run_ok_ret].
Qed.

(** *** The dependency engine *)

Lemma reach_tryFetchDependencyAsync name version s :
  stable I set_net -> I s ->
  run_ok I true (fun _ => True) (_tryFetchDependencyAsync W name version) s.
Proof.
  intros Hn Hs. unfold run_ok, _tryFetchDependencyAsync.
  destruct (_tryFetch_loop_outcome W (bundle_url name version) 32 0 None s)
    as (ds & _ & Hrun); [lia|simpl; lia|done|].
  destruct (_tryFetch_loop W 32 (bundle_url name version) 0 None s) as [[d|e|] s'];
    [| |done].
  - destruct Hrun as (_ & _ & _ & ->). split; [by apply Hn|done].
  - destruct Hrun as [(_ & _ & ->)|(_ & _ & ->)]; (split; [by apply Hn|done]).
Qed.

Lemma reach_checkS3ForDepencencyAsync name version s :
  stable I set_net -> I s ->
  run_ok I false (fun _ => True) (_checkS3ForDepencencyAsync W name version) s.
Proof.
  intros Hn Hs. unfold _checkS3ForDepencencyAsync.
  eapply run_ok_bind.
  - apply (run_ok_mapM I false (fun _ _ => True)); [done|].
    intros platform s' _ Hs'. apply run_ok_get.
    eapply run_ok_bind; [by apply (reach_record false)|].
    intros _ s'' Hs'' _. by apply run_ok_ret.
  - intros results s' Hs' _. by apply run_ok_ret.
Qed.

Lemma reach_maybeFetchDependencyAsync t name version s :
  once_closed I -> I s ->
  run_ok I t (fun _ => True) (_maybeFetchDependencyAsync W name version) s.
Proof.
  intros [He Hn Hp Hl Hd] Hs. apply (run_ok_weaken I t (fun _ => True)); [|done].
  unfold _maybeFetchDependencyAsync. apply run_ok_get.
  destruct (_promises s !! _) as [data|]; [by apply run_ok_ret|].
  apply run_ok_try_catch.
  - eapply run_ok_bind; [by apply reach_tryFetchDependencyAsync|].
    intros d s' Hs' _. eapply run_ok_bind; [apply run_ok_modify; by apply Hp|].
    intros _ s'' Hs'' _. by apply run_ok_ret.
  - intros e s' Hs'. eapply run_ok_bind; [by apply reach_checkS3ForDepencencyAsync|].
    intros [] s'' Hs'' _.
    + eapply run_ok_bind; [apply run_ok_modify; by apply Hp|].
      intros _ s3 Hs3 _. by apply run_ok_ret.
    + eapply run_ok_bind; [apply run_ok_modify; by apply Hp|].
      intros _ s3 Hs3 _. apply run_ok_get.
      eapply (run_ok_bind I false (fun _ => True)).
      * destruct (dependencyErrorListener s3); [|by apply run_ok_ret].
        by apply reach_emit.
      * intros _ s4 Hs4 _. by apply run_ok_ret.
Qed.

Lemma reach_findDependenciesOnceAsync t file s :
  once_closed I -> I s ->
  run_ok I t
    (fun result => forall code, result = Some code -> versions_written W code)
    (_findDependenciesOnceAsync W file) s.
Proof.
  intros Hc Hs. pose proof Hc as [He Hn Hp Hl Hd].
  eapply run_ok_weaken; [|by intros r Hr; exact Hr].
  unfold _findDependenciesOnceAsync.
  eapply run_ok_bind; [by apply reach_supportsFeature|].
  intros ai s1 Hs1 _. destruct ai; simpl; [|by apply run_ok_ret].
  destruct (findModuleDependencies W file) as [scanned|e]; [|by apply run_ok_ret].
  apply run_ok_get.
  destruct (_ || _); [by apply run_ok_ret|].
  eapply run_ok_bind; [by apply (reach_sendStateEvent false)|]. intros _ s2 Hs2 _.
  eapply run_ok_bind; [apply run_ok_modify; by apply Hl|]. intros _ s3 Hs3 _.
  eapply run_ok_bind; [by apply (reach_sendLoadingEvent false)|]. intros _ s4 Hs4 _.
  apply run_ok_try_finally; [|intros; by apply reach_sendStateEvent].
  apply run_ok_try_catch; [|intros; by apply run_ok_ret].
  eapply run_ok_bind.
  { apply (run_ok_mapM I true (fun _ _ => True)); [done|].
    intros name s' _ Hs'. by apply reach_maybeFetchDependencyAsync. }
  intros results s5 Hs5 _.
  eapply run_ok_bind; [apply run_ok_modify; by apply Hd|]. intros _ s6 Hs6 _.
  eapply run_ok_bind; [by apply (reach_sendStateEvent true)|]. intros _ s7 Hs7 _.
  eapply run_ok_bind.
  { apply (run_ok_mapM I true (fun _ _ => True)); [done|].
    intros name s' _ Hs'. by apply reach_maybeFetchDependencyAsync. }
  intros peers s8 Hs8 _.
  eapply (run_ok_bind I true (fun _ => True)).
  { destruct peers; [by apply run_ok_ret|].
    eapply run_ok_bind; [by apply reach_lift|]. intros; by apply run_ok_ret. }
  intros code s9 Hs9 _.
  destruct (writeModuleVersions W code _) as [code'|e] eqn:Hw; simpl.
  - apply (run_ok_bind I true (fun c => c = code')); [by apply run_ok_ret|].
    intros ? s10 Hs10 ->.
    eapply run_ok_bind; [apply run_ok_modify; by apply Hd|]. intros _ s11 Hs11 _.
    eapply run_ok_bind; [by apply (reach_sendStateEvent true)|].
    intros _ s12 Hs12 _. apply run_ok_ret; [done|].
    intros ? [= <-]. by eexists _, _.
  - apply (run_ok_bind I true (fun _ => False)); [by apply run_ok_throw|]. done.
Qed.
Lemma reach_handleFindDependenciesAsync t s :
  engine_closed W I -> I s ->
  run_ok I t (fun _ => True) (_handleFindDependenciesAsync W) s.
Proof.
  intros [Hc Hr Hw] Hs. pose proof Hc as [He Hn Hp Hl Hd].
  apply (run_ok_weaken I t (fun _ => True)); [|done].
  unfold _handleFindDependenciesAsync.
  eapply run_ok_bind; [by apply reach_supportsFeature|].
  intros ai s1 Hs1 _. destruct ai; simpl; [|by apply run_ok_ret].
  apply run_ok_get. destruct (isResolving s1); [by apply run_ok_ret|].
  eapply run_ok_bind; [apply run_ok_modify; by apply Hr|]. intros _ s2 Hs2 _.
  apply run_ok_try_finally.
  - apply run_ok_try_catch; [|intros; by apply reach_emit].
    apply run_ok_forM_; [done|]. intros key s3 _ Hs3.
    destruct (endsWith key ".js") eqn:Hjs; [|by apply run_ok_ret].
    apply run_ok_get. destruct (file_at s3 key) as [file|]; [|by apply run_ok_throw].
    eapply run_ok_bind; [by apply (reach_findDependenciesOnceAsync true)|].
    intros codeWithVersions s4 Hs4 Hcode. apply run_ok_get.
    destruct (file_at s4 key) as [file'|]; [|by apply run_ok_throw].
    destruct (bool_decide _); [|by apply run_ok_ret].
    destruct codeWithVersions as [code|]; simpl; [|by apply run_ok_ret].
    destruct (negb (String.eqb code "")); [|by apply run_ok_ret].
    eapply run_ok_bind; [apply run_ok_modify; apply Hw; by auto|].
    intros _ s5 Hs5 _. by apply reach_sendStateEvent.
  - intros s3 Hs3.
    eapply run_ok_bind; [apply run_ok_modify; by apply Hl|]. intros _ s4 Hs4 _.
    eapply run_ok_bind; [apply run_ok_modify; by apply Hr|]. intros _ s5 Hs5 _.
    by apply reach_sendStateEvent.
Qed.

(** *** Publication *)

Lemma reach_publishNotDebouncedAsync s :
  engine_closed W I -> ledger_closed I -> I s ->
  run_ok I true (fun _ => True) (_publishNotDebouncedAsync W) s.
Proof.
  intros He Hl Hs. pose proof He as [[Hev _ _ _ _] _ _].
  unfold _publishNotDebouncedAsync. apply run_ok_get.
  destruct (truthy (loadingMessage s)); [by apply reach_sendLoadingEvent|].
  eapply run_ok_bind; [by apply reach_supportsFeature|]. intros ai s1 Hs1 _.
  eapply (run_ok_bind I true (fun _ => True)).
  { destruct ai; [by apply reach_handleFindDependenciesAsync|by apply run_ok_ret]. }
  intros _ s2 Hs2 _. apply run_ok_get.
  destruct (isResolving s2); [by apply run_ok_ret|].
  unfold _getAnalyticsMetadata.
  eapply (run_ok_bind I true (fun _ => True)).
  { apply run_ok_get. by apply run_ok_ret. }
  intros metadata s3 Hs3 _.
  eapply run_ok_bind; [by apply reach_supportsFeature|]. intros mf s4 Hs4 _.
  eapply (run_ok_bind I true (fun _ => True)).
  { destruct mf.
    - eapply run_ok_bind; [by apply reach_handleUploadCodeAsync|].
      intros _ s5 Hs5 _. apply run_ok_get. by apply run_ok_ret.
    - apply run_ok_get. destruct (file_at s4 "app.js");
        [by apply run_ok_ret|by apply run_ok_throw]. }
  intros message s5 Hs5 _. by apply reach_publish.
Qed.

(** *** The public operations *)

Lemma reach_sendCode_loops files' ks s :
  files_closed I -> I s ->
  run_ok I true (fun _ => True)
    (forM_ ks (sendCode_remove files');;
     forM_ (map_to_list files') (sendCode_update W)) s.
Proof.
  intros [Hf Hc Hn] Hs. eapply run_ok_bind.
  { apply run_ok_forM_; [done|]. intros key s1 _ Hs1. unfold sendCode_remove.
    destruct (negb _); [apply run_ok_modify; by apply Hf|by apply run_ok_ret]. }
  intros _ s1 Hs1 _.
  apply run_ok_forM_; [done|]. intros [key l] s2 _ Hs2. unfold sendCode_update.
  apply run_ok_get. destruct (_ || _); [|by apply run_ok_ret].
  eapply run_ok_bind; [apply run_ok_modify; by apply Hf|]. intros _ s3 Hs3 _.
  apply run_ok_get. destruct (file_at s3 key) as [file|]; [|by apply run_ok_throw].
  destruct (type file), (contents file); try (by apply run_ok_ret).
  eapply run_ok_bind; [by apply reach_uploadAssetToS3|].
  intros url s4 Hs4 _. apply run_ok_modify. by apply Hc.
Qed.

Lemma sendCodeAsync_loops files' s :
  sendCodeAsync W files' s =
  ((forM_ (keys (files s)) (sendCode_remove files');;
    forM_ (map_to_list files') (sendCode_update W));;
   _publish;; _sendStateEvent) s.
Proof.
  unfold sendCodeAsync. unfold_monad.
  destruct (forM_ (keys (files s)) (sendCode_remove files') s) as [[[]|e|] s1]; [|done..].
  by destruct (forM_ (map_to_list files') (sendCode_update W) s1) as [[[]|e|] s2].
Qed.

Lemma reach_sendCodeAsync files' s :
  files_closed I -> grows I -> I s ->
  run_ok I true (fun _ => True) (sendCodeAsync W files') s.
Proof.
  intros Hf He Hs. unfold run_ok. rewrite sendCodeAsync_loops.
  fold (run_ok I true (fun _ => True)
          ((forM_ (keys (files s)) (sendCode_remove files');;
            forM_ (map_to_list files') (sendCode_update W));;
           _publish;; _sendStateEvent) s).
  eapply run_ok_bind; [by apply reach_sendCode_loops|].
  intros _ s2 Hs2 _. unfold _publish.
  eapply run_ok_bind; [by apply (reach_emit true)|]. intros _ s3 Hs3 _.
  by apply reach_sendStateEvent.
Qed.

Lemma reach_saveAsync s :
  save_closed I -> I s -> run_ok I true (fun _ => True) (saveAsync W) s.
Proof.
  intros [Hi Hn He] Hs. unfold saveAsync. apply run_ok_try_catch.
  - apply run_ok_get.
    eapply run_ok_bind; [by apply (reach_record true)|]. intros _ s1 Hs1 _.
    eapply run_ok_bind; [by apply reach_lift|]. intros data s2 Hs2 _.
    destruct (truthy (sd_id data)); [|by apply run_ok_throw].
    eapply run_ok_bind; [apply run_ok_modify; by apply Hi|]. intros _ s3 Hs3 _.
    eapply run_ok_bind; [by apply (reach_sendStateEvent true)|]. intros _ s4 Hs4 _.
    by apply run_ok_ret.
  - intros e s1 Hs1.
    eapply run_ok_bind; [by apply (reach_emit true)|]. intros _ s2 Hs2 _.
    by apply run_ok_throw.
Qed.

Lemma reach_downloadAsync s :
  save_closed I -> I s -> run_ok I true (fun _ => True) (downloadAsync W) s.
Proof.
  intros Hc Hs. unfold downloadAsync.
  eapply run_ok_bind; [by apply reach_saveAsync|].
  intros save s1 Hs1 _. by apply run_ok_ret.
Qed.

Lemma reach_not_awaited {A} t (m : M A) s :
  run_ok I true (fun _ => True) m s ->
  run_ok I t (fun _ => True) (not_awaited m) s.
Proof.
  unfold run_ok, not_awaited. destruct (m s) as [[a|e|] s']; [| |done].
  - by intros [? _].
  - by intros [? _].
Qed.

Lemma reach_setSdkVersion t sdkVersion' s :
  engine_closed W I -> stable I set_sdkVersion -> I s ->
  run_ok I t (fun _ => True) (setSdkVersion W sdkVersion') s.
Proof.
  intros He Hv Hs. pose proof He as [[Hev _ _ _ _] _ _].
  apply (run_ok_weaken I t (fun _ => True)); [|done].
  unfold setSdkVersion. apply run_ok_get.
  destruct (negb _); [|by apply run_ok_ret].
  eapply run_ok_bind; [apply run_ok_modify; by apply Hv|]. intros _ s1 Hs1 _.
  eapply run_ok_bind; [by apply (reach_sendStateEvent false)|]. intros _ s2 Hs2 _.
  apply reach_not_awaited. by apply reach_handleFindDependenciesAsync.
Qed.

Lemma reach_setName t name' s :
  grows I -> stable I set_name -> I s ->
  run_ok I t (fun _ => True) (setName name') s.
Proof.
  intros He Hn Hs. unfold setName. apply run_ok_get.
  destruct (negb _); [|by apply run_ok_ret].
  eapply run_ok_bind; [apply run_ok_modify; by apply Hn|]. intros _ s1 Hs1 _.
  by apply reach_sendStateEvent.
Qed.

Lemma reach_setDescription t description' s :
  grows I -> stable I set_description -> I s ->
  run_ok I t (fun _ => True) (setDescription description') s.
Proof.
  intros He Hn Hs. unfold setDescription. apply run_ok_get.
  destruct (negb _); [|by apply run_ok_ret].
  eapply run_ok_bind; [apply run_ok_modify; by apply Hn|]. intros _ s1 Hs1 _.
  by apply reach_sendStateEvent.
Qed.
End Reach.

(** ** The dependency engine, field by field *)

Lemma resolved_from_closed s : once_closed (resolved_from s).
Proof.
  split.
  - intros e s' _ []. by split.
  - intros v s' []. by split.
  - intros v s' []. by split.
  - intros v s' []. by split.
  - intros m s' []. split; try done. simpl.
    etrans; [eassumption|]. rewrite dom_union. apply union_subseteq_r.
Qed.

(** X1.  Resolving the imports of one file never raises: a scanner that fails,
    a bundler that fails or times out and a rewriting helper that fails all
    end in a result.  The call writes nothing but the dependencies, the
    loading message, the promise cache and the two logs; it removes no
    dependency; and the code it returns came out of [writeModuleVersions]. *)
Theorem _findDependenciesOnceAsync_writes (W : World) (file : Contents) (s : Session) :
  exists result s',
    _findDependenciesOnceAsync W file s = (Ok result, s') /\
    resolved_from s s' /\
    forall code, result = Some code -> versions_written W code.
Proof.
  pose proof (reach_findDependenciesOnceAsync W (resolved_from s) false file s
                (resolved_from_closed s)) as Hrun.
  unfold run_ok in Hrun.
  destruct (_findDependenciesOnceAsync W file s) as [[result|e|] s'].
  - exists result, s'. split; [done|]. apply Hrun. by split.
  - destruct Hrun as [_ ?]; [by split|done].
  - destruct Hrun. by split.
Qed.

Lemma rewritten_from_refl W s h : rewritten_from W s h h.
Proof. intros l. destruct (h !! l); [|done]. split; [done|by left]. Qed.

Lemma engine_ran_closed W s : engine_closed W (engine_ran W s).
Proof.
  split; [split|..].
  - intros e s' _ []. by split.
  - intros v s' []. by split.
  - intros v s' []. by split.
  - intros v s' []. by split.
  - intros m s' []. split; try done. simpl.
    etrans; [eassumption|]. rewrite dom_union. apply union_subseteq_r.
  - intros v s' []. by split.
  - intros key code s' Hjs Hcode [Hf Hh]. unfold write_contents. rewrite Hf.
    destruct (files s !! key) as [l|] eqn:Hkey; [|by split].
    split; try done. simpl. intros l'. specialize (Hh l').
    destruct (decide (l' = l)) as [->|Hne]; [|by rewrite lookup_alter_ne].
    rewrite lookup_alter_eq.
    destruct (heap s !! l) as [file|], (heap s' !! l) as [file'|]; try done.
    simpl. destruct Hh as [Ht _]. split; [done|]. right. split; [by exists key|].
    by exists code.
Qed.

(** X2.  A run of the dependency engine leaves the file map as it is and
    creates or drops no file object.  The only objects whose contents it
    changes are held under a key that ends in [.js], and what it writes
    there came out of [writeModuleVersions]; pictures and other files keep
    their contents and every object keeps its type.  The ledger, the name,
    the description, the SDK version, the channel, the saved snapshot and
    the token are not written, and no dependency is removed. *)
Theorem _handleFindDependenciesAsync_rewrites (W : World) (s : Session) :
  exists s',
    _handleFindDependenciesAsync W s = (Ok tt, s') /\
    engine_ran W s s' /\
    forall l file,
      heap s !! l = Some file -> ~ js_object s l -> heap s' !! l = Some file.
Proof.
  pose proof (reach_handleFindDependenciesAsync W (engine_ran W s) false s
                (engine_ran_closed W s)) as Hrun.
  unfold run_ok in Hrun.
  destruct (_handleFindDependenciesAsync W s) as [[[]|e|] s'].
  - assert (Hran : engine_ran W s s').
    { apply Hrun. split; try done. apply rewritten_from_refl. }
    exists s'. split; [done|]. split; [done|].
    intros l file Hl Hjs. destruct Hran as [_ Hh]. specialize (Hh l).
    rewrite Hl in Hh. destruct (heap s' !! l) as [[t c]|]; [|done].
    destruct file as [t0 c0]. simpl in Hh.
    destruct Hh as [-> [->|[? _]]]; done.
  - destruct Hrun as [_ ?]; [|done]. split; try done. apply rewritten_from_refl.
  - destruct Hrun. split; try done. apply rewritten_from_refl.
Qed.

Lemma filter_none {A} (p : A -> bool) (l : list A) :
  (forall x, In x l -> p x = false) -> List.filter p l = [].
Proof.
  induction l as [|x l IH]; simpl; intros Hp; [done|].
  rewrite Hp by (by left). apply IH. intros y Hy. apply Hp. by right.
Qed.

Lemma _findDependenciesOnceAsync_up_to_date W file s :
  up_to_date W (dependencies s) file ->
  _findDependenciesOnceAsync W file s = (Ok None, s).
Proof.
  unfold up_to_date, _findDependenciesOnceAsync, supportsFeature. unfold_monad.
  intros Hup. destruct (sdkSupportsFeature W (sdkVersion s) ARBITRARY_IMPORTS); [|done].
  simpl. destruct (findModuleDependencies W file) as [scanned|e]; [|done].
  assert (Hnone : List.filter (is_changed (dependencies s) (pick_modules scanned))
                    (keys (pick_modules scanned)) = []).
  { apply filter_none. intros name Hin. apply elem_of_keys in Hin as [version Hv].
    destruct (Hup name version Hv) as (v & -> & Hd).
    unfold is_changed. rewrite Hd, Hv. by rewrite bool_decide_eq_true_2. }
  rewrite Hnone. rewrite (bool_decide_eq_true_2 ([] = [])) by done.
  by rewrite orb_true_r.
Qed.

(** X3.  When every [.js] file of the bundle has its imports pinned to the
    versions that [dependencies] already holds, a run of the engine sends no
    request and writes neither a file nor a dependency: it clears the loading
    message and tells the state listeners once. *)
Theorem _handleFindDependenciesAsync_up_to_date (W : World) (s : Session) :
  sdkSupportsFeature W (sdkVersion s) ARBITRARY_IMPORTS = true ->
  isResolving s = false ->
  (forall key l,
     files s !! key = Some l -> endsWith key ".js" = true ->
     exists file,
       heap s !! l = Some file /\ up_to_date W (dependencies s) (contents file)) ->
  let s1 := set_loadingMessage None s in
  _handleFindDependenciesAsync W s =
    (Ok tt, set_events (EvState (getState s1) :: events s) s1).
Proof.
  intros Hai Hres Hfiles s1.
  unfold _handleFindDependenciesAsync, supportsFeature, try_finally, try_catch.
  unfold_monad. rewrite Hai. simpl. rewrite Hres. simpl.
  match goal with
  | |- context [forM_ ?ks ?f] => set (body := f)
  end.
  assert (Hloop : forall ks,
    (forall key, In key ks -> is_Some (files s !! key)) ->
    forM_ ks body (set_isResolving true s) = (Ok tt, set_isResolving true s)).
  { induction ks as [|key ks IH]; intros Hks; [done|].
    change (forM_ (key :: ks) body) with (body key;; forM_ ks body).
    unfold_monad.
    assert (Hkey : body key (set_isResolving true s) = (Ok tt, set_isResolving true s)).
    { subst body. cbv beta. destruct (endsWith key ".js") eqn:Hjs; [|done].
      destruct (Hks key (or_introl eq_refl)) as [l Hl].
      destruct (Hfiles key l Hl Hjs) as (file & Hfile & Hup).
      unfold file_at. simpl. rewrite Hl. simpl. rewrite Hfile.
      rewrite (_findDependenciesOnceAsync_up_to_date W (contents file)
                 (set_isResolving true s)) by done.
      simpl. rewrite Hl. simpl. rewrite Hfile.
      by rewrite bool_decide_eq_true_2. }
    rewrite Hkey. apply IH. intros key' Hin. apply Hks. by right. }
  rewrite Hloop by (intros key Hin; by apply elem_of_keys).
  unfold _sendStateEvent. unfold_monad. simpl.
  subst s1. destruct s. simpl in *. by subst.
Qed.

(** ** The bundler cache and the CDN *)

Lemma has_slash_replace_slashes s : has_slash (replace_slashes s) = false.
Proof.
  induction s as [|c s IH]; simpl; [done|]. rewrite IH, orb_false_r.
  destruct (Ascii.eqb c "/") eqn:Hc; [done|exact Hc].
Qed.

(** The CDN check sends two probes, for iOS and then for Android, whatever
    the first one answers. *)
Lemma _checkS3ForDepencencyAsync_outcome (W : World) (name version : string)
    (s : Session) :
  let ios := cdn W (net s) (done_url W name version "ios") in
  let log := IoCdn (done_url W name version "ios") ios :: net s in
  let android := cdn W log (done_url W name version "android") in
  _checkS3ForDepencencyAsync W name version s =
    (Ok (found_on_cdn ios && found_on_cdn android),
     set_net (IoCdn (done_url W name version "android") android :: log) s) /\
  has_slash (replace_slashes (name +:+ "@" +:+ version)) = false.
Proof.
  split; [|apply has_slash_replace_slashes].
  unfold _checkS3ForDepencencyAsync, done_url, found_on_cdn. unfold_monad. simpl.
  rewrite andb_true_r. f_equal; by destruct s.
Qed.

Lemma _tryFetchDependencyAsync_total W name version s :
  match _tryFetchDependencyAsync W name version s with
  | (Ok d, s') => exists new, s' = set_net (new ++ net s) s
  | (Throw e, s') => exists new, s' = set_net (new ++ net s) s
  | (OutOfFuel, _) => False
  end.
Proof.
  unfold _tryFetchDependencyAsync.
  destruct (_tryFetch_loop_outcome W (bundle_url name version) 32 0 None s)
    as (ds & _ & Hrun); [lia|simpl; lia|done|].
  destruct (_tryFetch_loop W 32 (bundle_url name version) 0 None s) as [[d|e|] s'];
    [| |done].
  - destruct Hrun as (_ & _ & _ & ->). by eexists (_ :: _).
  - destruct Hrun as [(_ & _ & ->)|(_ & _ & ->)]; [by eexists|by eexists (_ :: _)].
Qed.

(** X4.  A dependency fetch always ends in a record, whatever the bundler and
    the CDN answer, and leaves that record in the cache slot of the request.
    A request whose slot is filled sends nothing and changes nothing; so a
    second request for the same slot, such as the same module at the same
    version, returns the record of the first without asking the bundler
    again. *)
Theorem _maybeFetchDependencyAsync_cached (W : World) (name : string)
    (version : option string) (s : Session) :
  exists data s',
    _maybeFetchDependencyAsync W name version s = (Ok data, s') /\
    _promises s' !! cache_id name version = Some data /\
    (is_Some (_promises s !! cache_id name version) -> s' = s) /\
    forall name' version',
      cache_id name' version' = cache_id name version ->
      _maybeFetchDependencyAsync W name' version' s' = (Ok data, s').
Proof.
  assert (Hhit : forall name' version' data s',
    _promises s' !! cache_id name' version' = Some data ->
    _maybeFetchDependencyAsync W name' version' s' = (Ok data, s')).
  { intros name' version' data s' Hdata.
    unfold _maybeFetchDependencyAsync, cache_id in *. unfold_monad.
    by rewrite Hdata. }
  assert (Hrun : exists data s',
    _maybeFetchDependencyAsync W name version s = (Ok data, s') /\
    _promises s' !! cache_id name version = Some data /\
    (is_Some (_promises s !! cache_id name version) -> s' = s)).
  { destruct (_promises s !! cache_id name version) as [data|] eqn:Hcache.
    { exists data, s. split; [by apply Hhit|done]. }
    pose proof (_tryFetchDependencyAsync_total W name version s) as Htotal.
    pose proof (_checkS3ForDepencencyAsync_outcome W name (or_else version "latest"))
      as Hcheck.
    unfold cache_id in *. unfold _maybeFetchDependencyAsync, try_catch.
    unfold_monad. rewrite Hcache.
    destruct (_tryFetchDependencyAsync W name version s) as [[d|e|] s1]; [| |done].
    - eexists _, _. split; [reflexivity|]. simpl.
      rewrite lookup_insert_eq. split; [done|by intros []].
    - rewrite (proj1 (Hcheck s1)).
      destruct (found_on_cdn _ && found_on_cdn _).
      + eexists _, _. split; [reflexivity|]. simpl.
        rewrite lookup_insert_eq. split; [done|by intros []].
      + simpl. destruct (dependencyErrorListener s1);
          (eexists _, _; split; [reflexivity|]; simpl;
           rewrite lookup_insert_eq; split; [done|by intros []]). }
  destruct Hrun as (data & s' & Hrun & Hslot & Hsame).
  exists data, s'. do 3 (split; [done|]).
  intros name' version' Hid. apply Hhit. by rewrite Hid.
Qed.

(** X5.  When the bundler fails or times out for a module that is not in the
    cache, the fetch still resolves: to a record named after the module that
    was asked for, with no peer dependencies.  If the CDN holds the bundle
    for both platforms the record carries the requested version (or the
    default pin) together with the text of the error, [Error: <message>],
    and nobody is told; otherwise it carries the error pin, and the
    dependency error listener, if there is one, is told once, with that same
    text at the end of the message. *)
Theorem _maybeFetchDependencyAsync_fallback (W : World) (name : string)
    (version : option string) (s s1 : Session) (e : string) :
  _promises s !! cache_id name version = None ->
  _tryFetchDependencyAsync W name version s = (Throw e, s1) ->
  exists data s',
    _maybeFetchDependencyAsync W name version s = (Ok data, s') /\
    d_name data = name /\ pending data = false /\ d_dependencies data = None /\
    match (_checkS3ForDepencencyAsync W name (or_else version "latest") s1).1 with
    | Ok true =>
        d_version data = or_else version (npmVersionPins_default W) /\
        d_error data = Some (Error_toString e) /\
        events s' = events s
    | _ =>
        d_version data = npmVersionPins_error W /\
        d_error data = None /\
        events s' =
          if dependencyErrorListener s
          then EvDependencyError
                 ("Error fetching " +:+ name +:+ "@" +:+ or_else version "latest" +:+
                  ": " +:+ Error_toString e) :: events s
          else events s
    end.
Proof.
  intros Hcache Hfetch.
  pose proof (_tryFetchDependencyAsync_total W name version s) as Htotal.
  rewrite Hfetch in Htotal. destruct Htotal as [new ->].
  pose proof (_checkS3ForDepencencyAsync_outcome W name (or_else version "latest")
                (set_net (new ++ net s) s)) as [Hcheck _].
  unfold cache_id in Hcache. unfold _maybeFetchDependencyAsync, try_catch.
  unfold_monad. rewrite Hcache, Hfetch, Hcheck. simpl.
  destruct (found_on_cdn _ && found_on_cdn _).
  - eexists _, _. split; [reflexivity|]. by repeat split.
  - simpl. destruct (dependencyErrorListener s);
      (eexists _, _; split; [reflexivity|]; by repeat split).
Qed.

(** ** The ledger after a snapshot *)

(** X6.  With every upload succeeding, the first pass of the snapshot completes
    and classifies each file of the bundle: a blob is uploaded and travels by
    its URL; a file that already is the address of an upload travels as that
    address; any other file travels as a diff, taken against the copy in the
    ledger when the ledger has a URL for the file and against the empty
    string otherwise.  Ledger entries under keys that hold no file are left
    as they were, so the entries of a deleted file stay.  The sizes handed to
    the spill loop are the lengths of the diffs. *)
Theorem _uploadHelper_classifies (W : World) (s : Session) :
  uploads_succeed W ->
  exists fileSize s',
    _uploadHelper W s = (Ok fileSize, s') /\
    files s' = files s /\ heap s' = heap s /\
    (forall key, snapshot_entry W s s' key) /\
    Forall (fun entry =>
              is_Some (file_at s (fs_name entry)) /\
              fs_size entry =
                Z.of_nat (String.length (default "" (diff s' !! fs_name entry))))
           fileSize.
Proof.
  intros Hup.
  destruct (_uploadHelper_entries W s Hup)
    as (fileSize & s' & Hrun & Hf & Hh & Hentry & Hsizes & _).
  by exists fileSize, s'.
Qed.

(** ** The order of the spill *)


(** ** Publication within the bound *)



(** ** Reconciling the file map, again *)

Lemma sendCode_update_files W key l s s' :
  sendCode_update W (key, l) s = (Ok tt, s') -> files s' = <[key := l]> (files s).
Proof.
  unfold sendCode_update. unfold_monad.
  destruct (bool_decide (files s !! key = Some l)) eqn:Hsame.
  - apply bool_decide_eq_true in Hsame.
    rewrite bool_decide_eq_true_2 by (by rewrite Hsame). simpl.
    intros [= <-]. by rewrite insert_id.
  - rewrite orb_true_r.
    destruct (file_at _ key) as [file|]; [|done].
    destruct (type file), (contents file); try (by intros [= <-]).
    unfold call_uploadAssetToS3. unfold_monad. simpl.
    destruct (uploadAssetToS3 W _ _ _); [|done]. simpl.
    intros [= <-]. unfold write_contents. simpl.
    by destruct (<[key:=l]> (files s) !! key).
Qed.

Lemma sendCode_updates_files W entries :
  NoDup entries.*1 ->
  forall s s',
    forM_ entries (sendCode_update W) s = (Ok tt, s') ->
    forall key,
      files s' !! key =
      match list_to_map (M := gmap string loc) entries !! key with
      | Some l => Some l
      | None => files s !! key
      end.
Proof.
  induction entries as [|[k l] entries IH]; intros Hnodup s s' Hrun key.
  - simpl in Hrun. unfold_monad. by injection Hrun as <-.
  - simpl in Hnodup. apply NoDup_cons in Hnodup as [Hk Hnodup].
    change (forM_ ((k, l) :: entries) (sendCode_update W))
      with (sendCode_update W (k, l);; forM_ entries (sendCode_update W)) in Hrun.
    unfold_monad.
    destruct (sendCode_update W (k, l) s) as [[[]|e|] s1] eqn:Hstep; [|done..].
    rewrite (IH Hnodup s1 s' Hrun), (sendCode_update_files W k l s s1 Hstep).
    rewrite list_to_map_cons.
    destruct (decide (k = key)) as [->|Hne].
    + rewrite !lookup_insert_eq.
      destruct (list_to_map entries !! key) as [l'|] eqn:Hl'; [|done].
      exfalso. apply Hk. apply list_elem_of_fmap. exists (key, l').
      split; [done|]. by apply elem_of_list_to_map.
    + by rewrite !lookup_insert_ne by done.
Qed.

Lemma sendCodeAsync_files W f s s' :
  sendCodeAsync W f s = (Ok tt, s') -> files s' = f.
Proof.
  unfold sendCodeAsync, _publish, _sendStateEvent. intros Hrun.
  destruct (sendCode_prune f (keys (files s)) s) as (s1 & Hrun1 & Hs1 & Hf1).
  unfold_monad. rewrite Hrun1 in Hrun.
  destruct (forM_ (map_to_list f) (sendCode_update W) s1) as [[[]|e|] s2] eqn:Hrun2;
    [|done..].
  injection Hrun as <-. simpl.
  apply map_eq. intros key.
  rewrite (sendCode_updates_files W (map_to_list f) (NoDup_fst_map_to_list f) s1 s2 Hrun2).
  rewrite list_to_map_to_list, Hf1.
  destruct (f !! key) as [l|] eqn:Hkey; [done|].
  rewrite decide_False by (by rewrite elem_of_dom, Hkey; intros []).
  case_decide as Hin; [done|].
  destruct (files s !! key) eqn:Hold; [|done].
  exfalso. apply Hin, list_elem_of_In, elem_of_keys. by eexists.
Qed.



(** X10.  [sendCodeAsync] schedules the publish and tells the state listeners
    only when it resolves, and then as its last two acts: if an upload fails,
    or a file object is missing, the call rejects and nothing is emitted. *)
Theorem sendCodeAsync_notifies_on_success (W : World) (f : gmap string loc)
    (s : Session) :
  match sendCodeAsync W f s with
  | (Ok _, s') =>
      events s' = EvState (getState s') :: EvSchedulePublish :: events s
  | (Throw _, s') => events s' = events s
  | (OutOfFuel, _) => False
  end.
Proof.
  assert (Hloops : run_ok (fun s' => events s' = events s) true (fun _ => True)
                     (forM_ (keys (files s)) (sendCode_remove f);;
                      forM_ (map_to_list f) (sendCode_update W)) s).
  { apply reach_sendCode_loops; [|done].
    split; [by intros ? ? ?| |by intros ? ? ?].
    intros key url s' Hs'. unfold write_contents. by destruct (files s' !! key). }
  rewrite sendCodeAsync_loops. revert Hloops.
  unfold run_ok, _publish, _sendStateEvent. unfold_monad.
  destruct (forM_ (keys (files s)) (sendCode_remove f) s) as [[[]|e|] s1];
    [|by intros [? _]|done].
  destruct (forM_ (map_to_list f) (sendCode_update W) s1) as [[[]|e|] s2];
    [|by intros [? _]|done].
  simpl. intros [Hevents _]. by rewrite Hevents.
Qed.

Lemma set_files_id s : set_files (files s) s = s.
Proof. by destruct s. Qed.

Lemma set_files_set_files a b s : set_files a (set_files b s) = set_files a s.
Proof. by destruct s. Qed.

Lemma sendCode_update_plain W key l s file :
  heap s !! l = Some file -> ~ asset_blob (Some file) ->
  sendCode_update W (key, l) s = (Ok tt, set_files (<[key := l]> (files s)) s).
Proof.
  intros Hfile Hplain. unfold sendCode_update. unfold_monad.
  destruct (bool_decide (files s !! key = Some l)) eqn:Hsame.
  - apply bool_decide_eq_true in Hsame.
    rewrite bool_decide_eq_true_2 by (by rewrite Hsame). simpl.
    by rewrite insert_id, set_files_id.
  - rewrite orb_true_r. unfold file_at. simpl. rewrite lookup_insert_eq. simpl.
    rewrite Hfile. destruct file as [[] [code|b]]; simpl; try done.
    exfalso. apply Hplain. by exists b.
Qed.

Lemma sendCode_updates_plain W entries :
  forall s,
    (forall key l, In (key, l) entries ->
       exists file, heap s !! l = Some file /\ ~ asset_blob (Some file)) ->
    exists fs,
      forM_ entries (sendCode_update W) s = (Ok tt, set_files fs s).
Proof.
  induction entries as [|[k l] entries IH]; intros s Hplain.
  - exists (files s). simpl. unfold_monad. by rewrite set_files_id.
  - destruct (Hplain k l (or_introl eq_refl)) as (file & Hfile & Hnot).
    change (forM_ ((k, l) :: entries) (sendCode_update W))
      with (sendCode_update W (k, l);; forM_ entries (sendCode_update W)).
    unfold_monad. rewrite (sendCode_update_plain W k l s file Hfile Hnot).
    destruct (IH (set_files (<[k := l]> (files s)) s)) as [fs Hrun].
    { intros key l' Hin. apply (Hplain key l'). by right. }
    exists fs. by rewrite Hrun, set_files_set_files.
Qed.

Lemma sendCodeAsync_plain W f s :
  plain_files (heap s) f ->
  sendCodeAsync W f s =
    (Ok tt,
     set_events (EvState (getState (set_files f s)) :: EvSchedulePublish :: events s)
       (set_files f s)).
Proof.
  intros Hplain.
  destruct (sendCode_prune f (keys (files s)) s) as (s1 & Hrun1 & Hs1 & Hf1).
  destruct (sendCode_updates_plain W (map_to_list f) s1) as [fs Hrun2].
  { intros key l Hin. rewrite Hs1. simpl. apply (Hplain key).
    by apply elem_of_map_to_list, list_elem_of_In. }
  assert (Hrun : sendCodeAsync W f s =
    (Ok tt, set_events (EvState (getState (set_files fs s1)) :: EvSchedulePublish
                          :: events (set_files fs s1)) (set_files fs s1))).
  { unfold sendCodeAsync, _publish, _sendStateEvent. unfold_monad.
    by rewrite Hrun1, Hrun2. }
  pose proof (sendCodeAsync_files W f s _ Hrun) as Hfs. simpl in Hfs. subst fs.
  rewrite Hrun, Hs1, set_files_set_files. done.
Qed.

(** X11.  For a bundle without blobs, [sendCodeAsync f] uploads nothing and only
    replaces the file map.  Whether the session is then saved is decided by
    the contents of the files, not by the identity of the file objects: it
    is saved exactly when the saved snapshot equals the contents of [f]
    together with the current name, description, dependencies and SDK
    version.  Sending back files with the saved contents, as new objects,
    makes an edited session saved again. *)
Theorem sendCodeAsync_saved_by_contents (W : World) (f : gmap string loc)
    (s : Session) :
  plain_files (heap s) f ->
  exists s',
    sendCodeAsync W f s = (Ok tt, s') /\
    heap s' = heap s /\ net s' = net s /\
    head (events s') = Some (EvState (getState s')) /\
    (v_isSaved (getState s') = true <-> initialState s = tuple_with f s).
Proof.
  intros Hplain. rewrite (sendCodeAsync_plain W f s Hplain).
  eexists. split; [reflexivity|]. simpl. do 3 (split; [done|]).
  apply _isSaved_iff.
Qed.

(** ** The setters *)

Lemma setName_outcome name' s :
  setName name' s =
  if bool_decide (name s = Some name') then (Ok tt, s)
  else
    let s' := set_name (Some name') s in
    (Ok tt, set_events (EvState (getState s') :: events s) s').
Proof. unfold setName, _sendStateEvent. unfold_monad. by case_bool_decide. Qed.

Lemma setDescription_outcome description' s :
  setDescription description' s =
  if bool_decide (description s = Some description') then (Ok tt, s)
  else
    let s' := set_description (Some description') s in
    (Ok tt, set_events (EvState (getState s') :: events s) s').
Proof. unfold setDescription, _sendStateEvent. unfold_monad. by case_bool_decide. Qed.

(** X12.  Setting the name to the one the session has does nothing and tells
    nobody.  Renaming a saved session tells the state listeners once, with a
    state that is not saved; naming it back tells them once more, with a
    state that is saved again, and apart from the two events the session is
    as it was. *)
Theorem setName_round_trip (s : Session) (saved renamed : string) :
  name s = Some saved ->
  _isSaved s = true ->
  renamed <> saved ->
  setName saved s = (Ok tt, s) /\
  exists v1 v2 s1,
    setName renamed s = (Ok tt, s1) /\
    events s1 = EvState v1 :: events s /\
    v_name v1 = Some renamed /\ v_isSaved v1 = false /\
    setName saved s1 =
      (Ok tt, set_events (EvState v2 :: EvState v1 :: events s) s) /\
    v_name v2 = Some saved /\ v_isSaved v2 = true.
Proof.
  intros Hname Hsaved Hne. rewrite !setName_outcome.
  rewrite (bool_decide_eq_true_2 (name s = Some saved)) by done.
  split; [done|].
  rewrite (bool_decide_eq_false_2 (name s = Some renamed))
    by (rewrite Hname; by intros [= ->]).
  apply _isSaved_iff in Hsaved.
  eexists _, (getState s), _. split; [reflexivity|]. simpl.
  split; [done|]. split; [done|]. split; [|split].
  - unfold _isSaved. apply bool_decide_eq_false. simpl. rewrite Hsaved.
    unfold current_tuple. simpl. rewrite Hname. by intros [= ->].
  - rewrite setName_outcome. simpl.
    rewrite bool_decide_eq_false_2 by (by intros [= ->]).
    cbv zeta. f_equal. destruct s; simpl in *. by subst.
  - simpl. split; [done|]. by apply _isSaved_iff.
Qed.

(** X13.  Setting the description to the one the session has does nothing and
    tells nobody.  Editing the description of a saved session tells the state
    listeners once, with a state that is not saved; setting it back tells
    them once more, with a state that is saved again, and apart from the two
    events the session is as it was. *)
Theorem setDescription_round_trip (s : Session) (saved edited : string) :
  description s = Some saved ->
  _isSaved s = true ->
  edited <> saved ->
  setDescription saved s = (Ok tt, s) /\
  exists v1 v2 s1,
    setDescription edited s = (Ok tt, s1) /\
    events s1 = EvState v1 :: events s /\
    v_description v1 = Some edited /\ v_isSaved v1 = false /\
    setDescription saved s1 =
      (Ok tt, set_events (EvState v2 :: EvState v1 :: events s) s) /\
    v_description v2 = Some saved /\ v_isSaved v2 = true.
Proof.
  intros Hname Hsaved Hne. rewrite !setDescription_outcome.
  rewrite (bool_decide_eq_true_2 (description s = Some saved)) by done.
  split; [done|].
  rewrite (bool_decide_eq_false_2 (description s = Some edited))
    by (rewrite Hname; by intros [= ->]).
  apply _isSaved_iff in Hsaved.
  eexists _, (getState s), _. split; [reflexivity|]. simpl.
  split; [done|]. split; [done|]. split; [|split].
  - unfold _isSaved. apply bool_decide_eq_false. simpl. rewrite Hsaved.
    unfold current_tuple. simpl. rewrite Hname. by intros [= ->].
  - rewrite setDescription_outcome. simpl.
    rewrite bool_decide_eq_false_2 by (by intros [= ->]).
    cbv zeta. f_equal. destruct s; simpl in *. by subst.
  - simpl. split; [done|]. by apply _isSaved_iff.
Qed.

(** X14.  [setSdkVersion] never raises.  With the version the session has it
    does nothing and tells nobody.  With another version it stores it, tells
    the state listeners at once with a state that shows the new version, and
    then starts the dependency engine; whatever the engine does afterwards,
    the version stays and no [CODE] envelope is published. *)
Theorem setSdkVersion_restarts_engine (W : World) (version : string) (s : Session) :
  if bool_decide (sdkVersion s = version) then setSdkVersion W version s = (Ok tt, s)
  else
    exists s' new,
      setSdkVersion W version s = (Ok tt, s') /\
      sdkVersion s' = version /\
      events s' = new ++ EvState (getState (set_sdkVersion version s)) :: events s /\
      Forall no_code new.
Proof.
  unfold setSdkVersion, not_awaited, _sendStateEvent. unfold_monad.
  case_bool_decide as Hv; simpl; [done|].
  match goal with
  | |- context [_handleFindDependenciesAsync W ?s1] =>
      destruct (_handleFindDependenciesAsync_outcome W s1) as (s' & Hrun & Hs');
      rewrite Hrun
  end.
  exists s'. simpl in Hs'.
  destruct (sdkSupportsFeature W version ARBITRARY_IMPORTS), (isResolving s);
    try (subst s'; exists []; by repeat split).
  destruct Hs' as (s2 & [_ _ _ _ Hver _ (new & He & Hnew) _ _ _] & ->).
  simpl in *.
  exists (EvState (getState (set_isResolving false (set_loadingMessage None s2))) :: new).
  split; [done|]. split; [done|]. rewrite He. split; [done|].
  constructor; [done|]. eapply Forall_impl; [exact Hnew|]. apply engine_event_no_code.
Qed.

(** ** Saving and downloading *)

(** X15.  A save that the endpoint does not answer with an id is rejected: with
    the message of the first error of the answer, with [Failed to save code]
    when there is none, or with the failure of the request itself.  One
    request was sent and the error was written to the console; the saved
    snapshot is untouched and no state event is emitted, so the session is
    exactly as saved or unsaved as before. *)
Theorem saveAsync_rejects (W : World) (s : Session) :
  let request := save_request W s in
  let reply := saveEndpoint W (net s) request in
  let e :=
    match reply with
    | Answer data => or_else (sd_error data) "Failed to save code"
    | Failure e => e
    end in
  match reply with
  | Answer data => truthy (sd_id data) = false
  | Failure _ => True
  end ->
  saveAsync W s =
    (Throw e,
     set_events (EvConsoleError e :: events s)
       (set_net (IoSave request reply :: net s) s)) /\
  _isSaved (saveAsync W s).2 = _isSaved s.
Proof.
  intros request reply e Hreply.
  assert (Hrun : saveAsync W s =
    (Throw e,
     set_events (EvConsoleError e :: events s)
       (set_net (IoSave request reply :: net s) s))).
  { subst request reply e. unfold saveAsync, try_catch. unfold_monad.
    destruct (saveEndpoint W (net s) (save_request W s)) as [data|e]; simpl; [|done].
    by rewrite Hreply. }
  by rewrite Hrun.
Qed.

(** X16.  Every call of [saveAsync] sends exactly one request, whether it
    resolves or rejects.  The request carries the files by their contents and
    the manifest of the session, with the dependencies exactly when the SDK
    version supports arbitrary imports, and the header [Authorization: Bearer
    <token>] exactly when the token set last is not empty. *)
Theorem saveAsync_request (W : World) (token : option string) (s : Session) :
  let s1 := (setAuthorizationToken token s).2 in
  exists request reply,
    net (saveAsync W s1).2 = IoSave request reply :: net s /\
    reply = saveEndpoint W (net s) request /\
    m_authorization request =
      (if truthy token then Some ("Bearer " +:+ default "" token) else None) /\
    m_code request = files_value s /\
    m_sdkVersion request = sdkVersion s /\
    m_name request = name s /\
    m_description request = description s /\
    m_dependencies request =
      (if sdkSupportsFeature W (sdkVersion s) ARBITRARY_IMPORTS
       then Some (dependencies s) else None).
Proof.
  intros s1. exists (save_request W s1), (saveEndpoint W (net s1) (save_request W s1)).
  split; [|by repeat split].
  unfold saveAsync, try_catch, _sendStateEvent. unfold_monad.
  destruct (saveEndpoint W (net s1) (save_request W s1)) as [data|e]; simpl; [|done].
  by destruct (truthy (sd_id data)).
Qed.

Lemma has_slash_iff id :
  has_slash id = true <-> exists a b, id = a +:+ "/" +:+ b.
Proof.
  induction id as [|c id IH]; simpl.
  - split; [done|]. intros (a & b & Heq). by destruct a.
  - rewrite orb_true_iff, IH. split.
    + intros [Hc|(a & b & ->)].
      * apply Ascii.eqb_eq in Hc as ->. by exists "", id.
      * by exists (String c a), b.
    + intros (a & b & Heq). destruct a as [|c' a]; simpl in Heq.
      * injection Heq as -> _. left. apply Ascii.eqb_refl.
      * injection Heq as _ ->. right. by exists a, b.
Qed.

(** X17.  A save answered with an id resolves to that id and to the address of
    the snack: [https://expo.io/<id>] when the id holds a slash, as in
    [@user/project], and [https://expo.io/@snack/<id>] otherwise.
    [downloadAsync] is that same save followed by nothing else: it leaves
    the session saved and resolves to the download address of the id. *)
Theorem saveAsync_urls (W : World) (s : Session) (data : SaveData) (id : string) :
  saveEndpoint W (net s) (save_request W s) = Answer data ->
  sd_id data = Some id ->
  id <> "" ->
  (saveAsync W s).1 =
    Ok (id, if has_slash id then "https://expo.io/" +:+ id
            else "https://expo.io/@snack/" +:+ id) /\
  (has_slash id = true <-> exists a b, id = a +:+ "/" +:+ b) /\
  downloadAsync W s =
    (Ok ("https://expo.io/--/api/v2/snack/download/" +:+ id), (saveAsync W s).2) /\
  _isSaved (downloadAsync W s).2 = true.
Proof.
  intros Hreply Hid Hne.
  assert (Htruthy : truthy (sd_id data) = true).
  { rewrite Hid. simpl. apply negb_true_iff. by apply String.eqb_neq. }
  assert (Hrun : exists s',
    saveAsync W s =
      (Ok (id, if has_slash id then "https://expo.io/" +:+ id
               else "https://expo.io/@snack/" +:+ id), s') /\
    _isSaved s' = true).
  { unfold saveAsync, try_catch, _sendStateEvent. unfold_monad.
    rewrite Hreply. simpl. rewrite Htruthy, Hid. simpl.
    eexists. split; [by destruct (has_slash id)|]. simpl. by apply _isSaved_iff. }
  destruct Hrun as (s' & Hrun & Hsaved).
  unfold downloadAsync. unfold_monad. rewrite Hrun. simpl.
  split; [done|]. split; [apply has_slash_iff|]. by split.
Qed.

(** ** Subscriptions *)

Lemma pull_addListener ls l : pull (addListener l ls) l = pull ls l.
Proof.
  unfold pull, addListener. rewrite List.filter_app. simpl.
  rewrite String.eqb_refl. simpl. by rewrite app_nil_r.
Qed.

Lemma not_in_pull ls l : ~ In l (pull ls l).
Proof.
  unfold pull. intros Hin. apply filter_In in Hin as [_ Hne].
  by rewrite String.eqb_refl in Hne.
Qed.

Lemma pull_absent ls l : ~ In l ls -> pull ls l = ls.
Proof.
  intros Hnot. unfold pull. apply filter_kept_all. intros y Hy.
  apply negb_true_iff, String.eqb_neq. by intros ->.
Qed.

Lemma forEach_called_registered removes ls l :
  In l (forEach removes ls).2 -> In l ls.
Proof.
  unfold forEach.
  destruct (forEach_from_sublist removes (length ls) 0 ls []) as (more & -> & Hsub).
  rewrite drop_0 in Hsub. simpl. intros Hin.
  apply list_elem_of_In. eapply elem_of_sublist; [|exact Hsub]. by apply list_elem_of_In.
Qed.

Lemma told_after_pull {A} removes ls l (make : Listener -> A) (told' : A -> Listener) :
  (forall x, told' (make x) = x) ->
  Forall (fun d => told' d <> l)
    (reverse (make <$> (forEach removes (pull ls l)).2)).
Proof.
  intros Htold. apply Forall_reverse, Forall_fmap, Forall_forall.
  intros x Hx. simpl. rewrite Htold. intros ->.
  apply list_elem_of_In, forEach_called_registered in Hx.
  by apply not_in_pull in Hx.
Qed.

(** X18.  Removing a subscription takes the listener out of the array it was
    added to, in all the places where it stands there, and leaves the other
    listeners in their order; if the listener was not registered before, the
    array is as it was before the subscription.  From then on no error, log
    or presence event is handed to that listener, whatever the other
    listeners remove while they run. *)
Theorem remove_silences (removes : string -> list string) (listener : string)
    (c : Client) :
  let unsubscribed (add : string -> Client -> ExpoSubscription * Client) :=
    remove (add listener c).1 (add listener c).2 in
  errorListeners (unsubscribed addErrorListener) = pull (errorListeners c) listener /\
  logListeners (unsubscribed addLogListener) = pull (logListeners c) listener /\
  presenceListeners (unsubscribed addPresenceListener) =
    pull (presenceListeners c) listener /\
  stateListeners (unsubscribed addStateListener) = pull (stateListeners c) listener /\
  (~ In listener (errorListeners c) -> unsubscribed addErrorListener = c) /\
  (forall errors,
     exists new,
       delivered (_sendErrorEvent removes errors (unsubscribed addErrorListener)) =
         new ++ delivered c /\
       Forall (fun d => told d <> listener) new) /\
  (forall log,
     exists new,
       delivered (_sendLogEvent removes log (unsubscribed addLogListener)) =
         new ++ delivered c /\
       Forall (fun d => told d <> listener) new) /\
  (forall device status,
     exists new,
       delivered
         (_sendPresenceEvent removes device status (unsubscribed addPresenceListener)) =
         new ++ delivered c /\
       Forall (fun d => told d <> listener) new).
Proof.
  intros unsubscribed. subst unsubscribed. cbv beta.
  unfold addErrorListener, addLogListener, addPresenceListener, addStateListener,
    remove. simpl.
  rewrite !pull_addListener. do 4 (split; [done|]). split; [|split; [|split]].
  - intros Hnot. rewrite pull_absent by done. by destruct c.
  - intros errors. unfold _sendErrorEvent. simpl.
    destruct (forEach removes (pull (errorListeners c) listener)) as [ls called] eqn:Hf.
    simpl. eexists. split; [reflexivity|].
    pose proof (told_after_pull removes (errorListeners c) listener
                  (fun l => ToErrorListener l errors) told (fun _ => eq_refl)) as H.
    by rewrite Hf in H.
  - intros log. unfold _sendLogEvent. simpl.
    destruct (forEach removes (pull (logListeners c) listener)) as [ls called] eqn:Hf.
    simpl. eexists. split; [reflexivity|].
    pose proof (told_after_pull removes (logListeners c) listener
                  (fun l => ToLogListener l log) told (fun _ => eq_refl)) as H.
    by rewrite Hf in H.
  - intros device status. unfold _sendPresenceEvent. simpl.
    destruct (forEach removes (pull (presenceListeners c) listener)) as [ls called] eqn:Hf.
    simpl. eexists. split; [reflexivity|].
    pose proof (told_after_pull removes (presenceListeners c) listener
                  (fun l => ToPresenceListener l device status) told (fun _ => eq_refl)) as H.
    by rewrite Hf in H.
Qed.

(** ** Messages from the devices *)

(** X19.  An [ERROR] message without an error, or with an empty one, hands the
    empty list to the error listeners.  Otherwise the error is parsed: when
    the parse fails, or yields [null], the handler raises and no listener is
    called; else the listeners get a single error.  Its range is a point
    (the start and the end are the same line and the same column), its
    message is the parsed one or the empty string, and its device is the one
    of the message.  The position is that of [loc] whenever [loc] is
    present, whatever [line] and [column] say; without [loc] it is [line]
    and [column], each taken only when it is not zero. *)
Theorem _handleErrorMessage_decodes (B : Builtins) (removes : string -> list string)
    (message : Json) (c : Client) :
  let run := _handleErrorMessage B removes message c in
  let error := field message "error" in
  if js_truthy error then
    match JSON_parse B (default JNull error) with
    | Failure e => run = (Throw e, c)
    | Answer JNull => run = (Throw TypeError, c)
    | Answer raw =>
        exists errorObject,
          run = (Ok tt, _sendErrorEvent removes [errorObject] c) /\
          endLine errorObject = startLine errorObject /\
          endColumn errorObject = startColumn errorObject /\
          e_device errorObject = field message "device" /\
          e_stack errorObject = field raw "stack" /\
          e_message errorObject =
            (if js_truthy (field raw "message")
             then default JNull (field raw "message") else JString "") /\
          if js_truthy (field raw "loc") then
            startLine errorObject = field (default JNull (field raw "loc")) "line" /\
            startColumn errorObject = field (default JNull (field raw "loc")) "column"
          else
            startLine errorObject =
              (if js_truthy (field raw "line") then field raw "line" else None) /\
            startColumn errorObject =
              (if js_truthy (field raw "column") then field raw "column" else None)
    end
  else run = (Ok tt, _sendErrorEvent removes [] c).
Proof.
  intros run error. subst run error. unfold _handleErrorMessage.
  destruct (js_truthy (field message "error")); [|done].
  destruct (JSON_parse B _) as [raw|e]; [|done].
  assert (Hobject : exists errorObject,
    errorObject = errorObject_of (field message "device") raw /\
    endLine errorObject = startLine errorObject /\
    endColumn errorObject = startColumn errorObject /\
    e_device errorObject = field message "device" /\
    e_stack errorObject = field raw "stack" /\
    e_message errorObject =
      (if js_truthy (field raw "message")
       then default JNull (field raw "message") else JString "") /\
    if js_truthy (field raw "loc") then
      startLine errorObject = field (default JNull (field raw "loc")) "line" /\
      startColumn errorObject = field (default JNull (field raw "loc")) "column"
    else
      startLine errorObject =
        (if js_truthy (field raw "line") then field raw "line" else None) /\
      startColumn errorObject =
        (if js_truthy (field raw "column") then field raw "column" else None)).
  { eexists. split; [reflexivity|]. unfold errorObject_of.
    generalize (field raw "loc") (field raw "line") (field raw "column")
      (field raw "message") (field raw "stack").
    intros loc line column text stack.
    destruct (js_truthy loc), (js_truthy line), (js_truthy column); by repeat split. }
  destruct Hobject as (errorObject & -> & Hrest).
  destruct raw; try done; by eexists.
Qed.

Lemma on_session_not_awaited W c :
  on_session (not_awaited (_publishNotDebouncedAsync W)) c =
  (Ok tt, set_session (_publishNotDebouncedAsync W (session c)).2 c).
Proof.
  unfold on_session, not_awaited.
  pose proof (reach_publishNotDebouncedAsync W (fun _ => True) (session c)) as Hrun.
  unfold run_ok in Hrun.
  destruct (_publishNotDebouncedAsync W (session c)) as [[[]|e|] s']; [done..|].
  destruct Hrun; try done; repeat split; by intros.
Qed.

(** X20.  Of the messages that a device can send, only [RESEND_CODE] reaches the
    session: it runs the undebounced publish and returns normally even when
    that publish is rejected.  A [CONSOLE] or an [ERROR] message leaves the
    session, the transport and the console as they are; a message of any
    other type, or without a type, changes nothing at all; and a message
    that is [null] makes the callback raise. *)
Theorem on_message_dispatch (W : World) (B : Builtins)
    (removes : string -> list string) (message : Json) (c : Client) :
  let run := on_message W B removes message c in
  match message with
  | JNull => run = (Throw TypeError, c)
  | _ =>
      match message_type message with
      | Some type' =>
          if String.eqb type' "RESEND_CODE" then
            run = (Ok tt, set_session (_publishNotDebouncedAsync W (session c)).2 c)
          else if String.eqb type' "CONSOLE" || String.eqb type' "ERROR" then
            session run.2 = session c /\ transport run.2 = transport c /\
            console run.2 = console c
          else run = (Ok tt, c)
      | None => run = (Ok tt, c)
      end
  end.
Proof.
  assert (Hlog : forall log c', session (_sendLogEvent removes log c') = session c' /\
    transport (_sendLogEvent removes log c') = transport c' /\
    console (_sendLogEvent removes log c') = console c').
  { intros log c'. unfold _sendLogEvent. by destruct (forEach _ _). }
  assert (Herr : forall errors c', session (_sendErrorEvent removes errors c') = session c' /\
    transport (_sendErrorEvent removes errors c') = transport c' /\
    console (_sendErrorEvent removes errors c') = console c').
  { intros errors c'. unfold _sendErrorEvent. by destruct (forEach _ _). }
  intros run. subst run. unfold on_message, message_type.
  destruct message as [|b|n|text|items|fields]; try done. simpl.
  destruct (fields !! "type") as [[|b|n|type'|items|fields']|] eqn:Htype; try done.
  destruct (String.eqb type' "CONSOLE") eqn:Hconsole.
  { apply String.eqb_eq in Hconsole as ->. simpl.
    unfold _handleLogMessage. destruct (if js_truthy _ then _ else _); try done.
    apply Hlog. }
  destruct (String.eqb type' "ERROR") eqn:Herror.
  { apply String.eqb_eq in Herror as ->. simpl.
    unfold _handleErrorMessage.
    destruct (js_truthy _); [|apply Herr].
    destruct (JSON_parse B _) as [raw|e]; [|done].
    destruct raw; try done; apply Herr. }
  simpl. destruct (String.eqb type' "RESEND_CODE"); [|done].
  unfold _handleResendCodeMessage. apply on_session_not_awaited.
Qed.

(** X21.  The presence callback never raises.  An event whose [uuid] is not JSON
    is ignored, and so is every action but [join], [timeout] and [leave].  A
    [timeout] is handled exactly as a [leave]: the presence listeners are
    told that the device left and nothing else happens.  Only a [join]
    reaches the session: the undebounced publish runs, a rejection of it is
    lost, and the presence listeners are told that the device joined. *)
Theorem on_presence_dispatch (W : World) (B : Builtins)
    (removes : string -> list string) (action uuid : string) (c : Client) :
  let run := on_presence W B removes action uuid c in
  run.1 = Ok tt /\
  on_presence W B removes "timeout" uuid c = on_presence W B removes "leave" uuid c /\
  match JSON_parse B (JString uuid) with
  | Failure _ => run.2 = c
  | Answer device =>
      if String.eqb action "join" then
        run.2 =
          _sendPresenceEvent removes device "join"
            (set_session (_publishNotDebouncedAsync W (session c)).2 c)
      else if String.eqb action "timeout" || String.eqb action "leave" then
        run.2 = _sendPresenceEvent removes device "leave" c
      else run.2 = c
  end.
Proof.
  intros run. subst run. unfold on_presence, _handleJoinMessage, _handleLeaveMessage.
  rewrite on_session_not_awaited. simpl.
  destruct (JSON_parse B (JString uuid)) as [device|e]; [|done].
  destruct (String.eqb action "join"); [done|].
  by destruct (String.eqb action "timeout" || String.eqb action "leave").
Qed.

(** ** Starting and stopping *)

(** X22.  On a constructed session [startAsync] subscribes, with presence, to the
    channel of the session, and [stopAsync] unsubscribes from that same
    channel; [isStarted] is set by the first and stays set after the second.
    [stopAsync] also forgets every upload URL of the ledger, while it keeps
    the copies and the diffs.  So in the next snapshot every file that is
    sent inline is diffed against the empty string, even one whose uploaded
    copy is still in the ledger. *)
Theorem stopAsync_forgets_urls (W : World) (c : Client) :
  pubnub (session c) = true ->
  uploads_succeed W ->
  exists c1 c2,
    startAsync c = (Ok tt, c1) /\
    stopAsync c1 = (Ok tt, c2) /\
    transport c2 =
      PnUnsubscribe [channel (session c)]
      :: PnSubscribe [channel (session c)] true :: transport c /\
    isStarted c1 = true /\ isStarted c2 = true /\
    session c2 = set_s3url ∅ (session c) /\
    exists fileSize s',
      _uploadHelper W (session c2) = (Ok fileSize, s') /\
      forall key file code,
        file_at (session c) key = Some file ->
        contents file = Str code ->
        startsWith code S3_BUCKET_URL = false ->
        diff s' !! key = Some (getFileDiff W (Some (Str "")) code) /\
        s3url s' !! key = None.
Proof.
  intros Hpub Hup. unfold startAsync, stopAsync, _subscribe, _unsubscribe. simpl.
  rewrite Hpub. eexists _, _. split; [reflexivity|]. simpl. rewrite Hpub.
  split; [reflexivity|]. simpl. do 4 (split; [done|]).
  destruct (_uploadHelper_entries W (set_s3url ∅ (session c)) Hup)
    as (fileSize & s' & Hrun & _ & _ & Hentry & _).
  exists fileSize, s'. split; [done|].
  intros key file code Hfile Hcode Hinline. specialize (Hentry key).
  unfold snapshot_entry in Hentry.
  replace (file_at (set_s3url ∅ (session c)) key) with (Some file) in Hentry.
  rewrite Hcode, Hinline in Hentry. simpl in Hentry.
  rewrite lookup_empty in Hentry. simpl in Hentry.
  unfold ledger_at in Hentry. by injection Hentry as -> _ ->.
Qed.

(** ** The life of a client *)

Section Life.
Context (W : World) (B : Builtins) (removes : string -> list string).
Context (I : Session -> Prop).

Lemma session_sendErrorEvent errors c :
  session (_sendErrorEvent removes errors c) = session c.
Proof. unfold _sendErrorEvent. by destruct (forEach _ _). Qed.

Lemma session_sendLogEvent log c :
  session (_sendLogEvent removes log c) = session c.
Proof. unfold _sendLogEvent. by destruct (forEach _ _). Qed.

Lemma session_sendPresenceEvent device status c :
  session (_sendPresenceEvent removes device status c) = session c.
Proof. unfold _sendPresenceEvent. by destruct (forEach _ _). Qed.

Lemma run_ok_final {A} t (Q : A -> Prop) (m : M A) s :
  run_ok I t Q m s -> I (m s).2.
Proof. unfold run_ok. destruct (m s) as [[a|e|] s']; simpl; [by intros []..|done]. Qed.

Lemma session_on_session {A} (m : M A) c :
  session (on_session m c).2 = (m (session c)).2.
Proof. unfold on_session. by destruct (m (session c)). Qed.

Lemma react_keeps input c :
  calls_closed I ->
  (forall s, I s -> I (_publishNotDebouncedAsync W s).2) ->
  (forall s, I s -> I (_handleFindDependenciesAsync W s).2) ->
  (forall version s, I s -> I (setSdkVersion W version s).2) ->
  I (session c) -> I (session (react W B removes input c)).
Proof.
  intros [Hfiles Hsave Hurl Hver Hname Hdesc Htoken Hcreate] Hpublish Hengine Hsdk Hc.
  pose proof Hfiles as [_ _ Hnet]. pose proof Hsave as [_ _ Hgrows].
  destruct input; simpl; rewrite ?session_on_session.
  - destruct (heap (session c) !! l) eqn:Hl; [done|]. simpl. by apply Hcreate.
  - unfold startAsync, _subscribe. simpl. by destruct (pubnub (session c)).
  - unfold stopAsync, _unsubscribe. simpl.
    destruct (pubnub (session c)); simpl; by apply Hurl.
  - apply (run_ok_final true (fun _ => True)). by apply reach_uploadAssetToS3.
  - apply (run_ok_final true (fun _ => True)). by apply reach_sendCodeAsync.
  - apply (run_ok_final true (fun _ => True)). by apply reach_downloadAsync.
  - apply (run_ok_final true (fun _ => True)). by apply reach_saveAsync.
  - by apply Hsdk.
  - apply (run_ok_final true (fun _ => True)). by apply reach_setName.
  - apply (run_ok_final true (fun _ => True)). by apply reach_setDescription.
  - by apply Htoken.
  - done.
  - done.
  - done.
  - done.
  - unfold remove. by destruct (sub_kind subscription).
  - unfold on_message. destruct (prop message "type") as [[[|b|n|type'|items|fields]|]|e];
      try done.
    destruct (String.eqb type' "CONSOLE").
    { unfold _handleLogMessage. destruct (if js_truthy _ then _ else _); try done.
      simpl. by rewrite session_sendLogEvent. }
    destruct (String.eqb type' "ERROR").
    { unfold _handleErrorMessage.
      destruct (js_truthy _); [|simpl; by rewrite session_sendErrorEvent].
      destruct (JSON_parse B _) as [raw|e]; [|done].
      destruct raw; try done; simpl; by rewrite session_sendErrorEvent. }
    destruct (String.eqb type' "RESEND_CODE"); [|done].
    unfold _handleResendCodeMessage. rewrite on_session_not_awaited. simpl.
    by apply Hpublish.
  - unfold on_presence. destruct (JSON_parse B (JString uuid)) as [device|e]; [|done].
    destruct (String.eqb action "join").
    { unfold _handleJoinMessage. rewrite on_session_not_awaited. simpl.
      rewrite session_sendPresenceEvent. simpl. by apply Hpublish. }
    destruct (_ || _); [|done].
    unfold _handleLeaveMessage. simpl. by rewrite session_sendPresenceEvent.
  - unfold on_status, _subscribe, _log.
    repeat (match goal with |- context [if ?b then _ else _] => destruct b end;
            simpl; try done).
  - by apply Hpublish.
  - by apply Hengine.
Qed.

Lemma life_keeps inputs :
  calls_closed I ->
  (forall s, I s -> I (_publishNotDebouncedAsync W s).2) ->
  (forall s, I s -> I (_handleFindDependenciesAsync W s).2) ->
  (forall version s, I s -> I (setSdkVersion W version s).2) ->
  forall c, I (session c) -> I (session (life W B removes inputs c)).
Proof.
  intros Hcalls Hpublish Hengine Hsdk. unfold life.
  induction inputs as [|input inputs IH]; intros c Hc; simpl; [done|].
  apply IH. by apply react_keeps.
Qed.
End Life.

Lemma write_contents_heap key c s :
  exists h, write_contents key c s = set_heap h s.
Proof.
  unfold write_contents. destruct (files s !! key); [by eexists|].
  exists (heap s). by destruct s.
Qed.

Lemma calls_closed_intro (I : Session -> Prop) :
  grows I -> stable I set_files -> stable I set_heap -> stable I set_net ->
  stable I set_initialState -> stable I set_s3url -> stable I set_sdkVersion ->
  stable I set_name -> stable I set_description ->
  stable I set_authorizationToken ->
  calls_closed I.
Proof.
  intros Hg Hf Hh Hn Hi Hu Hv Hna Hd Ht. split; try done.
  - split; try done. intros key url s Hs.
    destruct (write_contents_heap key (Str url) s) as [h ->]. by apply Hh.
  - split; try done. intros s Hs. by apply Hi.
  - intros l file s _ Hs. by apply Hh.
Qed.

Lemma engine_closed_intro W (I : Session -> Prop) :
  grows I -> stable I set_net -> stable I set_promises ->
  stable I set_loadingMessage -> stable I set_isResolving -> stable I set_heap ->
  (forall m s, I s -> I (set_dependencies (m ∪ dependencies s) s)) ->
  engine_closed W I.
Proof.
  intros Hg Hn Hp Hl Hr Hh Hd. split; try done.
  intros key code s _ _ Hs.
  destruct (write_contents_heap key (Str code) s) as [h ->]. by apply Hh.
Qed.

Lemma life_keeps_closed W B removes (I : Session -> Prop) inputs c :
  calls_closed I -> engine_closed W I -> ledger_closed I ->
  I (session c) -> I (session (life W B removes inputs c)).
Proof.
  intros Hcalls Hengine Hledger. revert c. apply life_keeps; [done|..].
  - intros s Hs. apply (run_ok_final I true (fun _ => True)).
    by apply reach_publishNotDebouncedAsync.
  - intros s Hs. apply (run_ok_final I false (fun _ => True)).
    by apply reach_handleFindDependenciesAsync.
  - intros version s Hs. apply (run_ok_final I false (fun _ => True)).
    apply reach_setSdkVersion; [done| |done]. by destruct Hcalls.
Qed.







Lemma _publishNotDebouncedAsync_at_rest W s :
  at_rest s -> at_rest (_publishNotDebouncedAsync W s).2.
Proof.
  intros [Hres Hload].
  destruct (_publishNotDebouncedAsync_code_path W s) as
    (s1 & new & _ & _ & _ & _ & _ & Hr & Hl & _ & _ & Hrun); [by rewrite Hload|done|].
  assert (Hl1 : loadingMessage s1 = None)
    by (destruct Hl as [Hl|Hl]; [done|by rewrite Hl]).
  rewrite Hrun. clear Hrun. cbv zeta.
  assert (Hlast : forall message s2, at_rest s2 -> at_rest (publish message s2).2).
  { intros message s2 Hs2. rewrite publish_outcome. by destruct (pubnub s2). }
  destruct (sdkSupportsFeature W (sdkVersion s1) MULTIPLE_FILES).
  - pose proof (run_handleUploadCodeAsync W s1) as Hup. unfold run_ok in Hup.
    destruct (_handleUploadCodeAsync W s1) as [[[]|e|] s2]; [| |done].
    + destruct Hup as [[] _]. apply Hlast. split; congruence.
    + destruct Hup as [[] _]. split; simpl; congruence.
  - destruct (file_at s1 "app.js"); [by apply Hlast|done].
Qed.

Lemma _handleFindDependenciesAsync_at_rest W s :
  at_rest s -> at_rest (_handleFindDependenciesAsync W s).2.
Proof.
  intros [Hres Hload].
  destruct (_handleFindDependenciesAsync_summary W s Hres)
    as (s1 & -> & _ & _ & _ & _ & _ & Hr & Hl & _).
  split; [done|]. destruct Hl as [Hl|Hl]; [done|by rewrite Hl].
Qed.

(** X24.  When every call, event and timer is left to run to its end before
    the next one starts, a session at rest ([isResolving] false and
    [loadingMessage] null) is at rest again after any sequence of them, and
    after one more undebounced publish: no call, no event and no failure of
    the scanner, the bundler, the CDN or the object store leaves the session
    stuck in the resolving or loading state, in which it would publish no
    code. *)
Theorem life_at_rest (W : World) (B : Builtins) (removes : string -> list string)
    (c0 : Client) (inputs : list Input) :
  at_rest (session c0) ->
  let s := session (life W B removes inputs c0) in
  isResolving s = false /\ loadingMessage s = None /\
  isResolving (_publishNotDebouncedAsync W s).2 = false /\
  loadingMessage (_publishNotDebouncedAsync W s).2 = None.
Proof.
  intros Hstart.
  assert (Hrest : at_rest (session (life W B removes inputs c0))).
  { apply life_keeps; [| | | |done].
    - apply calls_closed_intro; by intros v s Hs.
    - apply _publishNotDebouncedAsync_at_rest.
    - apply _handleFindDependenciesAsync_at_rest.
    - intros version s Hs. unfold setSdkVersion, not_awaited, _sendStateEvent.
      unfold_monad. destruct (negb _); [|done]. simpl.
      match goal with
      | |- context [_handleFindDependenciesAsync W ?s1] =>
          pose proof (_handleFindDependenciesAsync_at_rest W s1 Hs) as Hrun;
          destruct (_handleFindDependenciesAsync W s1) as [[[]|e|] s']
      end; done. }
  intros s. subst s. split; [apply Hrest|]. split; [apply Hrest|].
  apply _publishNotDebouncedAsync_at_rest, Hrest.
Qed.

(** X25.  No dependency is ever removed: a module that is in the dependencies of
    a session, at its construction or at any later point, is still there
    after any sequence of calls, events, timers and runs of the engine. *)
Theorem life_dependencies_grow (W : World) (B : Builtins)
    (removes : string -> list string) (before after : list Input) (c : Client) :
  dom (dependencies (session (life W B removes before c))) ⊆
  dom (dependencies (session (life W B removes (before ++ after) c))).
Proof.
  unfold life. rewrite foldl_app. fold (life W B removes before c).
  set (c1 := life W B removes before c).
  fold (life W B removes after c1).
  apply (life_keeps_closed W B removes
           (fun s => dom (dependencies (session c1)) ⊆ dom (dependencies s))); [| | |done].
  - apply calls_closed_intro; by intros v s Hs.
  - apply engine_closed_intro; try (by intros v s Hs).
    intros m s Hs. simpl. etrans; [exact Hs|]. rewrite dom_union. apply union_subseteq_r.
  - split; by intros v s Hs.
Qed.

(** ** From [sendCodeAsync] to the snapshot *)

Lemma sendCodeAsync_uploads W f s :
  uploads_succeed W ->
  (forall key l, f !! key = Some l -> is_Some (heap s !! l)) ->
  exists s',
    sendCodeAsync W f s = (Ok tt, s') /\
    files s' = f /\
    forall key l b,
      f !! key = Some l -> files s !! key <> Some l ->
      heap s !! l = Some (mkFile ASSET (Blob b)) ->
      exists url hist,
        uploadAssetToS3 W hist (Blob b) expoApiUrl = Answer url /\
        heap s' !! l = Some (mkFile ASSET (Str url)).
Proof.
  intros Hup Hheap. unfold sendCodeAsync, _publish, _sendStateEvent.
  destruct (sendCode_prune f (keys (files s)) s) as (s1 & Hrun1 & Hs1 & Hf1).
  assert (Hh1 : heap s1 = heap s) by (by rewrite Hs1).
  destruct (sendCode_updates W (heap s) (map_to_list f) Hup
              (NoDup_fst_map_to_list f) s1)
    as (s2 & Hrun2 & Hf2 & Hfrom2 & Hnew2 & Hkeep2 & He2).
  { intros key l Hin. rewrite Hh1. apply (Hheap key).
    by apply elem_of_map_to_list, list_elem_of_In. }
  { intros l. left. by rewrite Hh1. }
  unfold_monad. rewrite Hrun1, Hrun2. simpl.
  eexists. split; [reflexivity|]. simpl. split.
  - apply (sendCodeAsync_files W f s
             (set_events (EvState (getState (set_events (EvSchedulePublish :: events s2) s2))
                          :: EvSchedulePublish :: events s2) s2)).
    unfold sendCodeAsync, _publish, _sendStateEvent. unfold_monad.
    by rewrite Hrun1, Hrun2.
  - intros key l b Hkey Hchanged Hblob.
    assert (Hin : In (key, l) (map_to_list f))
      by (by apply list_elem_of_In, elem_of_map_to_list).
    assert (Hnot : ~ asset_blob (heap s2 !! l)).
    { apply (Hnew2 key l Hin). rewrite Hf1.
      by rewrite decide_True by (rewrite elem_of_dom, Hkey; by eexists). }
    destruct (Hfrom2 l) as [Heq|(b' & url & hist & Hb' & Hstr & Hans)].
    + exfalso. apply Hnot. exists b. by rewrite Heq.
    + rewrite Hblob in Hb'. injection Hb' as <-. by exists url, hist.
Qed.

(** X26.  A picture that [sendCodeAsync] uploaded travels by reference from then
    on: when the object store answers with addresses of its bucket, the next
    snapshot finds the URL in the file, uploads nothing for it, and enters
    the URL in the ledger with an empty diff. *)
Theorem sendCodeAsync_then_snapshot (W : World) (f : gmap string loc) (s : Session)
    (key : string) (l : loc) (b : positive) :
  uploads_succeed W ->
  uploads_to_bucket W ->
  (forall key l, f !! key = Some l -> is_Some (heap s !! l)) ->
  f !! key = Some l ->
  files s !! key <> Some l ->
  heap s !! l = Some (mkFile ASSET (Blob b)) ->
  exists s1 fileSize s2 url,
    sendCodeAsync W f s = (Ok tt, s1) /\
    file_at s1 key = Some (mkFile ASSET (Str url)) /\
    _uploadHelper W s1 = (Ok fileSize, s2) /\
    ledger_at s2 key = (Some "", Some (Str url), Some url).
Proof.
  intros Hup Hbucket Hheap Hkey Hchanged Hblob.
  destruct (sendCodeAsync_uploads W f s Hup Hheap) as (s1 & Hrun & Hfiles & Hurl).
  destruct (Hurl key l b Hkey Hchanged Hblob) as (url & hist & Hans & Hfile).
  destruct (_uploadHelper_entries W s1 Hup) as (fileSize & s2 & Hsnap & _ & _ & Hentry & _).
  exists s1, fileSize, s2, url. split; [done|].
  assert (Hat : file_at s1 key = Some (mkFile ASSET (Str url))).
  { unfold file_at. rewrite Hfiles, Hkey. simpl. exact Hfile. }
  split; [done|]. split; [done|].
  specialize (Hentry key). unfold snapshot_entry in Hentry. rewrite Hat in Hentry.
  simpl in Hentry. by rewrite (Hbucket _ _ _ _ Hans) in Hentry.
Qed.

(** ** Construction *)

(** X27.  The constructor raises exactly when the channel has fewer than six
    characters, the channel being the session id of the options or, when
    that is missing or empty, a generated id.  Otherwise it returns a client
    that is not started, has called nothing on the transport, has no
    listener and an empty ledger, holds the files of the options as they are
    and counts as saved.  When the SDK version supports arbitrary imports the
    dependency engine is running by then: [isResolving] is true, the loading
    message is null or the one of the engine, the only events so far are
    state events that show [isResolving] (no envelope was published, the
    transport not being there yet) and the only requests are polls of the
    bundler.  Otherwise nothing was started. *)
Theorem new_SnackSession_checks_channel (W : World) (options : ClientOptions)
    (h : gmap loc File) :
  let id := or_else (o_sessionId (o_session options)) (shortid_generate W) in
  let version := or_else (o_sdkVersion (o_session options)) (defaultSDKVersion W) in
  (truthy (o_sessionId (o_session options)) = false -> id = shortid_generate W) /\
  if bool_decide (String.length id < 6)%nat then
    new_SnackSession W options h = Throw "Please use a channel id with more entropy"
  else
    exists c,
      new_SnackSession W options h = Ok c /\
      getChannel (session c) = id /\
      sdkVersion (session c) = version /\
      files (session c) = o_files (o_session options) /\
      heap (session c) = h /\
      dependencies (session c) = default ∅ (o_dependencies (o_session options)) /\
      ledger_at (session c) = (fun _ => (None, None, None)) /\
      _isSaved (session c) = true /\
      pubnub (session c) = true /\
      isStarted c = false /\ transport c = [] /\ delivered c = [] /\
      errorListeners c = [] /\ logListeners c = [] /\
      presenceListeners c = [] /\ stateListeners c = [] /\
      if sdkSupportsFeature W version ARBITRARY_IMPORTS then
        isResolving (session c) = true /\
        (loadingMessage (session c) = None \/
         loadingMessage (session c) = Some "Installing dependencies") /\
        Forall (state_event true) (events (session c)) /\
        Forall (fun io => is_poll io = true) (net (session c))
      else
        isResolving (session c) = false /\ loadingMessage (session c) = None /\
        events (session c) = [] /\ net (session c) = [].
Proof.
  intros id version. split.
  { intros Hfalsy. subst id. unfold or_else. by rewrite Hfalsy. }
  case_bool_decide as Hshort.
  - unfold new_SnackSession, constructor, Async.constructor. fold id.
    rewrite bool_decide_eq_true_2; [done|]. unfold MIN_CHANNEL_LENGTH. lia.
  - destruct (constructor_returns W (o_session options) h) as (mc & _ & Hmc & Hcase).
    { fold id. unfold MIN_CHANNEL_LENGTH. lia. }
    destruct (isSaved_constructed W (o_session options) h _ Hmc) as [Hsaved _].
    unfold new_SnackSession. rewrite Hmc.
    eexists. split; [reflexivity|]. unfold getChannel. simpl. fold version in Hcase.
    change (sdkVersion (blank_session W (o_session options) h)) with version in Hcase.
    destruct (sdkSupportsFeature W version ARBITRARY_IMPORTS).
    + destruct Hcase as [Hs _].
      rewrite (started_channel _ _ Hs), (started_sdkVersion _ _ Hs),
        (started_files _ _ Hs), (started_heap _ _ Hs), (started_dependencies _ _ Hs),
        (started_pubnub _ _ Hs), (started_isResolving _ _ Hs).
      unfold ledger_at.
      rewrite (started_diff _ _ Hs), (started_s3code _ _ Hs), (started_s3url _ _ Hs).
      do 16 (split; [done|]). split; [exact (started_loadingMessage _ _ Hs)|].
      destruct (started_events _ _ Hs) as (ev & -> & Hev).
      destruct (started_net _ _ Hs) as (nt & -> & Hnt).
      simpl. by rewrite !app_nil_r.
    + destruct Hcase as [Hs _]. rewrite Hs in *. by repeat split.
Qed.

(** ** Instances *)

Lemma _handleFindDependenciesAsync_up_to_date_witness :
  let s1 := set_loadingMessage None resolved_session in
  _handleFindDependenciesAsync redux_world resolved_session =
    (Ok tt, set_events (EvState (getState s1) :: events resolved_session) s1).
Proof.
  apply (_handleFindDependenciesAsync_up_to_date redux_world resolved_session);
    [reflexivity|reflexivity|].
  intros key l Hkey Hjs.
  change (files resolved_session) with ({[ "app.js" := 1%positive ]} : gmap string loc)
    in Hkey.
  apply lookup_singleton_Some in Hkey as [<- <-].
  eexists. split; [reflexivity|]. unfold up_to_date. simpl.
  assert (Hpick : pick_modules {[ "react-redux" := Some "5.0.6"; "react" := None ]}
                  = {[ "react-redux" := Some "5.0.6" ]}) by (vm_compute; reflexivity).
  unfold redux_scanner. rewrite Hpick. intros name version Hname.
  apply lookup_singleton_Some in Hname as [<- <-].
  exists "5.0.6". split; [reflexivity|vm_compute; reflexivity].
Defined.

Lemma failing_world_found :
  (_checkS3ForDepencencyAsync failing_world "lodash" (or_else None "latest")
     (_tryFetchDependencyAsync failing_world "lodash" None fresh_session).2).1 = Ok true.
Proof. vm_compute. reflexivity. Qed.

Lemma _maybeFetchDependencyAsync_fallback_witness :
  exists data s',
    _maybeFetchDependencyAsync failing_world "lodash" None fresh_session =
      (Ok data, s') /\
    d_name data = "lodash" /\ pending data = false /\
    d_error data = Some "Error: Internal error".
Proof.
  destruct (_maybeFetchDependencyAsync_fallback failing_world "lodash" None
              fresh_session
              (_tryFetchDependencyAsync failing_world "lodash" None fresh_session).2
              "Internal error")
    as (data & s' & Hrun & Hname & Hpending & _ & Hcase);
    [vm_compute; reflexivity|vm_compute; reflexivity|].
  rewrite failing_world_found in Hcase. destruct Hcase as (_ & Herror & _).
  exists data, s'. split; [exact Hrun|]. split; [exact Hname|].
  split; [exact Hpending|exact Herror].
Defined.

Lemma _uploadHelper_classifies_witness :
  exists fileSize s',
    _uploadHelper quiet_world two_files_session = (Ok fileSize, s') /\
    forall key, snapshot_entry quiet_world two_files_session s' key.
Proof.
  destruct (_uploadHelper_classifies quiet_world two_files_session)
    as (fileSize & s' & Hrun & _ & _ & Hentry & _);
    [split; intros; eexists; reflexivity|].
  exists fileSize, s'. split; [exact Hrun|exact Hentry].
Defined.



Lemma sendCodeAsync_saved_by_contents_witness :
  exists s',
    sendCodeAsync quiet_world {[ "app.js" := 2%positive ]} edited_session = (Ok tt, s') /\
    v_isSaved (getState edited_session) = false /\
    v_isSaved (getState s') = true.
Proof.
  destruct (sendCodeAsync_saved_by_contents quiet_world {[ "app.js" := 2%positive ]}
              edited_session) as (s' & Hrun & _ & _ & _ & Hsaved).
  { intros key l Hkey. apply lookup_singleton_Some in Hkey as [<- <-].
    eexists. split; [vm_compute; reflexivity|]. intros [b Hb]. discriminate Hb. }
  exists s'. split; [exact Hrun|]. split; [vm_compute; reflexivity|].
  apply Hsaved. vm_compute. reflexivity.
Defined.

Lemma setName_round_trip_witness :
  setName "demo" named_session = (Ok tt, named_session) /\
  exists v1 v2 s1,
    setName "renamed" named_session = (Ok tt, s1) /\
    events s1 = EvState v1 :: events named_session /\
    v_name v1 = Some "renamed" /\ v_isSaved v1 = false /\
    setName "demo" s1 =
      (Ok tt, set_events (EvState v2 :: EvState v1 :: events named_session)
                named_session) /\
    v_name v2 = Some "demo" /\ v_isSaved v2 = true.
Proof.
  apply (setName_round_trip named_session "demo" "renamed");
    [reflexivity|vm_compute; reflexivity|discriminate].
Defined.

Lemma setDescription_round_trip_witness :
  setDescription "A demo" named_session = (Ok tt, named_session) /\
  exists v1 v2 s1,
    setDescription "Edited" named_session = (Ok tt, s1) /\
    events s1 = EvState v1 :: events named_session /\
    v_description v1 = Some "Edited" /\ v_isSaved v1 = false /\
    setDescription "A demo" s1 =
      (Ok tt, set_events (EvState v2 :: EvState v1 :: events named_session)
                named_session) /\
    v_description v2 = Some "A demo" /\ v_isSaved v2 = true.
Proof.
  apply (setDescription_round_trip named_session "A demo" "Edited");
    [reflexivity|vm_compute; reflexivity|discriminate].
Defined.

Lemma saveAsync_rejects_witness :
  (saveAsync refusing_world fresh_session).1 = Throw "Snack is too large" /\
  _isSaved (saveAsync refusing_world fresh_session).2 = _isSaved fresh_session.
Proof.
  destruct (saveAsync_rejects refusing_world fresh_session) as [Hrun Hsaved];
    [reflexivity|].
  split; [exact (f_equal fst Hrun)|exact Hsaved].
Defined.

Lemma saveAsync_urls_witness :
  (saveAsync quiet_world fresh_session).1 =
    Ok ("abc123", "https://expo.io/@snack/abc123") /\
  (downloadAsync quiet_world fresh_session).1 =
    Ok "https://expo.io/--/api/v2/snack/download/abc123".
Proof.
  destruct (saveAsync_urls quiet_world fresh_session
              {| sd_id := Some "abc123"; sd_error := None |} "abc123")
    as (Hsave & _ & Hdownload & _); [reflexivity|reflexivity|discriminate|].
  split; [exact Hsave|exact (f_equal fst Hdownload)].
Defined.

Lemma stopAsync_forgets_urls_witness :
  exists c1 c2,
    startAsync small_client = (Ok tt, c1) /\
    stopAsync c1 = (Ok tt, c2) /\
    transport c2 = [PnUnsubscribe ["r1cKrtvZb"]; PnSubscribe ["r1cKrtvZb"] true].
Proof.
  destruct (stopAsync_forgets_urls quiet_world small_client)
    as (c1 & c2 & Hstart & Hstop & Htransport & _);
    [reflexivity|split; intros; eexists; reflexivity|].
  exists c1, c2. split; [exact Hstart|]. split; [exact Hstop|exact Htransport].
Defined.


Lemma life_at_rest_witness :
  at_rest (session small_client) /\
  isResolving (session (life quiet_world no_json removes_nothing short_life
                          small_client)) = false /\
  loadingMessage (session (life quiet_world no_json removes_nothing short_life
                             small_client)) = None.
Proof.
  assert (Hrest : at_rest (session small_client)) by (split; reflexivity).
  split; [exact Hrest|].
  destruct (life_at_rest quiet_world no_json removes_nothing small_client short_life
              Hrest) as (Hresolving & Hloading & _).
  split; [exact Hresolving|exact Hloading].
Defined.

Lemma sendCodeAsync_then_snapshot_witness :
  exists s1 fileSize s2 url,
    sendCodeAsync quiet_world {[ "logo.png" := 2%positive ]}
      (set_heap two_files_heap fresh_session) = (Ok tt, s1) /\
    file_at s1 "logo.png" = Some (mkFile ASSET (Str url)) /\
    _uploadHelper quiet_world s1 = (Ok fileSize, s2) /\
    ledger_at s2 "logo.png" = (Some "", Some (Str url), Some url).
Proof.
  apply (sendCodeAsync_then_snapshot quiet_world {[ "logo.png" := 2%positive ]}
           (set_heap two_files_heap fresh_session) "logo.png" 2%positive 7%positive).
  - split; intros; eexists; reflexivity.
  - intros hist c api url [= <-]. reflexivity.
  - intros key l Hkey. apply lookup_singleton_Some in Hkey as [_ <-].
    eexists. vm_compute. reflexivity.
  - reflexivity.
  - discriminate.
  - vm_compute. reflexivity.
Defined.

